(** * SAYses voice core: a shallow embedding of the C++ sources

    The development follows the layout of [Core/src]:
    - [mumble/crypto.cpp]            : [CryptState] (OCB-AES128 packet sealing)
    - [audio/user_audio_buffer.cpp]  : [Crossfade], [FloatMixer], [UserAudioBuffer]
    - [audio/jitter_buffer.cpp]      : [JitterBuffer]
    - [mumble/mumble_client.cpp]     : [MumbleClient] (connect / disconnect)
    - [mumble/udp_ping.cpp]          : [UdpPing] (ping loop)

    Machine integers are [Z] with the wrap-around written out, byte buffers
    are [list Z], C++ [float] is IEEE binary32 through the standard library's
    [SpecFloat], and calls into OpenSSL, libm, the clock and the network are
    parameters or oracle records. *)

From Stdlib Require Import ZArith Lia Bool.
From Stdlib Require Import Floats.SpecFloat.
From stdpp Require Import base list strings.

Local Open Scope Z_scope.

(** ** Fixed-width integers *)

Module Int.

Definition u8 (x : Z) : Z := x mod 256.
Definition u32 (x : Z) : Z := x mod 2 ^ 32.
Definition u64 (x : Z) : Z := x mod 2 ^ 64.

(** [static_cast<int8_t>] of an integer: reduce modulo 256 into [-128, 127]. *)
Definition i8 (x : Z) : Z := (x + 128) mod 256 - 128.

(** [static_cast<int>] of an integer: reduce modulo 2^32 into the signed range. *)
Definition i32 (x : Z) : Z := (x + 2 ^ 31) mod 2 ^ 32 - 2 ^ 31.

(** [int64_t] arithmetic: reduce modulo 2^64 into the signed range. *)
Definition i64 (x : Z) : Z := (x + 2 ^ 63) mod 2 ^ 64 - 2 ^ 63.

(** Conversion of an [int] to [size_t] (64 bit on the target). *)
Definition size_t_of_int (x : Z) : Z := u64 x.

End Int.

(** ** Raw buffers *)

Module Buf.

(** Read [p[i]]; a read outside the modelled region yields [0]. *)
Definition rd (p : list Z) (i : nat) : Z := nth i p 0.

(** [memcpy(p + off, bytes, |bytes|)]. *)
Definition memcpy_at {A} (off : nat) (bytes : list A) (p : list A) : list A :=
  take off p ++ bytes ++ drop (off + length bytes) p.

End Buf.

(** ** AES-128 (FIPS-197)

    The sources call OpenSSL's [AES_set_encrypt_key] and [AES_encrypt]; the
    OCB code only uses them as a block function.  The general results below
    are stated for any block function.  This module is the FIPS-197 cipher
    itself, used to run the model on concrete packets. *)

Module AES128.

Definition sbox : list Z :=
 [ 99; 124; 119; 123; 242; 107; 111; 197; 48; 1; 103; 43; 254; 215; 171; 118;
  202; 130; 201; 125; 250; 89; 71; 240; 173; 212; 162; 175; 156; 164; 114; 192;
  183; 253; 147; 38; 54; 63; 247; 204; 52; 165; 229; 241; 113; 216; 49; 21;
  4; 199; 35; 195; 24; 150; 5; 154; 7; 18; 128; 226; 235; 39; 178; 117;
  9; 131; 44; 26; 27; 110; 90; 160; 82; 59; 214; 179; 41; 227; 47; 132;
  83; 209; 0; 237; 32; 252; 177; 91; 106; 203; 190; 57; 74; 76; 88; 207;
  208; 239; 170; 251; 67; 77; 51; 133; 69; 249; 2; 127; 80; 60; 159; 168;
  81; 163; 64; 143; 146; 157; 56; 245; 188; 182; 218; 33; 16; 255; 243; 210;
  205; 12; 19; 236; 95; 151; 68; 23; 196; 167; 126; 61; 100; 93; 25; 115;
  96; 129; 79; 220; 34; 42; 144; 136; 70; 238; 184; 20; 222; 94; 11; 219;
  224; 50; 58; 10; 73; 6; 36; 92; 194; 211; 172; 98; 145; 149; 228; 121;
  231; 200; 55; 109; 141; 213; 78; 169; 108; 86; 244; 234; 101; 122; 174; 8;
  186; 120; 37; 46; 28; 166; 180; 198; 232; 221; 116; 31; 75; 189; 139; 138;
  112; 62; 181; 102; 72; 3; 246; 14; 97; 53; 87; 185; 134; 193; 29; 158;
  225; 248; 152; 17; 105; 217; 142; 148; 155; 30; 135; 233; 206; 85; 40; 223;
  140; 161; 137; 13; 191; 230; 66; 104; 65; 153; 45; 15; 176; 84; 187; 22 ].

Definition SubByte (b : Z) : Z := nth (Z.to_nat (Int.u8 b)) sbox 0.

(** Multiplication by [x] in GF(2^8) modulo [x^8 + x^4 + x^3 + x + 1]. *)
Definition xtime (b : Z) : Z :=
  let s := Int.u8 (Z.shiftl b 1) in
  if Z.testbit b 7 then Z.lxor s 27 else s.

Definition SubBytes (s : list Z) : list Z := map SubByte s.

(** The state is kept in input order (column-major). *)
Definition ShiftRows (s : list Z) : list Z :=
  map (Buf.rd s) [0; 5; 10; 15; 4; 9; 14; 3; 8; 13; 2; 7; 12; 1; 6; 11]%nat.

Definition MixColumn (a0 a1 a2 a3 : Z) : list Z :=
  [ Z.lxor (Z.lxor (xtime a0) (Z.lxor (xtime a1) a1)) (Z.lxor a2 a3);
    Z.lxor (Z.lxor a0 (xtime a1)) (Z.lxor (Z.lxor (xtime a2) a2) a3);
    Z.lxor (Z.lxor a0 a1) (Z.lxor (xtime a2) (Z.lxor (xtime a3) a3));
    Z.lxor (Z.lxor (Z.lxor (xtime a0) a0) a1) (Z.lxor a2 (xtime a3)) ].

Fixpoint MixColumns (s : list Z) : list Z :=
  match s with
  | a0 :: a1 :: a2 :: a3 :: rest => MixColumn a0 a1 a2 a3 ++ MixColumns rest
  | _ => []
  end.

Definition AddRoundKey (s k : list Z) : list Z := zip_with Z.lxor s k.

(** One step of the key expansion: the next 16-byte round key. *)
Definition NextRoundKey (rcon : Z) (k : list Z) : list Z :=
  let t := [ Z.lxor (SubByte (Buf.rd k 13)) rcon; SubByte (Buf.rd k 14);
             SubByte (Buf.rd k 15); SubByte (Buf.rd k 12) ] in
  let w0 := zip_with Z.lxor (take 4 k) t in
  let w1 := zip_with Z.lxor (take 4 (drop 4 k)) w0 in
  let w2 := zip_with Z.lxor (take 4 (drop 8 k)) w1 in
  let w3 := zip_with Z.lxor (take 4 (drop 12 k)) w2 in
  w0 ++ w1 ++ w2 ++ w3.

Definition Rcon : list Z := [1; 2; 4; 8; 16; 32; 64; 128; 27; 54].

(** Rounds 1 .. Nr; the last one omits [MixColumns]. *)
Fixpoint Rounds (rcons : list Z) (k s : list Z) : list Z :=
  match rcons with
  | [] => s
  | [rc] =>
      let k' := NextRoundKey rc k in
      AddRoundKey (ShiftRows (SubBytes s)) k'
  | rc :: rest =>
      let k' := NextRoundKey rc k in
      Rounds rest k' (AddRoundKey (MixColumns (ShiftRows (SubBytes s))) k')
  end.

(** [AES_encrypt(in, out, key)] for a 128-bit key. *)
Definition AES_encrypt (input key : list Z) : list Z :=
  Rounds Rcon key (AddRoundKey input key).

End AES128.

(** ** [mumble/crypto.cpp]: class [CryptState] *)

Module CryptState.

(** [AES_KEY]: the key schedule is a function of the 16 key bytes, which
    stand for it here. *)
Definition AES_KEY := list Z.

Record t := mk {
  key_ : list Z;
  clientNonce_ : list Z;
  serverNonce_ : list Z;
  aesKey_ : AES_KEY;
  L_ : list Z;
  delta_ : list Z;
  initialized_ : bool;
  needResync_ : bool;
  encryptNonce_ : Z;
  decryptNonce_ : Z;
  lastGood_ : Z;
  late_ : Z;
  lost_ : Z
}.

Definition set_encryptNonce (st : t) (v : Z) : t :=
  mk (key_ st) (clientNonce_ st) (serverNonce_ st) (aesKey_ st) (L_ st)
     (delta_ st) (initialized_ st) (needResync_ st) v (decryptNonce_ st)
     (lastGood_ st) (late_ st) (lost_ st).

Definition set_decryptNonce (st : t) (v : Z) : t :=
  mk (key_ st) (clientNonce_ st) (serverNonce_ st) (aesKey_ st) (L_ st)
     (delta_ st) (initialized_ st) (needResync_ st) (encryptNonce_ st) v
     (lastGood_ st) (late_ st) (lost_ st).

Definition set_needResync (st : t) (v : bool) : t :=
  mk (key_ st) (clientNonce_ st) (serverNonce_ st) (aesKey_ st) (L_ st)
     (delta_ st) (initialized_ st) v (encryptNonce_ st) (decryptNonce_ st)
     (lastGood_ st) (late_ st) (lost_ st).

(** The constructor: zeroed key material, member initialisers for the rest.
    [aesKey_], [L_] and [delta_] are left unset by the source; they are never
    read before [init] (every user checks [initialized_]). *)
Definition CryptState : t :=
  mk (replicate 16 0) (replicate 16 0) (replicate 16 0) [] [] []
     false false 0 0 0 0 0.

(** Result of one packet operation: the return value, the object afterwards
    and the two caller buffers afterwards. *)
Record outcome := mkOutcome {
  ret : bool;
  state : t;
  src_after : list Z;
  dst_after : list Z
}.

Section Cipher.

(** OpenSSL: [AES_encrypt(in, out, key)] yields [out]. *)
Variable AES_encrypt : list Z -> AES_KEY -> list Z.

(** OpenSSL: [AES_set_encrypt_key(userKey, bits, key)]; [None] stands for a
    negative return value (only for a size other than 128/192/256). *)
Definition AES_set_encrypt_key (userKey : list Z) (bits : Z) : option AES_KEY :=
  if bits =? 128 then Some userKey else None.

Definition aesEncrypt (st : t) (src : list Z) : list Z :=
  AES_encrypt src (aesKey_ st).

(** [for (i = 0; i < 16; i++) dst[i] = a[i] ^ b[i]] *)
Definition xorBlock (a b : list Z) : list Z :=
  map (fun i => Z.lxor (Buf.rd a i) (Buf.rd b i)) (seq 0 16).

(** Doubling in GF(2^128); every store truncates to [uint8_t]. *)
Definition shift (src : list Z) : list Z :=
  let carry := Z.shiftr (Buf.rd src 0) 7 in
  map (fun i => Int.u8 (Z.lor (Z.shiftl (Buf.rd src i) 1)
                              (Z.shiftr (Buf.rd src (S i)) 7))) (seq 0 15)
  ++ [Int.u8 (Z.lxor (Z.shiftl (Buf.rd src 15) 1)
                     (if carry =? 0 then 0 else 135))].

Definition generateSubkeys (st : t) : t :=
  let zero := replicate 16 0 in
  let L := aesEncrypt st zero in
  mk (key_ st) (clientNonce_ st) (serverNonce_ st) (aesKey_ st) L L
     (initialized_ st) (needResync_ st) (encryptNonce_ st) (decryptNonce_ st)
     (lastGood_ st) (late_ st) (lost_ st).

(** [init]: on a failed key setup the three copies have already been made. *)
Definition init (st : t) (key clientNonce serverNonce : list Z) : bool * t :=
  let st := mk (take 16 key) (take 16 clientNonce) (take 16 serverNonce)
               (aesKey_ st) (L_ st) (delta_ st) (initialized_ st)
               (needResync_ st) (encryptNonce_ st) (decryptNonce_ st)
               (lastGood_ st) (late_ st) (lost_ st) in
  match AES_set_encrypt_key (key_ st) 128 with
  | None => (false, st)
  | Some k =>
      let st := mk (key_ st) (clientNonce_ st) (serverNonce_ st) k (L_ st)
                   (delta_ st) (initialized_ st) (needResync_ st)
                   (encryptNonce_ st) (decryptNonce_ st) (lastGood_ st)
                   (late_ st) (lost_ st) in
      let st := generateSubkeys st in
      (true, mk (key_ st) (clientNonce_ st) (serverNonce_ st) (aesKey_ st)
                (L_ st) (delta_ st) true false 0 0 0 0 0)
  end.

(** The loop over the full blocks of [ocbEncrypt]: [n] iterations are left,
    [i] is the loop index; [encrypted] collects the blocks written at
    [encrypted + i * 16]. *)
Fixpoint ocbFullBlocks (st : t) (n i : nat) (plain encrypted offset checksum : list Z)
  : list Z * list Z * list Z :=
  match n with
  | O => (encrypted, offset, checksum)
  | S n' =>
      let offset := xorBlock offset (L_ st) in
      let P := take 16 (drop (i * 16) plain) in
      let tmp := xorBlock P offset in
      let enc := aesEncrypt st tmp in
      let encrypted := encrypted ++ xorBlock enc offset in
      let checksum := xorBlock checksum P in
      ocbFullBlocks st n' (S i) plain encrypted offset checksum
  end.

(** The byte loop over the final partial block. *)
Fixpoint ocbPartial (n i : nat) (base : nat) (plain pad encrypted checksum : list Z)
  : list Z * list Z :=
  match n with
  | O => (encrypted, checksum)
  | S n' =>
      let p := Buf.rd plain (base + i) in
      let encrypted := encrypted ++ [Z.lxor p (Buf.rd pad i)] in
      let checksum := <[i := Z.lxor (Buf.rd checksum i) p]> checksum in
      ocbPartial n' (S i) base plain pad encrypted checksum
  end.

(** [ocbEncrypt(plain, encrypted, len, nonce, tag)] with [len = |plain|]:
    the bytes written to [encrypted] and the 16-byte [tag]. *)
Definition ocbEncrypt (st : t) (plain nonce : list Z) : list Z * list Z :=
  let len := length plain in
  let checksum := replicate 16 0 in
  let offset := aesEncrypt st nonce in
  let fullBlocks := (len / 16)%nat in
  let '(encrypted, offset, checksum) :=
    ocbFullBlocks st fullBlocks 0 plain [] offset checksum in
  let remaining := (len mod 16)%nat in
  let '(encrypted, offset, checksum) :=
    if (0 <? remaining)%nat then
      let offset := shift offset in
      let pad := aesEncrypt st offset in
      let '(encrypted, checksum) :=
        ocbPartial remaining 0 (fullBlocks * 16) plain pad encrypted checksum in
      let checksum :=
        <[remaining := Z.lxor (Buf.rd checksum remaining) 128]> checksum in
      (encrypted, offset, checksum)
    else (encrypted, offset, checksum) in
  let checksum := xorBlock checksum offset in
  let tag := aesEncrypt st checksum in
  (encrypted, tag).

(** The four low nonce bytes take the little-endian counter. *)
Definition storeCounter (nonce : list Z) (counter : Z) : list Z :=
  <[3%nat := Int.u8 (Z.shiftr counter 24)]>
    (<[2%nat := Int.u8 (Z.shiftr counter 16)]>
      (<[1%nat := Int.u8 (Z.shiftr counter 8)]>
        (<[0%nat := Int.u8 counter]> nonce))).

(** [encrypt(src, dst, srcLen)] with [srcLen = |src|]; [dst] is the caller's
    buffer of at least [srcLen + 4] bytes. *)
Definition encrypt (st : t) (src dst : list Z) : outcome :=
  if negb (initialized_ st) then mkOutcome false st src dst else
  let nonce := clientNonce_ st in
  let st := set_encryptNonce st (Int.u32 (encryptNonce_ st + 1)) in
  let nonce := storeCounter nonce (encryptNonce_ st) in
  let dst := <[0%nat := Buf.rd nonce 0]> dst in
  let '(encrypted, tag) := ocbEncrypt st src nonce in
  let dst := Buf.memcpy_at 4 encrypted dst in
  let dst := <[1%nat := Buf.rd tag 0]> dst in
  let dst := <[2%nat := Buf.rd tag 1]> dst in
  let dst := <[3%nat := Buf.rd tag 2]> dst in
  mkOutcome true st src dst.

(** [decrypt(src, dst, srcLen)] with [srcLen = |src|].  The source passes
    [dst] as the [plain] argument of [ocbEncrypt] and [src + 4] as its
    [encrypted] argument: [dst] is only read, [src + 4] is overwritten. *)
Definition decrypt (st : t) (src dst : list Z) : outcome :=
  if negb (initialized_ st) || (length src <? 4)%nat
  then mkOutcome false st src dst else
  let nonce := serverNonce_ st in
  let nonceByte := Buf.rd src 0 in
  let diff := Int.i8 (nonceByte - Int.u8 (decryptNonce_ st)) in
  let predictedNonce := Int.u32 (decryptNonce_ st + diff) in
  let nonce := storeCounter nonce predictedNonce in
  let plainLen := (length src - 4)%nat in
  let '(encrypted, expectedTag) := ocbEncrypt st (take plainLen dst) nonce in
  let src' := Buf.memcpy_at 4 encrypted src in
  if negb (Buf.rd expectedTag 0 =? Buf.rd src' 1)
     || negb (Buf.rd expectedTag 1 =? Buf.rd src' 2)
     || negb (Buf.rd expectedTag 2 =? Buf.rd src' 3)
  then mkOutcome false (set_needResync st true) src' dst
  else mkOutcome true (set_decryptNonce st (Int.u32 (predictedNonce + 1))) src' dst.

Definition isValid (st : t) : bool := initialized_ st.
Definition requestResync (st : t) : t := set_needResync st true.
Definition needsResync (st : t) : bool := needResync_ st.

(** A block read as one big-endian number. *)
Definition blockValue (block : list Z) : Z :=
  fold_left (fun acc b => acc * 256 + b) block 0.

(** The pieces of [decrypt], named: the reconstructed counter, the tag
    computed by [ocbEncrypt] and the three-byte comparison. *)
Definition predicted (st : t) (src : list Z) : Z :=
  Int.u32 (decryptNonce_ st + Int.i8 (Buf.rd src 0 - Int.u8 (decryptNonce_ st))).

Definition expectedTag (st : t) (src dst : list Z) : list Z :=
  snd (ocbEncrypt st (take (length src - 4) dst)
         (storeCounter (serverNonce_ st) (predicted st src))).

Definition tagMatches (st : t) (src dst : list Z) : bool :=
  (Buf.rd (expectedTag st src dst) 0 =? Buf.rd src 1)
  && (Buf.rd (expectedTag st src dst) 1 =? Buf.rd src 2)
  && (Buf.rd (expectedTag st src dst) 2 =? Buf.rd src 3).

(** Flipping bits of packet byte [i]: the byte is xor-ed with [mask]. *)
Definition flipByte (src : list Z) (i : nat) (mask : Z) : list Z :=
  <[i := Z.lxor (Buf.rd src i) mask]> src.

End Cipher.

End CryptState.

(** ** C++ [float]: IEEE binary32 *)

Module F32.

Definition prec : Z := 24.
Definition emax : Z := 128.

Definition float := spec_float.

Definition add : float -> float -> float := SFadd prec emax.
Definition mul : float -> float -> float := SFmul prec emax.
Definition div : float -> float -> float := SFdiv prec emax.
Definition ltb : float -> float -> bool := SFltb.

(** Conversion of an integer to [float] (round to nearest even). *)
Definition of_int (z : Z) : float := binary_normalize prec emax z 0 false.

Definition zero : float := S754_zero false.
Definition one : float := of_int 1.

(** The integer part, rounding toward zero; [None] for NaN and infinities. *)
Definition trunc (x : float) : option Z :=
  match x with
  | S754_zero _ => Some 0
  | S754_finite s m e =>
      Some (cond_Zopp s (if 0 <=? e then Z.pos m * 2 ^ e
                         else Z.pos m / 2 ^ (- e)))
  | _ => None
  end.

(** [static_cast<int16_t>(x)]: the truncated value when [int16_t] can hold
    it, otherwise undefined ([None]). *)
Definition to_int16 (x : float) : option Z :=
  match trunc x with
  | Some z => if (-32768 <=? z) && (z <=? 32767) then Some z else None
  | None => None
  end.

(** [static_cast<float>(M_PI)]: the binary32 nearest to pi, [0x40490FDB]. *)
Definition M_PI : float := S754_finite false 13176795 (-22).

End F32.

(** ** libm

    [std::sin] at type [float] is a parameter of the model.  Where a concrete
    table is wanted this stand-in is used: the Taylor polynomial of degree 15
    of the sine, evaluated in fixed point with 64 fractional bits and rounded
    to binary32 (adequate on [0, pi/2], the range of the fade tables). *)

Module Libm.

(** [1 - x2 / d * acc] in fixed point, for the divisors [(2k)(2k+1)] from the
    innermost factor outwards. *)
Fixpoint horner (divisors : list Z) (x2 acc : Z) : Z :=
  match divisors with
  | [] => acc
  | d :: rest => horner rest x2 (2 ^ 64 - Z.shiftr (x2 * acc) 64 / d)
  end.

Definition sinf (x : F32.float) : F32.float :=
  match x with
  | S754_finite s m e =>
      let X := Z.shiftl (Z.pos m) (e + 64) in
      let x2 := Z.shiftr (X * X) 64 in
      let q := Z.shiftr (X * horner [210; 156; 110; 72; 42; 20; 6] x2 (2 ^ 64)) 64 in
      binary_normalize F32.prec F32.emax (cond_Zopp s q) (-64) false
  | S754_zero s => S754_zero s
  | _ => S754_nan
  end.

End Libm.

(** A memory cell of a caller-supplied array: [None] while nothing
    determinate has been stored in it. *)
Abbreviation cell A := (option A) (only parsing).

(** ** [audio/user_audio_buffer.cpp]: class [CrossfadeImpl] *)

Module Crossfade.

Record t := mk {
  fadeLength_ : Z;
  fadeIn_ : list F32.float;
  fadeOut_ : list F32.float
}.

Section Libm.

(** libm: [std::sin] at type [float]. *)
Variable sinf : F32.float -> F32.float.

(** The constructor.  [resize] with a negative [frameSize] throws in the
    source; the tables are then empty here. *)
Definition create (frameSize : Z) : t :=
  let fadeLength := frameSize in
  let mul := F32.div F32.M_PI (F32.mul (F32.of_int 2) (F32.of_int fadeLength)) in
  let idx := map Z.of_nat (seq 0 (Z.to_nat fadeLength)) in
  mk fadeLength
     (map (fun i => sinf (F32.mul (F32.of_int i) mul)) idx)
     (map (fun i => sinf (F32.mul (F32.of_int (fadeLength - i - 1)) mul)) idx).

End Libm.

(** [samples[k] *= table[j]]; the cell stays indeterminate when it was, or
    when the table has no entry [j]. *)
Definition scale (table : list F32.float) (j k : nat)
  (samples : list (cell F32.float)) : list (cell F32.float) :=
  <[k := match samples !! k, table !! j with
         | Some (Some x), Some f => Some (F32.mul x f)
         | _, _ => None
         end]> samples.

(** [for (i = 0; i < applyFrames; ++i) samples[sOff + i] *= table[tOff + i]];
    [n] iterations are left. *)
Fixpoint fadeLoop (n i : nat) (table : list F32.float) (tOff sOff : nat)
  (samples : list (cell F32.float)) : list (cell F32.float) :=
  match n with
  | O => samples
  | S n' =>
      fadeLoop n' (S i) table tOff sOff
               (scale table (tOff + i) (sOff + i) samples)
  end.

Definition applyFrames (c : t) (frames : nat) : nat :=
  Z.to_nat (Z.min (Z.of_nat frames) (Int.size_t_of_int (fadeLength_ c))).

Definition applyFadeIn (c : t) (samples : list (cell F32.float)) (frames : nat)
  : list (cell F32.float) :=
  fadeLoop (applyFrames c frames) 0 (fadeIn_ c) 0 0 samples.

Definition applyFadeOut (c : t) (samples : list (cell F32.float)) (frames : nat)
  : list (cell F32.float) :=
  let n := applyFrames c frames in
  let startIdx := (frames - n)%nat in
  fadeLoop n 0 (fadeOut_ c) (Z.to_nat (fadeLength_ c) - n) startIdx samples.

Definition getFadeLength (c : t) : Z := fadeLength_ c.

End Crossfade.

(** ** [audio/user_audio_buffer.cpp]: class [FloatMixerImpl] *)

Module FloatMixer.

Record t := mk {
  frameSize_ : Z;
  mixBuffer_ : list F32.float
}.

(** The constructor: [mixBuffer_(frameSize, 0.0f)]. *)
Definition create (frameSize : Z) : t :=
  mk frameSize (replicate (Z.to_nat frameSize) F32.zero).

Definition clear (m : t) : t :=
  mk (frameSize_ m) (replicate (length (mixBuffer_ m)) F32.zero).

Definition rdf (p : list F32.float) (i : nat) : F32.float := nth i p F32.zero.

(** [for (i = 0; i < addFrames; ++i) mixBuffer_[i] += samples[i]] *)
Fixpoint addLoop (n i : nat) (samples mix : list F32.float) : list F32.float :=
  match n with
  | O => mix
  | S n' =>
      addLoop n' (S i) samples
              (<[i := F32.add (rdf mix i) (rdf samples i)]> mix)
  end.

Definition add (m : t) (samples : list F32.float) (frames : nat) : t :=
  let addFrames :=
    Z.to_nat (Z.min (Z.of_nat frames) (Int.size_t_of_int (frameSize_ m))) in
  mk (frameSize_ m) (addLoop addFrames 0 samples (mixBuffer_ m)).

(** The two clipping tests of [getMixed]. *)
Definition clip (sample : F32.float) : F32.float :=
  let sample := if F32.ltb F32.one sample then F32.one else sample in
  if F32.ltb sample (SFopp F32.one) then SFopp F32.one else sample.

(** The value stored in [output[i]] for the accumulated [sample]. *)
Definition mixedSample (sample : F32.float) : cell Z :=
  F32.to_int16 (F32.mul (clip sample) (F32.of_int 32767)).

Fixpoint getMixedLoop (n i : nat) (mix : list F32.float) (output : list (cell Z))
  : list (cell Z) :=
  match n with
  | O => output
  | S n' =>
      getMixedLoop n' (S i) mix (<[i := mixedSample (rdf mix i)]> output)
  end.

(** [getMixed(output, frames)]: the caller's [output] afterwards. *)
Definition getMixed (m : t) (output : list (cell Z)) (frames : nat)
  : list (cell Z) :=
  let outFrames :=
    Z.to_nat (Z.min (Z.of_nat frames) (Int.size_t_of_int (frameSize_ m))) in
  getMixedLoop outFrames 0 (mixBuffer_ m) output.

Definition getFloatBuffer (m : t) : list F32.float := mixBuffer_ m.

(** A mixer as the constructor builds it: an [int] frame size that the
    vector accepts, and a buffer of that length. *)
Definition wf (m : t) : Prop :=
  0 <= frameSize_ m < 2 ^ 31 /\ length (mixBuffer_ m) = Z.to_nat (frameSize_ m).

End FloatMixer.

(** ** [audio/user_audio_buffer.cpp]: class [UserAudioBufferImpl] *)

Module UserAudioBuffer.

Record Config := mkConfig {
  sampleRate : Z;
  frameSize : Z;
  minBufferMs : Z;
  maxBufferMs : Z;
  targetBufferMs : Z
}.

(** The member initialisers of [UserAudioBuffer::Config]. *)
Definition defaultConfig : Config := mkConfig 48000 480 60 200 80.

Record Stats := mkStats {
  packetsReceived : Z;
  packetsDecoded : Z;
  sequenceGaps : Z;
  plcFrames : Z;
  bufferUnderruns : Z;
  bufferOverruns : Z;
  fadeIns : Z;
  fadeOuts : Z;
  lastSequence : Z;
  currentBufferSize : Z;
  maxGapMs : Z
}.

(** [Stats{}] *)
Definition Stats0 : Stats := mkStats 0 0 0 0 0 0 0 0 (-1) 0 0.

Definition set_packetsReceived (x : Stats) (v : Z) : Stats :=
  mkStats v (packetsDecoded x) (sequenceGaps x) (plcFrames x) (bufferUnderruns x) (bufferOverruns x) (fadeIns x) (fadeOuts x) (lastSequence x) (currentBufferSize x) (maxGapMs x).

Definition set_packetsDecoded (x : Stats) (v : Z) : Stats :=
  mkStats (packetsReceived x) v (sequenceGaps x) (plcFrames x) (bufferUnderruns x) (bufferOverruns x) (fadeIns x) (fadeOuts x) (lastSequence x) (currentBufferSize x) (maxGapMs x).

Definition set_sequenceGaps (x : Stats) (v : Z) : Stats :=
  mkStats (packetsReceived x) (packetsDecoded x) v (plcFrames x) (bufferUnderruns x) (bufferOverruns x) (fadeIns x) (fadeOuts x) (lastSequence x) (currentBufferSize x) (maxGapMs x).

Definition set_plcFrames (x : Stats) (v : Z) : Stats :=
  mkStats (packetsReceived x) (packetsDecoded x) (sequenceGaps x) v (bufferUnderruns x) (bufferOverruns x) (fadeIns x) (fadeOuts x) (lastSequence x) (currentBufferSize x) (maxGapMs x).

Definition set_bufferUnderruns (x : Stats) (v : Z) : Stats :=
  mkStats (packetsReceived x) (packetsDecoded x) (sequenceGaps x) (plcFrames x) v (bufferOverruns x) (fadeIns x) (fadeOuts x) (lastSequence x) (currentBufferSize x) (maxGapMs x).

Definition set_bufferOverruns (x : Stats) (v : Z) : Stats :=
  mkStats (packetsReceived x) (packetsDecoded x) (sequenceGaps x) (plcFrames x) (bufferUnderruns x) v (fadeIns x) (fadeOuts x) (lastSequence x) (currentBufferSize x) (maxGapMs x).

Definition set_fadeIns (x : Stats) (v : Z) : Stats :=
  mkStats (packetsReceived x) (packetsDecoded x) (sequenceGaps x) (plcFrames x) (bufferUnderruns x) (bufferOverruns x) v (fadeOuts x) (lastSequence x) (currentBufferSize x) (maxGapMs x).

Definition set_fadeOuts (x : Stats) (v : Z) : Stats :=
  mkStats (packetsReceived x) (packetsDecoded x) (sequenceGaps x) (plcFrames x) (bufferUnderruns x) (bufferOverruns x) (fadeIns x) v (lastSequence x) (currentBufferSize x) (maxGapMs x).

Definition set_lastSequence (x : Stats) (v : Z) : Stats :=
  mkStats (packetsReceived x) (packetsDecoded x) (sequenceGaps x) (plcFrames x) (bufferUnderruns x) (bufferOverruns x) (fadeIns x) (fadeOuts x) v (currentBufferSize x) (maxGapMs x).

Definition set_currentBufferSize (x : Stats) (v : Z) : Stats :=
  mkStats (packetsReceived x) (packetsDecoded x) (sequenceGaps x) (plcFrames x) (bufferUnderruns x) (bufferOverruns x) (fadeIns x) (fadeOuts x) (lastSequence x) v (maxGapMs x).

Definition set_maxGapMs (x : Stats) (v : Z) : Stats :=
  mkStats (packetsReceived x) (packetsDecoded x) (sequenceGaps x) (plcFrames x) (bufferUnderruns x) (bufferOverruns x) (fadeIns x) (fadeOuts x) (lastSequence x) (currentBufferSize x) v.

(** Time points of [steady_clock] are counted in nanoseconds. *)
Record t := mk {
  userId_ : Z;
  config_ : Config;
  crossfade_ : Crossfade.t;
  buffer_ : list F32.float;
  minBufferSize_ : Z;
  maxBufferSize_ : Z;
  lastSequence_ : Z;
  sequenceIncrement_ : Z;
  playbackStarted_ : bool;
  needsFadeIn_ : bool;
  needsFadeOut_ : bool;
  lastPacketTime_ : Z;
  stats_ : Stats
}.

Definition set_buffer_ (x : t) (v : list F32.float) : t :=
  mk (userId_ x) (config_ x) (crossfade_ x) v (minBufferSize_ x) (maxBufferSize_ x) (lastSequence_ x) (sequenceIncrement_ x) (playbackStarted_ x) (needsFadeIn_ x) (needsFadeOut_ x) (lastPacketTime_ x) (stats_ x).

Definition set_lastSequence_ (x : t) (v : Z) : t :=
  mk (userId_ x) (config_ x) (crossfade_ x) (buffer_ x) (minBufferSize_ x) (maxBufferSize_ x) v (sequenceIncrement_ x) (playbackStarted_ x) (needsFadeIn_ x) (needsFadeOut_ x) (lastPacketTime_ x) (stats_ x).

Definition set_sequenceIncrement_ (x : t) (v : Z) : t :=
  mk (userId_ x) (config_ x) (crossfade_ x) (buffer_ x) (minBufferSize_ x) (maxBufferSize_ x) (lastSequence_ x) v (playbackStarted_ x) (needsFadeIn_ x) (needsFadeOut_ x) (lastPacketTime_ x) (stats_ x).

Definition set_playbackStarted_ (x : t) (v : bool) : t :=
  mk (userId_ x) (config_ x) (crossfade_ x) (buffer_ x) (minBufferSize_ x) (maxBufferSize_ x) (lastSequence_ x) (sequenceIncrement_ x) v (needsFadeIn_ x) (needsFadeOut_ x) (lastPacketTime_ x) (stats_ x).

Definition set_needsFadeIn_ (x : t) (v : bool) : t :=
  mk (userId_ x) (config_ x) (crossfade_ x) (buffer_ x) (minBufferSize_ x) (maxBufferSize_ x) (lastSequence_ x) (sequenceIncrement_ x) (playbackStarted_ x) v (needsFadeOut_ x) (lastPacketTime_ x) (stats_ x).

Definition set_needsFadeOut_ (x : t) (v : bool) : t :=
  mk (userId_ x) (config_ x) (crossfade_ x) (buffer_ x) (minBufferSize_ x) (maxBufferSize_ x) (lastSequence_ x) (sequenceIncrement_ x) (playbackStarted_ x) (needsFadeIn_ x) v (lastPacketTime_ x) (stats_ x).

Definition set_lastPacketTime_ (x : t) (v : Z) : t :=
  mk (userId_ x) (config_ x) (crossfade_ x) (buffer_ x) (minBufferSize_ x) (maxBufferSize_ x) (lastSequence_ x) (sequenceIncrement_ x) (playbackStarted_ x) (needsFadeIn_ x) (needsFadeOut_ x) v (stats_ x).

Definition set_stats_ (x : t) (v : Stats) : t :=
  mk (userId_ x) (config_ x) (crossfade_ x) (buffer_ x) (minBufferSize_ x) (maxBufferSize_ x) (lastSequence_ x) (sequenceIncrement_ x) (playbackStarted_ x) (needsFadeIn_ x) (needsFadeOut_ x) (lastPacketTime_ x) v.

Definition bufferSize (st : t) : Z := Z.of_nat (length (buffer_ st)).

Section Libm.

Variable sinf : F32.float -> F32.float.

(** The constructor; [now] is the reading of the steady clock.  The two
    sizes are [int] quotients, of [int] products that wrap, converted to
    [size_t]. *)
Definition create (userId : Z) (config : Config) (now : Z) : t :=
  mk userId config (Crossfade.create sinf (frameSize config)) []
     (Int.size_t_of_int
        (Z.quot (Int.i32 (minBufferMs config * sampleRate config)) 1000))
     (Int.size_t_of_int
        (Z.quot (Int.i32 (maxBufferMs config * sampleRate config)) 1000))
     (-1) 1 false true false now Stats0.

End Libm.

(** [input[i] / 32768.0f] *)
Definition toFloat (s : Z) : F32.float := F32.div (F32.of_int s) (F32.of_int 32768).

(** [for (i = 0; i < frames; ++i) buffer_.push_back(input[i] / 32768.0f)] *)
Fixpoint convertLoop (input : list Z) (buffer : list F32.float) : list F32.float :=
  match input with
  | [] => buffer
  | s :: rest =>
      let sample := toFloat s in
      convertLoop rest (buffer ++ [sample])
  end.

Definition convertToFloat (st : t) (input : list Z) : t :=
  set_buffer_ st (convertLoop input (buffer_ st)).

(** [detectSequenceGap(sequence)]; the sum and the difference are taken in
    [int64_t], wrapping where they leave its range. *)
Definition detectSequenceGap (st : t) (sequence : Z) : t :=
  if lastSequence_ st <? 0 then st else
  let expectedSequence := Int.i64 (lastSequence_ st + sequenceIncrement_ st) in
  if negb (sequence =? expectedSequence) then
    let gap := Int.i64 (sequence - lastSequence_ st) in
    let st :=
      if gap >? sequenceIncrement_ st
      then set_stats_ st (set_sequenceGaps (stats_ st)
                           (Int.u32 (sequenceGaps (stats_ st) + 1)))
      else st in
    if (gap >? 0) && (gap <? 100) then set_sequenceIncrement_ st gap else st
  else st.

(** [while (buffer_.size() > maxBufferSize_) { pop_front(); bufferOverruns++; }] *)
Fixpoint evict (maxBufferSize : Z) (buffer : list F32.float) (overruns : Z)
  : list F32.float * Z :=
  match buffer with
  | [] => ([], overruns)
  | _ :: rest =>
      if Z.of_nat (length buffer) >? maxBufferSize
      then evict maxBufferSize rest (Int.u32 (overruns + 1))
      else (buffer, overruns)
  end.

(** [addSamples(samples, frames, sequence, isPLC)] with [frames = |samples|];
    [now] is the reading of the steady clock. *)
Definition addSamples (st : t) (samples : list Z) (sequence : Z) (isPLC : bool)
  (now : Z) : t :=
  let st :=
    if lastSequence_ st >=? 0 then
      let gapMs := Z.quot (now - lastPacketTime_ st) 1000000 in
      if gapMs >? maxGapMs (stats_ st)
      then set_stats_ st (set_maxGapMs (stats_ st) (Int.i32 gapMs))
      else st
    else st in
  let st := set_lastPacketTime_ st now in
  let st := detectSequenceGap st sequence in
  let st := set_stats_ st (set_packetsReceived (stats_ st)
                            (Int.u32 (packetsReceived (stats_ st) + 1))) in
  let st :=
    if isPLC
    then set_stats_ st (set_plcFrames (stats_ st)
                         (Int.u32 (plcFrames (stats_ st) + 1)))
    else set_stats_ st (set_packetsDecoded (stats_ st)
                         (Int.u32 (packetsDecoded (stats_ st) + 1))) in
  let st := set_stats_ st (set_lastSequence (stats_ st) sequence) in
  let st := set_lastSequence_ st sequence in
  let st := convertToFloat st samples in
  let '(buffer, overruns) :=
    evict (maxBufferSize_ st) (buffer_ st) (bufferOverruns (stats_ st)) in
  let st := set_stats_ (set_buffer_ st buffer)
                      (set_bufferOverruns (stats_ st) overruns) in
  set_stats_ st (set_currentBufferSize (stats_ st) (bufferSize st)).

(** [std::fill(output + from, output + to, 0.0f)] *)
Definition fillZero (from to : nat) (output : list (cell F32.float))
  : list (cell F32.float) :=
  Buf.memcpy_at from (replicate (to - from) (Some F32.zero)) output.

(** [for (i = 0; i < readFrames; ++i) { output[i] = buffer_.front(); buffer_.pop_front(); }] *)
Fixpoint readLoop (n i : nat) (buffer : list F32.float)
  (output : list (cell F32.float)) : list F32.float * list (cell F32.float) :=
  match n with
  | O => (buffer, output)
  | S n' =>
      match buffer with
      | [] => (buffer, output)
      | front :: rest => readLoop n' (S i) rest (<[i := Some front]> output)
      end
  end.

Definition bufferEmpty (st : t) : bool :=
  match buffer_ st with [] => true | _ => false end.

(** [readFloat] from the underrun test on. *)
Definition readFloatStarted (st : t) (output : list (cell F32.float)) (frames : nat)
  : nat * t * list (cell F32.float) :=
  if bufferEmpty st then
    let st := set_needsFadeIn_ (set_playbackStarted_ st false) true in
    let st := set_stats_ st (set_bufferUnderruns (stats_ st)
                               (Int.u32 (bufferUnderruns (stats_ st) + 1))) in
    (0%nat, st, fillZero 0 frames output)
  else
    let readFrames := Nat.min frames (length (buffer_ st)) in
    let '(buffer, output) := readLoop readFrames 0 (buffer_ st) output in
    let st := set_buffer_ st buffer in
    let output :=
      if (readFrames <? frames)%nat then fillZero readFrames frames output
      else output in
    let '(st, output) :=
      if needsFadeIn_ st then
        let output := Crossfade.applyFadeIn (crossfade_ st) output readFrames in
        let st := set_needsFadeIn_ st false in
        (set_stats_ st (set_fadeIns (stats_ st) (Int.u32 (fadeIns (stats_ st) + 1))),
         output)
      else (st, output) in
    let '(st, output) :=
      if needsFadeOut_ st && bufferEmpty st then
        let output := Crossfade.applyFadeOut (crossfade_ st) output readFrames in
        let st := set_needsFadeOut_ st false in
        (set_stats_ st (set_fadeOuts (stats_ st) (Int.u32 (fadeOuts (stats_ st) + 1))),
         output)
      else (st, output) in
    let st := set_stats_ st (set_currentBufferSize (stats_ st) (bufferSize st)) in
    (readFrames, st, output).

(** [readFloat(output, frames)]: the return value, the object afterwards and
    the caller's [output] afterwards. *)
Definition readFloat (st : t) (output : list (cell F32.float)) (frames : nat)
  : nat * t * list (cell F32.float) :=
  if negb (playbackStarted_ st) then
    if bufferSize st >=? minBufferSize_ st
    then readFloatStarted (set_needsFadeIn_ (set_playbackStarted_ st true) true)
                          output frames
    else (0%nat, st, fillZero 0 frames output)
  else readFloatStarted st output frames.

Definition isReady (st : t) : bool := bufferSize st >=? minBufferSize_ st.

Definition isActive (st : t) : bool :=
  negb (bufferEmpty st) || playbackStarted_ st.

Definition getStats (st : t) : Stats := stats_ st.

Definition reset (st : t) : t :=
  mk (userId_ st) (config_ st) (crossfade_ st) [] (minBufferSize_ st)
     (maxBufferSize_ st) (-1) (sequenceIncrement_ st) false true false
     (lastPacketTime_ st) Stats0.

Definition notifyTalkingEnded (st : t) : t := set_needsFadeOut_ st true.

End UserAudioBuffer.

(** ** [audio/jitter_buffer.cpp]: class [JitterBufferImpl] *)

(** [std::map<uint32_t, V>]: the entries in ascending key order. *)
Module StdMap.

Section Map.
Context {V : Type}.

Fixpoint insert (k : Z) (v : V) (m : list (Z * V)) : list (Z * V) :=
  match m with
  | [] => [(k, v)]
  | (k', v') :: rest =>
      if k <? k' then (k, v) :: m
      else if k =? k' then (k, v) :: rest
      else (k', v') :: insert k v rest
  end.

Fixpoint find (k : Z) (m : list (Z * V)) : option V :=
  match m with
  | [] => None
  | (k', v') :: rest => if k =? k' then Some v' else find k rest
  end.

Fixpoint erase (k : Z) (m : list (Z * V)) : list (Z * V) :=
  match m with
  | [] => []
  | (k', v') :: rest => if k =? k' then rest else (k', v') :: erase k rest
  end.

(** [*m.begin()] and [*m.rbegin()] *)
Definition begin (m : list (Z * V)) : option (Z * V) := head m.
Definition rbegin (m : list (Z * V)) : option (Z * V) := last m.

Definition size (m : list (Z * V)) : Z := Z.of_nat (length m).

End Map.

End StdMap.

Module JitterBuffer.

Record Config := mkConfig {
  sampleRate : Z;
  frameSize : Z;
  minDelayMs : Z;
  maxDelayMs : Z;
  targetDelayMs : Z
}.

(** The member initialisers of [JitterBuffer::Config]. *)
Definition defaultConfig : Config := mkConfig 48000 480 20 200 60.

Record Packet := mkPacket {
  data : list Z;
  sequence : Z;
  timestamp : Z;
  arrivalTime : Z
}.

Record t := mk {
  config_ : Config;
  packets_ : list (Z * Packet);
  nextPlaySequence_ : Z;
  initialized_ : bool;
  currentDelayMs_ : Z;
  lastGetTime_ : Z;
  packetsReceived_ : Z;
  packetsLost_ : Z;
  packetsLate_ : Z;
  packetsReordered_ : Z
}.

Definition kMaxPackets : Z := 100.

(** The constructor; [now] is the reading of the steady clock. *)
Definition create (config : Config) (now : Z) : t :=
  mk config [] 0 false (targetDelayMs config) now 0 0 0 0.

(** [while (packets_.size() > kMaxPackets) packets_.erase(packets_.begin());] *)
Fixpoint limit (packets : list (Z * Packet)) : list (Z * Packet) :=
  match packets with
  | [] => []
  | _ :: rest =>
      if StdMap.size packets >? kMaxPackets then limit rest else packets
  end.

(** [put(data, frames, sequence, timestamp)] with [frames = |data|]; the
    [int] counters wrap. *)
Definition put (st : t) (data : list Z) (sequence timestamp : Z) (now : Z) : t :=
  let received := Int.i32 (packetsReceived_ st + 1) in
  let next := if initialized_ st then nextPlaySequence_ st else sequence in
  if sequence <? next then
    mk (config_ st) (packets_ st) next true (currentDelayMs_ st)
       (lastGetTime_ st) received (packetsLost_ st)
       (Int.i32 (packetsLate_ st + 1)) (packetsReordered_ st)
  else
    let reordered :=
      match StdMap.rbegin (packets_ st) with
      | Some (lastKey, _) =>
          if sequence <? lastKey then Int.i32 (packetsReordered_ st + 1)
          else packetsReordered_ st
      | None => packetsReordered_ st
      end in
    let packet := mkPacket data sequence timestamp now in
    let packets := StdMap.insert sequence packet (packets_ st) in
    mk (config_ st) (limit packets) next true (currentDelayMs_ st)
       (lastGetTime_ st) received (packetsLost_ st) (packetsLate_ st) reordered.

(** [memset(output, 0, frames * sizeof(int16_t))] *)
Definition silence (output : list Z) (frames : nat) : list Z :=
  Buf.memcpy_at 0 (replicate frames 0) output.

(** Copy a packet into [output] and zero-pad up to [frames]. *)
Definition play (packet : Packet) (output : list Z) (frames : nat)
  : nat * list Z :=
  let copyFrames := Nat.min frames (length (data packet)) in
  let output := Buf.memcpy_at 0 (take copyFrames (data packet)) output in
  let output :=
    if (copyFrames <? frames)%nat
    then Buf.memcpy_at copyFrames (replicate (frames - copyFrames) 0) output
    else output in
  (copyFrames, output).

Definition set_playback (st : t) (packets : list (Z * Packet)) (next lost : Z)
  (now : Z) : t :=
  mk (config_ st) packets next (initialized_ st) (currentDelayMs_ st) now
     (packetsReceived_ st) lost (packetsLate_ st) (packetsReordered_ st).

(** [(minDelayMs * sampleRate) / (frameSize * 1000)] in [int] arithmetic,
    the products wrapping.  The source does not guard the division: there
    is no quotient ([None]) when the divisor is zero or the division is
    [INT_MIN / -1]. *)
Definition minPacketsNeeded (config : Config) : option Z :=
  let dividend := Int.i32 (minDelayMs config * sampleRate config) in
  let divisor := Int.i32 (frameSize config * 1000) in
  if divisor =? 0 then None
  else if (dividend =? - 2 ^ 31) && (divisor =? -1) then None
  else Some (Z.quot dividend divisor).

(** [get(output, frames)]: the return value, the object afterwards and the
    caller's [output] afterwards; [None] when the call reaches the division
    of [minPacketsNeeded] and that has no quotient: the call has no defined
    result then (where the division traps, the process is stopped).  The
    [int] counter [packetsLost_] wraps. *)
Definition get (st : t) (output : list Z) (frames : nat) (now : Z)
  : option (nat * t * list Z) :=
  let st := set_playback st (packets_ st) (nextPlaySequence_ st) (packetsLost_ st) now in
  if negb (initialized_ st) || (StdMap.size (packets_ st) =? 0)
  then Some (0%nat, st, silence output frames) else
  let bufferedPackets := Int.i32 (StdMap.size (packets_ st)) in
  match minPacketsNeeded (config_ st) with
  | None => None
  | Some needed =>
  if bufferedPackets <? needed
  then Some (0%nat, st, silence output frames) else
  match StdMap.find (nextPlaySequence_ st) (packets_ st) with
  | Some packet =>
      let '(copyFrames, output) := play packet output frames in
      Some (copyFrames,
            set_playback st (StdMap.erase (nextPlaySequence_ st) (packets_ st))
                         (Int.u32 (nextPlaySequence_ st + 1)) (packetsLost_ st) now,
            output)
  | None =>
      let lost := Int.i32 (packetsLost_ st + 1) in
      match StdMap.begin (packets_ st) with
      | Some (first, packet) =>
          let '(next, lost) :=
            if nextPlaySequence_ st <? first then
              let skipped := Int.i32 (Int.u32 (first - nextPlaySequence_ st)) in
              (first, Int.i32 (lost + Int.i32 (skipped - 1)))
            else (nextPlaySequence_ st, lost) in
          let '(copyFrames, output) := play packet output frames in
          Some (copyFrames,
                set_playback st (StdMap.erase first (packets_ st))
                             (Int.u32 (next + 1)) lost now,
                output)
      | None =>
          Some (0%nat,
                set_playback st (packets_ st) (nextPlaySequence_ st) lost now,
                silence output frames)
      end
  end
  end.

Definition hasData (st : t) : bool :=
  negb (StdMap.size (packets_ st) =? 0).

Definition reset (st : t) : t :=
  mk (config_ st) [] 0 false (targetDelayMs (config_ st)) (lastGetTime_ st)
     0 0 0 0.

(** The keys of a map are strictly ascending, as [std::map] keeps them. *)
Fixpoint ascending (m : list (Z * Packet)) : Prop :=
  match m with
  | [] => True
  | (k, _) :: rest =>
      match rest with
      | [] => True
      | (k', _) :: _ => k < k'
      end /\ ascending rest
  end.

End JitterBuffer.

(** ** [mumble/mumble_client.cpp]: [connect], [disconnect] and their helpers *)

Module MumbleClient.

Inductive ConnectionState :=
| Disconnected
| Connecting
| Connected
| Synchronizing
| Synchronized
| Disconnecting
| Failed.

Inductive MessageType := Version | Authenticate.

Record Config := mkConfig {
  host : string;
  port : Z;
  username : string;
  password : string;
  certificatePath : string;
  privateKeyPath : string;
  validateServerCertificate : bool
}.

(** What OpenSSL, the resolver and the socket layer answer during one
    [connect]. *)
Record World := mkWorld {
  SSL_CTX_new_ok : bool;
  use_certificate_file_ok : bool;
  use_PrivateKey_file_ok : bool;
  fopen_ok : bool;
  d2i_PKCS12_ok : bool;
  PKCS12_parse_ok : bool;
  parsed_cert : bool;
  parsed_pkey : bool;
  use_certificate_ok : bool;
  use_PrivateKey_ok : bool;
  getaddrinfo_ok : bool;
  socket_fd : Z;
  connect_ok : bool;
  SSL_connect_ok : bool
}.

(** The members [connect] and [disconnect] touch.  [sslCtx_] and [ssl_] are
    [true] while they hold a live handle; [stateLog_] lists the calls of
    [setState] (what a state callback observes), latest first and [sent_]
    the messages handed to [sendMessage], latest first. *)
Record t := mk {
  state_ : ConnectionState;
  running_ : bool;
  localSession_ : Z;
  sslCtx_ : bool;
  ssl_ : bool;
  socket_ : Z;
  receiveThread_ : bool;
  pingThread_ : bool;
  channels_ : list Z;
  users_ : list Z;
  config_ : option Config;
  stateLog_ : list ConnectionState;
  sent_ : list MessageType
}.

(** The constructor. *)
Definition create : t :=
  mk Disconnected false 0 false false (-1) false false [] [] None [] [].

Definition setState (c : t) (state : ConnectionState) : t :=
  mk state (running_ c) (localSession_ c) (sslCtx_ c) (ssl_ c) (socket_ c)
     (receiveThread_ c) (pingThread_ c) (channels_ c) (users_ c) (config_ c)
     (state :: stateLog_ c) (sent_ c).

Definition set_ssl (c : t) (ctx ssl : bool) : t :=
  mk (state_ c) (running_ c) (localSession_ c) ctx ssl (socket_ c)
     (receiveThread_ c) (pingThread_ c) (channels_ c) (users_ c) (config_ c)
     (stateLog_ c) (sent_ c).

Definition set_socket (c : t) (fd : Z) : t :=
  mk (state_ c) (running_ c) (localSession_ c) (sslCtx_ c) (ssl_ c) fd
     (receiveThread_ c) (pingThread_ c) (channels_ c) (users_ c) (config_ c)
     (stateLog_ c) (sent_ c).

Definition set_config (c : t) (config : Config) : t :=
  mk (state_ c) (running_ c) (localSession_ c) (sslCtx_ c) (ssl_ c) (socket_ c)
     (receiveThread_ c) (pingThread_ c) (channels_ c) (users_ c) (Some config)
     (stateLog_ c) (sent_ c).

Definition set_threads (c : t) (running receiveThread pingThread : bool) : t :=
  mk (state_ c) running (localSession_ c) (sslCtx_ c) (ssl_ c) (socket_ c)
     receiveThread pingThread (channels_ c) (users_ c) (config_ c)
     (stateLog_ c) (sent_ c).

Definition sendMessage (c : t) (type : MessageType) : t :=
  mk (state_ c) (running_ c) (localSession_ c) (sslCtx_ c) (ssl_ c) (socket_ c)
     (receiveThread_ c) (pingThread_ c) (channels_ c) (users_ c) (config_ c)
     (stateLog_ c) (type :: sent_ c).

Definition state_eqb (a b : ConnectionState) : bool :=
  match a, b with
  | Disconnected, Disconnected | Connecting, Connecting
  | Connected, Connected | Synchronizing, Synchronizing
  | Synchronized, Synchronized | Disconnecting, Disconnecting
  | Failed, Failed => true
  | _, _ => false
  end.

Definition str_empty (s : string) : bool :=
  match s with EmptyString => true | _ => false end.

(** [loadCertificate]: PEM first, then PKCS#12. *)
Definition loadCertificate (w : World) : bool :=
  if use_certificate_file_ok w && use_PrivateKey_file_ok w then true else
  if negb (fopen_ok w) then false else
  if negb (d2i_PKCS12_ok w) then false else
  if negb (PKCS12_parse_ok w) then false else
  let result := true in
  let result :=
    if parsed_cert w && negb (use_certificate_ok w) then false else result in
  let result :=
    if result && parsed_pkey w && negb (use_PrivateKey_ok w) then false
    else result in
  result.

(** [initSSL]; the context stays allocated when the certificate fails. *)
Definition initSSL (w : World) (c : t) (config : Config) : bool * t :=
  if negb (SSL_CTX_new_ok w) then (false, set_ssl c false (ssl_ c)) else
  let c := set_ssl c true (ssl_ c) in
  if negb (str_empty (certificatePath config)) && negb (loadCertificate w)
  then (false, c)
  else (true, c).

Definition cleanupSSL (c : t) : t := set_ssl c false false.

Definition connectSocket (w : World) (c : t) : bool * t :=
  if negb (getaddrinfo_ok w) then (false, c) else
  let c := set_socket c (socket_fd w) in
  if socket_ c <? 0 then (false, c) else
  if negb (connect_ok w) then (false, set_socket c (-1)) else
  (true, c).

Definition sendVersion (c : t) : t := sendMessage c Version.

Definition sendAuthenticate (c : t) : t :=
  setState (sendMessage c Authenticate) Synchronizing.

(** [connect(config)]: the return value and the object when the call
    returns (the receive thread has been started but has not run). *)
Definition connect (w : World) (c : t) (config : Config) : bool * t :=
  if negb (state_eqb (state_ c) Disconnected) then (false, c) else
  let c := set_config c config in
  let c := setState c Connecting in
  let '(ok, c) := initSSL w c config in
  if negb ok then (false, setState c Failed) else
  let '(ok, c) := connectSocket w c in
  if negb ok then (false, setState (cleanupSSL c) Failed) else
  let c := set_ssl c (sslCtx_ c) true in
  if negb (SSL_connect_ok w) then (false, setState (cleanupSSL c) Failed) else
  let c := setState c Connected in
  let c := set_threads c true true (pingThread_ c) in
  let c := sendVersion c in
  let c := sendAuthenticate c in
  (true, c).

(** [disconnect()]; both threads are joined, so nothing runs afterwards. *)
Definition disconnect (c : t) : t :=
  if state_eqb (state_ c) Disconnected then c else
  let c := setState c Disconnecting in
  let c := set_threads c false (receiveThread_ c) (pingThread_ c) in
  let c := if socket_ c >=? 0 then set_socket c (-1) else c in
  let c := set_threads c (running_ c) false false in
  let c := cleanupSSL c in
  let c := mk (state_ c) (running_ c) 0 (sslCtx_ c) (ssl_ c) (socket_ c)
              (receiveThread_ c) (pingThread_ c) [] [] (config_ c)
              (stateLog_ c) (sent_ c) in
  setState c Disconnected.

Definition getState (c : t) : ConnectionState := state_ c.

(** [connect] gets as far as loading the client certificate, which fails. *)
Definition certLoadFails (w : World) (config : Config) : Prop :=
  SSL_CTX_new_ok w = true /\ str_empty (certificatePath config) = false /\
  loadCertificate w = false.

(** [connect] gets as far as [SSL_connect], which fails. *)
Definition handshakeFails (w : World) (config : Config) : Prop :=
  SSL_CTX_new_ok w = true /\
  (str_empty (certificatePath config) = true \/ loadCertificate w = true) /\
  getaddrinfo_ok w = true /\ 0 <= socket_fd w /\ connect_ok w = true /\
  SSL_connect_ok w = false.

End MumbleClient.

(** ** [mumble/udp_ping.cpp]: class [UdpPing] *)

Module UdpPing.

(** What the ping thread observes in one pass of its loop: the value of
    [running_] read by the loop test, whether [receiveResponse] returned
    [true], and the measured round trip in microseconds. *)
Record Tick := mkTick {
  running : bool;
  response : bool;
  latency : Z
}.

(** The stores to [udpAvailable_] and the calls of [callback_], in time
    order. *)
Inductive Event :=
| SetAvailable (b : bool)
| Callback (success : bool) (latencyMs : F32.float).

Record t := mk {
  socket_ : Z;
  running_ : bool;
  udpAvailable_ : bool;
  latencyMs_ : F32.float;
  hasCallback_ : bool;
  pingsSent_ : Z;
  pongsReceived_ : Z;
  trace_ : list Event
}.

Definition kMaxRetries : Z := 3.

(** The constructor. *)
Definition create : t := mk (-1) false false F32.zero false 0 0 [].

Definition emit (st : t) (e : Event) : t :=
  mk (socket_ st) (running_ st) (udpAvailable_ st) (latencyMs_ st)
     (hasCallback_ st) (pingsSent_ st) (pongsReceived_ st) (trace_ st ++ [e]).

Definition set_udpAvailable (st : t) (b : bool) : t :=
  emit (mk (socket_ st) (running_ st) b (latencyMs_ st) (hasCallback_ st)
           (pingsSent_ st) (pongsReceived_ st) (trace_ st))
       (SetAvailable b).

Definition callback (st : t) (success : bool) (latencyMs : F32.float) : t :=
  if hasCallback_ st then emit st (Callback success latencyMs) else st.

(** [start(host, port, callback)]: [socket_fd] and [inet_pton_ok] are the
    answers of the socket layer; the ping thread is started on success. *)
Definition start (st : t) (socket_fd : Z) (inet_pton_ok : bool)
  (hasCallback : bool) : bool * t :=
  if running_ st then (false, st) else
  let st := mk socket_fd (running_ st) (udpAvailable_ st) (latencyMs_ st)
               hasCallback (pingsSent_ st) (pongsReceived_ st) (trace_ st) in
  if socket_ st <? 0 then (false, st) else
  if negb inet_pton_ok then
    (false, mk (-1) (running_ st) (udpAvailable_ st) (latencyMs_ st)
               (hasCallback_ st) (pingsSent_ st) (pongsReceived_ st) (trace_ st))
  else
    let st := mk (socket_ st) true (udpAvailable_ st) (latencyMs_ st)
                 (hasCallback_ st) 0 0 (trace_ st) in
    (true, set_udpAvailable st false).

(** [sendPing]: the datagram goes out and the [int] counter is advanced. *)
Definition sendPing (st : t) : t :=
  mk (socket_ st) (running_ st) (udpAvailable_ st) (latencyMs_ st)
     (hasCallback_ st) (Int.i32 (pingsSent_ st + 1)) (pongsReceived_ st)
     (trace_ st).

(** [receiveResponse] when a reply arrived: the latency is stored. *)
Definition receiveResponse (st : t) (tk : Tick) : bool * t :=
  if response tk then
    (true, mk (socket_ st) (running_ st) (udpAvailable_ st)
              (F32.div (F32.of_int (latency tk)) (F32.of_int 1000))
              (hasCallback_ st) (pingsSent_ st)
              (Int.i32 (pongsReceived_ st + 1)) (trace_ st))
  else (false, st).

(** The code after the loop of [pingLoop]. *)
Definition pingLoopExit (retries : Z) (st : t) : t :=
  if (retries >=? kMaxRetries) && negb (udpAvailable_ st)
  then callback st false F32.zero
  else st.

(** [pingLoop] from a loop test on, with [retries] so far.  Each pass
    consumes one [Tick].  The result is the object so far and whether the
    function has returned: the loop may still be running when the
    observations end. *)
Fixpoint pingLoopFrom (ticks : list Tick) (retries : Z) (st : t) : bool * t :=
  match ticks with
  | [] =>
      if retries <? kMaxRetries then (false, st)
      else (true, pingLoopExit retries st)
  | tk :: rest =>
      if running tk && (retries <? kMaxRetries) then
        let st := sendPing st in
        let '(got, st) := receiveResponse st tk in
        if got then
          let st := set_udpAvailable st true in
          let st := callback st true (latencyMs_ st) in
          pingLoopFrom rest 0 st
        else pingLoopFrom rest (retries + 1) st
      else (true, pingLoopExit retries st)
  end.

Definition pingLoop (ticks : list Tick) (st : t) : bool * t :=
  pingLoopFrom ticks 0 st.

(** [stop()] once the thread has been joined. *)
Definition stop (st : t) : t :=
  mk (-1) false (udpAvailable_ st) (latencyMs_ st) (hasCallback_ st)
     (pingsSent_ st) (pongsReceived_ st) (trace_ st).

Definition isUdpAvailable (st : t) : bool := udpAvailable_ st.

End UdpPing.

(** ** [mumble/mumble_client.cpp]: the control-channel frame *)

Module Framing.

Definition u16 (x : Z) : Z := x mod 2 ^ 16.

(** The six header bytes [sendRawMessage] builds for a message type and a
    payload length ([size_t]). *)
Definition buildHeader (type length : Z) : list Z :=
  let typeVal := u16 type in
  [ Z.land (Z.shiftr typeVal 8) 255; Z.land typeVal 255;
    Z.land (Z.shiftr length 24) 255; Z.land (Z.shiftr length 16) 255;
    Z.land (Z.shiftr length 8) 255; Z.land length 255 ].

(** What [sendRawMessage] hands to [SSL_write] when both writes succeed. *)
Definition frame (type : Z) (data : list Z) : list Z :=
  buildHeader type (Z.of_nat (length data)) ++ data.

(** [type] and [length] as [receiveLoop] reads them off the header. *)
Definition parseHeader (header : list Z) : Z * Z :=
  (u16 (Z.lor (Z.shiftl (Buf.rd header 0) 8) (Buf.rd header 1)),
   Int.u32 (Z.lor (Z.lor (Z.lor (Z.shiftl (Buf.rd header 2) 24)
                                (Z.shiftl (Buf.rd header 3) 16))
                         (Z.shiftl (Buf.rd header 4) 8))
                  (Buf.rd header 5))).

(** The payload loop of [receiveLoop] while [running_] holds.  Each entry of
    [chunks] is the most the next [SSL_read] can deliver (0 or less: an
    error or the end of the stream); a read delivers that many bytes, capped
    by the request [length - totalRead] passed as an [int] and by what the
    stream holds.  The result is the payload, the rest of the stream and the
    unused reads; [None] when a read fails or the reads run out. *)
Fixpoint readPayload (chunks : list Z) (stream : list Z) (length : Z)
  (totalRead : Z) (payload : list Z) : option (list Z * list Z * list Z) :=
  if totalRead <? length then
    match chunks with
    | [] => None
    | c :: rest =>
        let request := Int.i32 (length - totalRead) in
        let n := Z.min c (Z.min request (Z.of_nat (List.length stream))) in
        if n <=? 0 then None
        else readPayload rest (drop (Z.to_nat n) stream) length (totalRead + n)
                         (payload ++ take (Z.to_nat n) stream)
    end
  else Some (payload, stream, chunks).

(** One pass of [receiveLoop]: the header in one read of six bytes, then the
    payload; the message handed to [handleMessage]. *)
Definition receiveOne (chunks : list Z) (stream : list Z)
  : option (Z * list Z * list Z * list Z) :=
  match chunks with
  | [] => None
  | c :: rest =>
      let bytesRead := Z.min c (Z.min 6 (Z.of_nat (List.length stream))) in
      if negb (bytesRead =? 6) then None else
      let '(type, length) := parseHeader (take 6 stream) in
      match readPayload rest (drop 6 stream) length 0 [] with
      | Some (payload, stream, chunks) => Some (type, payload, stream, chunks)
      | None => None
      end
  end.

End Framing.

(** ** [mumble/udp_ping.cpp]: the ping datagram *)

Module UdpPingWire.

(** The nine bytes [sendPing] hands to [sendto]: the type byte and the
    timestamp (microseconds, a signed 64-bit count), low byte first. *)
Definition pingPacket (timestamp : Z) : list Z :=
  32 :: map (fun i => Int.u8 (Z.shiftr timestamp (Z.of_nat i * 8))) (seq 0 8).

(** Bytes read as a little-endian number. *)
Fixpoint littleEndian (bytes : list Z) : Z :=
  match bytes with
  | [] => 0
  | b :: rest => b + 256 * littleEndian rest
  end.

(** The test [receiveResponse] applies to a datagram of [received] bytes. *)
Definition isPong (buffer : list Z) : bool :=
  (0 <? Z.of_nat (length buffer)) && (Buf.rd buffer 0 =? 32).

End UdpPingWire.

(** ** Runs of a [UserAudioBuffer] *)

Module AudioRun.

(** One call of [addSamples]: the samples, the sequence number, the PLC flag
    and the clock reading. *)
Record Packet := mkPacket {
  samples : list Z;
  sequence : Z;
  isPLC : bool;
  arrival : Z
}.

Definition feed (st : UserAudioBuffer.t) (packets : list Packet) : UserAudioBuffer.t :=
  fold_left (fun st p => UserAudioBuffer.addSamples st (samples p) (sequence p)
                           (isPLC p) (arrival p))
            packets st.

(** All samples handed over by a list of packets, in order. *)
Definition allSamples (packets : list Packet) : list Z :=
  concat (map samples packets).

(** Every cell of [output[0 .. frames)] holds a determinate value. *)
Definition written {A} (output : list (cell A)) (frames : nat) : Prop :=
  forall k : nat, (k < frames)%nat -> exists x : A, output !! k = Some (Some x).

(** The sequence tracking of a buffer: last sequence, increment, gap count. *)
Definition tracker (st : UserAudioBuffer.t) : Z * Z * Z :=
  (UserAudioBuffer.lastSequence_ st, UserAudioBuffer.sequenceIncrement_ st,
   UserAudioBuffer.sequenceGaps (UserAudioBuffer.stats_ st)).

(** One [addSamples] seen on the tracking alone. *)
Definition track (t : Z * Z * Z) (sequence : Z) : Z * Z * Z :=
  let '(last, inc, gaps) := t in
  if last <? 0 then (sequence, inc, gaps) else
  let expected := Int.i64 (last + inc) in
  let gap := Int.i64 (sequence - last) in
  (sequence,
   (if negb (sequence =? expected) && (gap >? 0) && (gap <? 100) then gap else inc),
   (if negb (sequence =? expected) && (gap >? inc) then Int.u32 (gaps + 1) else gaps)).

(** Is a list of floats non-decreasing? *)
Fixpoint nondecreasing (l : list F32.float) : bool :=
  match l with
  | x :: (y :: _) as rest => SFleb x y && nondecreasing rest
  | _ => true
  end.

(** The determinate values of a list of cells. *)
Definition values {A} (output : list (cell A)) : list A := omap id output.

(** The fade tables are as the constructor of [CrossfadeImpl] sizes them. *)
Definition tables_ok (c : Crossfade.t) : Prop :=
  0 <= Crossfade.fadeLength_ c < 2 ^ 31 /\
  length (Crossfade.fadeIn_ c) = Z.to_nat (Crossfade.fadeLength_ c) /\
  length (Crossfade.fadeOut_ c) = Z.to_nat (Crossfade.fadeLength_ c).

(** What holds of a buffer between two calls. *)
Definition invariant (st : UserAudioBuffer.t) : Prop :=
  0 <= UserAudioBuffer.bufferSize st <= UserAudioBuffer.maxBufferSize_ st /\
  0 <= UserAudioBuffer.bufferOverruns (UserAudioBuffer.stats_ st) < 2 ^ 32 /\
  tables_ok (UserAudioBuffer.crossfade_ st).

Section Run.

Variable sinf : F32.float -> F32.float.

(** The states a buffer can be in: built by the constructor with a frame
    size an [int] holds and [resize] accepts, then driven through the public
    interface. *)
Inductive reachable : UserAudioBuffer.t -> Prop :=
| reach_create userId config now :
    0 <= UserAudioBuffer.frameSize config < 2 ^ 31 ->
    reachable (UserAudioBuffer.create sinf userId config now)
| reach_addSamples st samples sequence isPLC now :
    reachable st ->
    reachable (UserAudioBuffer.addSamples st samples sequence isPLC now)
| reach_readFloat st output frames :
    reachable st ->
    reachable (snd (fst (UserAudioBuffer.readFloat st output frames)))
| reach_reset st :
    reachable st -> reachable (UserAudioBuffer.reset st)
| reach_notifyTalkingEnded st :
    reachable st -> reachable (UserAudioBuffer.notifyTalkingEnded st).

End Run.

End AudioRun.

(** ** Runs of a [JitterBuffer] *)

Module JitterRun.

(** One call of [put]. *)
Record Put := mkPut {
  data : list Z;
  sequence : Z;
  timestamp : Z;
  arrival : Z
}.

Definition feed (st : JitterBuffer.t) (puts : list Put) : JitterBuffer.t :=
  fold_left (fun st p => JitterBuffer.put st (data p) (sequence p) (timestamp p)
                           (arrival p))
            puts st.

(** [n] calls of [get] into the same caller buffer: the return value and the
    buffer after each call, and the object at the end; [None] when one of
    the calls does not return. *)
Fixpoint drain (n : nat) (st : JitterBuffer.t) (output : list Z) (frames : nat)
  (now : Z) : option (list (nat * list Z) * JitterBuffer.t) :=
  match n with
  | O => Some ([], st)
  | S n' =>
      match JitterBuffer.get st output frames now with
      | None => None
      | Some (ret, st, output) =>
          match drain n' st output frames now with
          | None => None
          | Some (rest, st) => Some ((ret, output) :: rest, st)
          end
      end
  end.

(** The states of a jitter buffer: built by the constructor, then driven
    by [put] with 32-bit sequence numbers, by the calls of [get] that
    return, and by [reset]. *)
Inductive reachable : JitterBuffer.t -> Prop :=
| reach_create config now : reachable (JitterBuffer.create config now)
| reach_put st data sequence timestamp now :
    0 <= sequence < 2 ^ 32 ->
    reachable st -> reachable (JitterBuffer.put st data sequence timestamp now)
| reach_get st output frames now ret st' output' :
    reachable st ->
    JitterBuffer.get st output frames now = Some (ret, st', output') ->
    reachable st'
| reach_reset st : reachable st -> reachable (JitterBuffer.reset st).

End JitterRun.

(** ** Traces of a [UdpPing] run *)

Module PingTrace.

(** The failure report: [callback_(false, 0.0f)]. *)
Definition isFailure (e : UdpPing.Event) : bool :=
  match e with
  | UdpPing.Callback false _ => true
  | _ => false
  end.

(** A ping was answered: the loop stores [true] in [udpAvailable_]. *)
Definition isSuccess (e : UdpPing.Event) : bool :=
  match e with
  | UdpPing.SetAvailable true => true
  | _ => false
  end.

Fixpoint failures (tr : list UdpPing.Event) : nat :=
  match tr with
  | [] => 0
  | e :: rest => (if isFailure e then 1 else 0) + failures rest
  end.

Definition succeeded (tr : list UdpPing.Event) : bool := existsb isSuccess tr.

End PingTrace.

(** ** The mixer's conversion as the specification words it *)

Module FloatMixerSpec.

(** [round(x)]: the nearest integer, halves away from zero. *)
Definition round (x : F32.float) : option Z :=
  match x with
  | S754_zero _ => Some 0
  | S754_finite s m e =>
      Some (cond_Zopp s (if 0 <=? e then Z.pos m * 2 ^ e
                         else (Z.pos m + 2 ^ (- e - 1)) / 2 ^ (- e)))
  | _ => None
  end.

(** "clamps each float to [-1, +1] and scales to int16 via round(x * 32767)" *)
Definition mixedSample (sample : F32.float) : option Z :=
  round (F32.mul (FloatMixer.clip sample) (F32.of_int 32767)).

End FloatMixerSpec.

(** ** Fixtures *)

Module CryptFixture.

(** A key and two nonces; the sender uses [nonceA] as its client nonce,
    the receiver uses it as its server nonce. *)
Definition key : list Z := [0; 1; 2; 3; 4; 5; 6; 7; 8; 9; 10; 11; 12; 13; 14; 15].
Definition nonceA : list Z := replicate 16 17.
Definition nonceB : list Z := replicate 16 34.

Definition sender : CryptState.t :=
  snd (CryptState.init AES128.AES_encrypt CryptState.CryptState key nonceA nonceB).
Definition receiver : CryptState.t :=
  snd (CryptState.init AES128.AES_encrypt CryptState.CryptState key nonceB nonceA).

(** The packet [encrypt] writes for [plain] into a zeroed buffer. *)
Definition seal (plain : list Z) : list Z :=
  CryptState.dst_after
    (CryptState.encrypt AES128.AES_encrypt sender plain
       (replicate (length plain + 4) 0)).

(** The plaintext with bytes [1, 2, 3, ...] of a given length. *)
Definition ramp (n : nat) : list Z :=
  map (fun i => Int.u8 (Z.of_nat i + 1)) (seq 0 n).

(** [decrypt] of the sealed [plain] into a zeroed buffer of the right size. *)
Definition open_zeroed (plain : list Z) : CryptState.outcome :=
  CryptState.decrypt AES128.AES_encrypt receiver (seal plain)
    (replicate (length plain) 0).

(** Does the receiver accept the sealed [plain] and hold [plain] in its
    output buffer afterwards? *)
Definition roundtrip (plain : list Z) : bool :=
  CryptState.ret (open_zeroed plain)
  && bool_decide (CryptState.dst_after (open_zeroed plain) = plain).

End CryptFixture.

Module AudioFixture.

(** A buffer with the default configuration. *)
Definition fresh : UserAudioBuffer.t :=
  UserAudioBuffer.create Libm.sinf 7 UserAudioBuffer.defaultConfig 0.

(** Frame number [k]: 480 samples of amplitude 1000, 10 ms after the
    previous one. *)
Definition frame (k : Z) : AudioRun.Packet :=
  AudioRun.mkPacket (replicate 480 1000) k false (k * 10000000).

Definition frames (n : nat) : list AudioRun.Packet :=
  map (fun k => frame (Z.of_nat k)) (seq 0 n).

(** Nothing has been stored in the caller's array yet. *)
Definition blank {A} (n : nat) : list (cell A) := replicate n None.

Definition half : F32.float := F32.div (F32.of_int 1) (F32.of_int 2).

End AudioFixture.

Module JitterFixture.

Definition fresh : JitterBuffer.t := JitterBuffer.create JitterBuffer.defaultConfig 0.

(** Packet [k]: 480 samples of value [k + 1], 10 ms apart. *)
Definition packet (k : Z) : JitterRun.Put :=
  JitterRun.mkPut (replicate 480 (k + 1)) k (k * 480) (k * 10000000).

End JitterFixture.

Module ConnectFixture.

Definition config : MumbleClient.Config :=
  MumbleClient.mkConfig "voice.example.org" 64738 "alice" "" "" "" false.

Definition configWithCert : MumbleClient.Config :=
  MumbleClient.mkConfig "voice.example.org" 64738 "alice" "" "client.pem"
                        "client.key" false.

(** Everything succeeds. *)
Definition fine : MumbleClient.World :=
  MumbleClient.mkWorld true true true true true true true true true true
                       true 5 true true.

(** The TCP connection is made and [SSL_connect] fails. *)
Definition handshakeRefused : MumbleClient.World :=
  MumbleClient.mkWorld true true true true true true true true true true
                       true 5 true false.

(** Neither the PEM files nor a PKCS#12 file can be read. *)
Definition noCertificate : MumbleClient.World :=
  MumbleClient.mkWorld true false false false false false false false false
                       false true 5 true true.

End ConnectFixture.

Module PingFixture.

(** Two unanswered pings, then an answer after 1.5 ms, then silence. *)
Definition ticks : list UdpPing.Tick :=
  [UdpPing.mkTick true false 0; UdpPing.mkTick true false 0;
   UdpPing.mkTick true true 1500; UdpPing.mkTick true false 0;
   UdpPing.mkTick true false 0; UdpPing.mkTick true false 0;
   UdpPing.mkTick true false 0].

Definition started : UdpPing.t := snd (UdpPing.start UdpPing.create 5 true true).

End PingFixture.

(** * Properties *)

(** ** [CryptState] *)


(** FIPS-197, appendix C.1. *)
Example AES128_fips197_C1 :
  AES128.AES_encrypt
    [0; 17; 34; 51; 68; 85; 102; 119; 136; 153; 170; 187; 204; 221; 238; 255]
    [0; 1; 2; 3; 4; 5; 6; 7; 8; 9; 10; 11; 12; 13; 14; 15]
  = [105; 196; 224; 216; 106; 123; 4; 48; 216; 205; 183; 128; 112; 180; 197; 90].
Proof. vm_compute. reflexivity. Qed.

Section CryptStateProps.

Variable AES_encrypt : list Z -> CryptState.AES_KEY -> list Z.

Local Abbreviation encrypt := (CryptState.encrypt AES_encrypt).
Local Abbreviation decrypt := (CryptState.decrypt AES_encrypt).
Local Abbreviation ocbEncrypt := (CryptState.ocbEncrypt AES_encrypt).
Local Abbreviation predicted := (CryptState.predicted).
Local Abbreviation expectedTag := (CryptState.expectedTag AES_encrypt).
Local Abbreviation tagMatches := (CryptState.tagMatches AES_encrypt).

Lemma init_counters key cn sn st :
  let st' := snd (CryptState.init AES_encrypt st key cn sn) in
  CryptState.encryptNonce_ st' = 0 /\ CryptState.decryptNonce_ st' = 0 /\
  CryptState.initialized_ st' = true /\ CryptState.needResync_ st' = false /\
  CryptState.L_ st' = AES_encrypt (replicate 16 0) (take 16 key).
Proof. cbv [CryptState.init CryptState.AES_set_encrypt_key]. simpl. auto. Qed.

(** A successful [encrypt] advances the send counter by one (modulo 2^32);
    an uninitialised object refuses and leaves it alone. *)
Lemma encrypt_counter st src dst :
  CryptState.encryptNonce_ (CryptState.state (encrypt st src dst)) =
  if CryptState.initialized_ st
  then Int.u32 (CryptState.encryptNonce_ st + 1)
  else CryptState.encryptNonce_ st.
Proof.
  unfold CryptState.encrypt.
  destruct (CryptState.initialized_ st); simpl; [|reflexivity].
  destruct (CryptState.ocbEncrypt _ _ _ _) as [encrypted tag]. reflexivity.
Qed.

(** [decrypt] never stores into [dst]. *)
Lemma decrypt_keeps_dst st src dst :
  CryptState.dst_after (decrypt st src dst) = dst.
Proof.
  unfold CryptState.decrypt.
  destruct (negb _ || _); [reflexivity|].
  destruct (CryptState.ocbEncrypt _ _ _ _) as [encrypted tag].
  destruct (_ || _); reflexivity.
Qed.

(** So the caller finds the plaintext in [dst] only if it was there before. *)
Lemma decrypt_never_recovers st src dst plain :
  dst <> plain -> CryptState.dst_after (decrypt st src dst) <> plain.
Proof. rewrite decrypt_keeps_dst. auto. Qed.

Lemma lxor_mask_neq (x m : Z) : m <> 0 -> Z.lxor x m <> x.
Proof.
  intros Hm H. apply Hm.
  assert (E : Z.lxor x (Z.lxor x m) = Z.lxor x x) by (rewrite H; reflexivity).
  rewrite <- Z.lxor_assoc, Z.lxor_nilpotent, Z.lxor_0_l in E. exact E.
Qed.

Lemma rd_insert_eq (l : list Z) (i : nat) (v : Z) :
  (i < length l)%nat -> Buf.rd (<[i := v]> l) i = v.
Proof.
  intros Hi. unfold Buf.rd. apply nth_lookup_Some with (d := 0).
  by apply list_lookup_insert_eq.
Qed.

Lemma rd_insert_ne (l : list Z) (i j : nat) (v : Z) :
  i <> j -> Buf.rd (<[i := v]> l) j = Buf.rd l j.
Proof.
  intros Hij. unfold Buf.rd.
  rewrite !nth_lookup, list_lookup_insert_ne by done. reflexivity.
Qed.

Lemma rd_memcpy_at_lt (off : nat) (bytes p : list Z) (j : nat) :
  (j < off)%nat -> (off <= length p)%nat ->
  Buf.rd (Buf.memcpy_at off bytes p) j = Buf.rd p j.
Proof.
  intros Hj Hoff. unfold Buf.rd, Buf.memcpy_at.
  rewrite !nth_lookup, lookup_app_l by (rewrite length_take; lia).
  rewrite lookup_take_lt by lia. reflexivity.
Qed.

Lemma decrypt_spec st src dst :
  CryptState.initialized_ st = true -> (4 <= length src)%nat ->
  let r := decrypt st src dst in
  CryptState.ret r = tagMatches st src dst /\
  CryptState.state r =
    (if tagMatches st src dst
     then CryptState.set_decryptNonce st (Int.u32 (predicted st src + 1))
     else CryptState.set_needResync st true).
Proof.
  intros Hinit Hlen. unfold CryptState.decrypt, CryptState.tagMatches, CryptState.expectedTag, CryptState.predicted.
  rewrite Hinit. simpl negb. simpl orb.
  destruct (length src <? 4)%nat eqn:Hlt; [apply Nat.ltb_lt in Hlt; lia|].
  destruct (CryptState.ocbEncrypt _ _ _ _) as [encrypted tag]. simpl snd.
  rewrite !rd_memcpy_at_lt by lia.
  destruct (Buf.rd tag 0 =? Buf.rd src 1);
    destruct (Buf.rd tag 1 =? Buf.rd src 2);
    destruct (Buf.rd tag 2 =? Buf.rd src 3); simpl; auto.
Qed.

Lemma decrypt_accepts_inv st src dst :
  CryptState.ret (decrypt st src dst) = true ->
  CryptState.initialized_ st = true /\ (4 <= length src)%nat.
Proof.
  unfold CryptState.decrypt.
  destruct (CryptState.initialized_ st); simpl; [|discriminate].
  destruct (length src <? 4)%nat eqn:Hlt; [discriminate|].
  apply Nat.ltb_ge in Hlt. auto.
Qed.

(** The expected tag does not depend on the three tag bytes of the packet. *)
Lemma expectedTag_insert st src dst (i : nat) (v : Z) :
  (1 <= i)%nat ->
  expectedTag st (<[i := v]> src) dst = expectedTag st src dst.
Proof.
  intros Hi. unfold CryptState.expectedTag, CryptState.predicted.
  rewrite length_insert, rd_insert_ne by lia. reflexivity.
Qed.

End CryptStateProps.

(** The comparison of the tag bytes.  When [decrypt] accepts a packet for
    some contents of [dst], it refuses, for the same [dst], the packet with
    one of the three tag bytes (packet bytes 1..3) xor-ed with a non-zero
    mask: it returns [false], sets [needResync_] and leaves [decryptNonce_]
    as it was. *)
Theorem decrypt_tag_flip
  (AES_encrypt : list Z -> CryptState.AES_KEY -> list Z)
  (st : CryptState.t) (src dst : list Z) (i : nat) (mask : Z) :
  CryptState.ret (CryptState.decrypt AES_encrypt st src dst) = true ->
  (1 <= i <= 3)%nat -> 0 < mask < 256 ->
  let r := CryptState.decrypt AES_encrypt st (CryptState.flipByte src i mask) dst in
  CryptState.ret r = false /\
  CryptState.needResync_ (CryptState.state r) = true /\
  CryptState.decryptNonce_ (CryptState.state r) = CryptState.decryptNonce_ st.
Proof.
  intros Hacc Hi Hmask.
  destruct (decrypt_accepts_inv _ _ _ _ Hacc) as [Hinit Hlen].
  destruct (decrypt_spec AES_encrypt st src dst Hinit Hlen) as [Hret _].
  rewrite Hacc in Hret. symmetry in Hret.
  unfold CryptState.tagMatches in Hret.
  apply andb_true_iff in Hret as [Hret H3].
  apply andb_true_iff in Hret as [H1 H2].
  apply Z.eqb_eq in H1, H2, H3.
  assert (Hlen' : (4 <= length (CryptState.flipByte src i mask))%nat)
    by (unfold CryptState.flipByte; rewrite length_insert; exact Hlen).
  destruct (decrypt_spec AES_encrypt st _ dst Hinit Hlen') as [Hret' Hst'].
  assert (Hno : CryptState.tagMatches AES_encrypt st
                  (CryptState.flipByte src i mask) dst = false).
  { unfold CryptState.tagMatches, CryptState.flipByte.
    rewrite expectedTag_insert by lia.
    assert (Hne : Z.lxor (Buf.rd src i) mask <> Buf.rd src i)
      by (apply lxor_mask_neq; lia).
    assert (Hi' : i = 1%nat \/ i = 2%nat \/ i = 3%nat) by lia.
    destruct Hi' as [-> | [-> | ->]].
    - rewrite rd_insert_eq by lia. rewrite H1.
      destruct (Z.eqb_spec (Buf.rd src 1) (Z.lxor (Buf.rd src 1) mask)) as [E|_];
        [congruence | reflexivity].
    - rewrite (rd_insert_eq _ 2) by lia. rewrite H2.
      destruct (Z.eqb_spec (Buf.rd src 2) (Z.lxor (Buf.rd src 2) mask)) as [E|_];
        [congruence | apply andb_false_intro1, andb_false_intro2; reflexivity].
    - rewrite (rd_insert_eq _ 3) by lia. rewrite H3.
      destruct (Z.eqb_spec (Buf.rd src 3) (Z.lxor (Buf.rd src 3) mask)) as [E|_];
        [congruence | apply andb_false_intro2; reflexivity]. }
  cbv zeta. rewrite Hret', Hst', Hno. auto.
Qed.

(** The sender seals the empty payload, the receiver accepts the packet;
    with its first tag byte flipped the receiver rejects it. *)
Lemma decrypt_tag_flip_witness :
  CryptState.ret (CryptState.decrypt AES128.AES_encrypt CryptFixture.receiver
                    (CryptFixture.seal []) []) = true /\
  let r := CryptState.decrypt AES128.AES_encrypt CryptFixture.receiver
             (CryptState.flipByte (CryptFixture.seal []) 1 1) [] in
  CryptState.ret r = false /\
  CryptState.needResync_ (CryptState.state r) = true /\
  CryptState.decryptNonce_ (CryptState.state r) =
    CryptState.decryptNonce_ CryptFixture.receiver.
Proof.
  split.
  - vm_compute. reflexivity.
  - apply (decrypt_tag_flip AES128.AES_encrypt CryptFixture.receiver
             (CryptFixture.seal []) [] 1 1).
    + vm_compute. reflexivity.
    + lia.
    + lia.
Defined.

(** C2.  The tag flip on the code.  The sender seals the two-byte payload
    [[161; 195]] into the packet [[1; 101; 175; 190; 124; 142]].  [decrypt]
    takes the tag over the caller's [dst], not over the packet: with a
    zeroed [dst] the receiver refuses the genuine packet, and it accepts the
    packet whose third tag byte is xor-ed with 250: it returns [true], asks
    for no resync and advances [decryptNonce_] from 0 to 2; [dst] stays
    zeroed and the payload bytes of the packet are overwritten. *)
Theorem tag_flip_on_code :
  let packet := CryptFixture.seal [161; 195] in
  let forged := CryptState.flipByte packet 3 250 in
  let genuine := CryptState.decrypt AES128.AES_encrypt CryptFixture.receiver
                   packet [0; 0] in
  let r := CryptState.decrypt AES128.AES_encrypt CryptFixture.receiver
             forged [0; 0] in
  packet = [1; 101; 175; 190; 124; 142] /\
  forged = [1; 101; 175; 68; 124; 142] /\
  CryptState.decryptNonce_ CryptFixture.receiver = 0 /\
  CryptState.ret genuine = false /\
  CryptState.needResync_ (CryptState.state genuine) = true /\
  CryptState.ret r = true /\
  CryptState.needResync_ (CryptState.state r) = false /\
  CryptState.decryptNonce_ (CryptState.state r) = 2 /\
  CryptState.dst_after r = [0; 0] /\
  CryptState.src_after r = [1; 101; 175; 68; 221; 77].
Proof. vm_compute. repeat split. Qed.

(** C1. The round trip on the code.  The sender seals the one-byte payload
    [[1]]; the receiver's [decrypt], given a zeroed output buffer, returns
    [false], asks for a resync and leaves the buffer zeroed.  Of the payload
    lengths 0, 1, 15, 16, 17, 31, 100 and 960 only the empty one comes back. *)
Theorem roundtrip_on_code :
  CryptFixture.seal [1] = [1; 195; 198; 192; 220] /\
  (let r := CryptFixture.open_zeroed [1] in
   CryptState.ret r = false /\
   CryptState.dst_after r = [0] /\
   CryptState.needResync_ (CryptState.state r) = true /\
   CryptState.decryptNonce_ (CryptState.state r) = 0) /\
  map (fun n => CryptFixture.roundtrip (CryptFixture.ramp n))
      [0; 1; 15; 16; 17; 31; 100; 960]%nat
  = [true; false; false; false; false; false; false; false].
Proof. vm_compute. repeat split. Qed.



(** ** [FloatMixer] *)

Section FloatMixerProps.

Lemma size_t_of_int_id (z : Z) : 0 <= z < 2 ^ 31 -> Int.size_t_of_int z = z.
Proof. intros H. unfold Int.size_t_of_int, Int.u64. apply Z.mod_small. lia. Qed.

Lemma rdf_lookup (l : list F32.float) (i : nat) (x : F32.float) :
  l !! i = Some x -> FloatMixer.rdf l i = x.
Proof. intros H. unfold FloatMixer.rdf. by apply nth_lookup_Some. Qed.

Lemma rdf_insert_ne (l : list F32.float) (i j : nat) (x : F32.float) :
  i <> j -> FloatMixer.rdf (<[i := x]> l) j = FloatMixer.rdf l j.
Proof.
  intros Hij. unfold FloatMixer.rdf.
  rewrite !nth_lookup, list_lookup_insert_ne by done. reflexivity.
Qed.

Lemma addLoop_length n i samples mix :
  length (FloatMixer.addLoop n i samples mix) = length mix.
Proof.
  revert i mix. induction n as [|n IH]; intros i mix; simpl; [reflexivity|].
  rewrite IH, length_insert. reflexivity.
Qed.

(** The summing loop touches exactly the cells [i .. i + n - 1]. *)
Lemma addLoop_lookup n i samples mix (k : nat) :
  (k < length mix)%nat ->
  FloatMixer.rdf (FloatMixer.addLoop n i samples mix) k =
  if bool_decide (i <= k < i + n)%nat
  then F32.add (FloatMixer.rdf mix k) (FloatMixer.rdf samples k)
  else FloatMixer.rdf mix k.
Proof.
  revert i mix. induction n as [|n IH]; intros i mix Hk; simpl.
  - rewrite bool_decide_eq_false_2 by lia. reflexivity.
  - rewrite IH by (rewrite length_insert; exact Hk).
    destruct (decide (k = i)) as [->|Hne].
    + rewrite bool_decide_eq_false_2 by lia.
      rewrite bool_decide_eq_true_2 by lia.
      apply rdf_lookup. by apply list_lookup_insert_eq.
    + rewrite rdf_insert_ne by done.
      destruct (decide (i <= k < i + S n)%nat) as [H|H].
      * rewrite !bool_decide_eq_true_2 by lia. reflexivity.
      * rewrite !bool_decide_eq_false_2 by lia. reflexivity.
Qed.

Lemma getMixedLoop_length n i mix (output : list (cell Z)) :
  length (FloatMixer.getMixedLoop n i mix output) = length output.
Proof.
  revert i output. induction n as [|n IH]; intros i output; simpl; [reflexivity|].
  rewrite IH, length_insert. reflexivity.
Qed.

(** The conversion loop stores [mixedSample] in the cells [i .. i + n - 1]
    and leaves the others alone. *)
Lemma getMixedLoop_lookup n i mix (output : list (cell Z)) (k : nat) :
  (k < length output)%nat ->
  FloatMixer.getMixedLoop n i mix output !! k =
  if bool_decide (i <= k < i + n)%nat
  then Some (FloatMixer.mixedSample (FloatMixer.rdf mix k))
  else output !! k.
Proof.
  revert i output. induction n as [|n IH]; intros i output Hk; simpl.
  - rewrite bool_decide_eq_false_2 by lia. reflexivity.
  - rewrite IH by (rewrite length_insert; exact Hk).
    destruct (decide (k = i)) as [->|Hne].
    + rewrite bool_decide_eq_false_2 by lia.
      rewrite bool_decide_eq_true_2 by lia.
      by apply list_lookup_insert_eq.
    + rewrite list_lookup_insert_ne by done.
      destruct (decide (i <= k < i + S n)%nat) as [H|H].
      * rewrite !bool_decide_eq_true_2 by lia. reflexivity.
      * rewrite !bool_decide_eq_false_2 by lia. reflexivity.
Qed.

(** After the two tests the sample is neither above [+1] nor below [-1]. *)
Lemma clip_range (x : F32.float) :
  F32.ltb F32.one (FloatMixer.clip x) = false /\
  F32.ltb (FloatMixer.clip x) (SFopp F32.one) = false.
Proof.
  unfold FloatMixer.clip.
  destruct (F32.ltb F32.one x) eqn:Hhi.
  - split; reflexivity.
  - destruct (F32.ltb x (SFopp F32.one)) eqn:Hlo.
    + split; reflexivity.
    + split; assumption.
Qed.

Lemma getMixed_lookup (m : FloatMixer.t) (output : list (cell Z)) (frames i : nat) :
  FloatMixer.wf m -> (i < frames)%nat -> Z.of_nat i < FloatMixer.frameSize_ m ->
  (i < length output)%nat ->
  FloatMixer.getMixed m output frames !! i =
  Some (FloatMixer.mixedSample (FloatMixer.rdf (FloatMixer.mixBuffer_ m) i)).
Proof.
  intros [Hfs Hlen] Hi HiF Ho. unfold FloatMixer.getMixed.
  rewrite size_t_of_int_id by exact Hfs.
  rewrite getMixedLoop_lookup by exact Ho.
  rewrite bool_decide_eq_true_2 by lia. reflexivity.
Qed.

Lemma clear_wf m : FloatMixer.wf m -> FloatMixer.wf (FloatMixer.clear m).
Proof. intros [H1 H2]. split; simpl; [exact H1|]. by rewrite length_replicate. Qed.

Lemma add_wf m samples frames :
  FloatMixer.wf m -> FloatMixer.wf (FloatMixer.add m samples frames).
Proof. intros [H1 H2]. split; simpl; [exact H1|]. by rewrite addLoop_length. Qed.

Lemma create_wf frameSize :
  0 <= frameSize < 2 ^ 31 -> FloatMixer.wf (FloatMixer.create frameSize).
Proof. intros H. split; simpl; [exact H|]. by rewrite length_replicate. Qed.

Lemma add_lookup (m : FloatMixer.t) samples (frames i : nat) :
  FloatMixer.wf m -> (i < frames)%nat -> Z.of_nat i < FloatMixer.frameSize_ m ->
  FloatMixer.rdf (FloatMixer.mixBuffer_ (FloatMixer.add m samples frames)) i =
  F32.add (FloatMixer.rdf (FloatMixer.mixBuffer_ m) i) (FloatMixer.rdf samples i).
Proof.
  intros [Hfs Hlen] Hi HiF. unfold FloatMixer.add. simpl.
  rewrite size_t_of_int_id by exact Hfs.
  rewrite addLoop_lookup by lia.
  rewrite bool_decide_eq_true_2 by lia. reflexivity.
Qed.

Lemma rdf_replicate (n i : nat) (x : F32.float) :
  (i < n)%nat -> FloatMixer.rdf (replicate n x) i = x.
Proof. intros H. apply rdf_lookup. by apply lookup_replicate_2. Qed.

End FloatMixerProps.

(** C6 (as amended).  [getMixed] stores in every position below
    [min(frames, frameSize)] the accumulated float clamped to [-1, +1],
    multiplied by 32767 and truncated toward zero by the cast to [int16_t];
    after [clear] and two [add] calls with buffers equal to +1.0 everywhere
    every such position holds 32767. *)
Theorem getMixed_clips_and_truncates
  (m : FloatMixer.t) (output : list (cell Z)) (frames i : nat) :
  FloatMixer.wf m -> (i < frames)%nat -> Z.of_nat i < FloatMixer.frameSize_ m ->
  (i < length output)%nat ->
  (let x := FloatMixer.rdf (FloatMixer.mixBuffer_ m) i in
   FloatMixer.getMixed m output frames !! i =
     Some (F32.to_int16 (F32.mul (FloatMixer.clip x) (F32.of_int 32767))) /\
   F32.ltb F32.one (FloatMixer.clip x) = false /\
   F32.ltb (FloatMixer.clip x) (SFopp F32.one) = false) /\
  (let ones := replicate (Z.to_nat (FloatMixer.frameSize_ m)) F32.one in
   let m2 := FloatMixer.add (FloatMixer.add (FloatMixer.clear m) ones (length ones))
                            ones (length ones) in
   FloatMixer.getMixed m2 output frames !! i = Some (Some 32767)).
Proof.
  intros Hwf Hi HiF Ho. split.
  - cbv zeta. split; [|apply clip_range].
    rewrite getMixed_lookup by assumption. reflexivity.
  - cbv zeta. rewrite length_replicate.
    set (n := Z.to_nat (FloatMixer.frameSize_ m)).
    assert (Hin : (i < n)%nat) by (unfold n; lia).
    assert (Hc := clear_wf m Hwf).
    assert (Ha := add_wf _ (replicate n F32.one) n Hc).
    rewrite getMixed_lookup; [|by apply add_wf|exact Hi|exact HiF|exact Ho].
    rewrite add_lookup by (assumption || exact Hin).
    rewrite add_lookup by (assumption || exact Hin).
    rewrite !rdf_replicate by exact Hin.
    simpl FloatMixer.mixBuffer_. rewrite rdf_replicate by (destruct Hwf; lia).
    vm_compute. reflexivity.
Qed.

Lemma getMixed_clips_and_truncates_witness :
  let m := FloatMixer.add (FloatMixer.create 480) (replicate 480 AudioFixture.half) 480 in
  FloatMixer.getMixed m (AudioFixture.blank 480) 480 !! 0%nat = Some (Some 16383) /\
  FloatMixer.getMixed
    (FloatMixer.add (FloatMixer.add (FloatMixer.clear m) (replicate 480 F32.one) 480)
                    (replicate 480 F32.one) 480)
    (AudioFixture.blank 480) 480 !! 0%nat = Some (Some 32767).
Proof.
  intros m.
  assert (Hwf : FloatMixer.wf m).
  { apply add_wf, create_wf. lia. }
  destruct (getMixed_clips_and_truncates m (AudioFixture.blank 480) 480 0 Hwf)
    as [[H1 _] H2].
  - lia.
  - simpl. lia.
  - simpl. lia.
  - split.
    + rewrite H1. vm_compute. reflexivity.
    + exact H2.
Defined.

(** C6, as stated, fails: with 0.5 accumulated everywhere [getMixed] stores
    16383, whereas rounding 0.5 * 32767 = 16383.5 gives 16384. *)
Lemma getMixed_does_not_round :
  let m := FloatMixer.add (FloatMixer.clear (FloatMixer.create 480))
                          (replicate 480 AudioFixture.half) 480 in
  FloatMixer.getMixed m (AudioFixture.blank 480) 480 = replicate 480 (Some 16383) /\
  map FloatMixerSpec.mixedSample (FloatMixer.mixBuffer_ m) = replicate 480 (Some 16384).
Proof. vm_compute. split; reflexivity. Qed.

(** ** [UserAudioBuffer] *)

Section UserAudioBufferProps.

Import UserAudioBuffer.

Lemma convertLoop_app (input : list Z) (buffer : list F32.float) :
  convertLoop input buffer = buffer ++ map toFloat input.
Proof.
  revert buffer. induction input as [|s rest IH]; intros buffer; simpl.
  - by rewrite app_nil_r.
  - rewrite IH, <- app_assoc. reflexivity.
Qed.

Lemma u32_add_l (a b : Z) : Int.u32 (Int.u32 a + b) = Int.u32 (a + b).
Proof. unfold Int.u32. apply Zplus_mod_idemp_l. Qed.

Lemma u32_range (a : Z) : 0 <= Int.u32 a < 2 ^ 32.
Proof. unfold Int.u32. apply Z.mod_pos_bound. lia. Qed.

(** The eviction loop drops the oldest samples down to the bound and counts
    each of them. *)
Lemma evict_spec (maxBufferSize : Z) (buffer : list F32.float) (overruns : Z) :
  0 <= maxBufferSize ->
  let excess := Z.of_nat (length buffer) - maxBufferSize in
  evict maxBufferSize buffer overruns =
  (drop (Z.to_nat excess) buffer,
   if excess <=? 0 then overruns else Int.u32 (overruns + excess)).
Proof.
  intros Hmax. revert overruns.
  induction buffer as [|x rest IH]; intros overruns; cbv zeta.
  - cbn [evict length]. rewrite drop_nil.
    destruct (Z.leb_spec (Z.of_nat 0 - maxBufferSize) 0); [reflexivity | lia].
  - cbn [evict]. destruct (Z.of_nat (length (x :: rest)) >? maxBufferSize) eqn:E.
    + apply Z.gtb_lt in E. rewrite IH. cbn [length] in *.
      destruct (Z.of_nat (S (length rest)) - maxBufferSize <=? 0) eqn:E1;
        [apply Z.leb_le in E1; lia|].
      replace (Z.to_nat (Z.of_nat (S (length rest)) - maxBufferSize))
        with (S (Z.to_nat (Z.of_nat (length rest) - maxBufferSize))) by lia.
      cbn [drop]. f_equal.
      destruct (Z.of_nat (length rest) - maxBufferSize <=? 0) eqn:E2.
      * apply Z.leb_le in E2. f_equal. lia.
      * rewrite u32_add_l. f_equal. lia.
    + assert (E' : Z.of_nat (length (x :: rest)) <= maxBufferSize).
      { destruct (Z.gtb_spec (Z.of_nat (length (x :: rest))) maxBufferSize); [discriminate | lia]. }
      destruct (Z.of_nat (length (x :: rest)) - maxBufferSize <=? 0) eqn:E1;
        [|apply Z.leb_gt in E1; lia].
      replace (Z.to_nat (Z.of_nat (length (x :: rest)) - maxBufferSize)) with 0%nat by lia.
      reflexivity.
Qed.

(** [detectSequenceGap] only touches the gap counter and the increment. *)
Lemma detectSequenceGap_frame st sequence :
  let st' := detectSequenceGap st sequence in
  buffer_ st' = buffer_ st /\ crossfade_ st' = crossfade_ st /\
  minBufferSize_ st' = minBufferSize_ st /\ maxBufferSize_ st' = maxBufferSize_ st /\
  playbackStarted_ st' = playbackStarted_ st /\ needsFadeIn_ st' = needsFadeIn_ st /\
  needsFadeOut_ st' = needsFadeOut_ st /\ lastSequence_ st' = lastSequence_ st /\
  bufferOverruns (stats_ st') = bufferOverruns (stats_ st) /\
  fadeIns (stats_ st') = fadeIns (stats_ st) /\
  config_ st' = config_ st.
Proof.
  unfold detectSequenceGap.
  repeat match goal with
         | |- context [if ?c then _ else _] => destruct c
         end; cbn; repeat split; reflexivity.
Qed.

(** The members and counters [addSamples] leaves alone. *)
Lemma addSamples_frame st samples sequence isPLC now :
  let st' := addSamples st samples sequence isPLC now in
  crossfade_ st' = crossfade_ st /\
  minBufferSize_ st' = minBufferSize_ st /\ maxBufferSize_ st' = maxBufferSize_ st /\
  playbackStarted_ st' = playbackStarted_ st /\ needsFadeIn_ st' = needsFadeIn_ st /\
  needsFadeOut_ st' = needsFadeOut_ st /\
  fadeIns (stats_ st') = fadeIns (stats_ st) /\
  config_ st' = config_ st /\
  lastSequence_ st' = sequence.
Proof.
  unfold addSamples, convertToFloat.
  destruct (evict _ _ _) as [buffer overruns] eqn:Hev. cbn.
  repeat match goal with
         | |- context [if ?c then _ else _] => destruct c
         end; cbn;
    repeat match goal with
           | |- context [detectSequenceGap ?s ?q] =>
               let H := fresh "H" in
               pose proof (detectSequenceGap_frame s q) as H; cbv zeta in H;
               generalize dependent (detectSequenceGap s q); intros
           end; cbn in *; intuition congruence.
Qed.

Lemma addSamples_evict st samples sequence isPLC now :
  let st' := addSamples st samples sequence isPLC now in
  let r := evict (maxBufferSize_ st) (buffer_ st ++ map toFloat samples)
                 (bufferOverruns (stats_ st)) in
  buffer_ st' = fst r /\ bufferOverruns (stats_ st') = snd r.
Proof.
  unfold addSamples, convertToFloat.
  repeat match goal with
         | |- context [if ?c then _ else _] => destruct c
         end; cbn;
    match goal with
    | |- context [detectSequenceGap ?s ?q] =>
        let H := fresh "H" in
        pose proof (detectSequenceGap_frame s q) as H; cbv zeta in H;
        generalize dependent (detectSequenceGap s q); intros st5 H;
        destruct H as (Hb & _ & _ & Hm & _ & _ & _ & _ & Ho & _)
    end; cbn in *; rewrite Hb, Hm, Ho, convertLoop_app;
    destruct (evict _ _ _); cbn; split; reflexivity.
Qed.

(** The ring after [addSamples]: the converted samples are appended and the
    oldest samples beyond the bound are dropped, each counted as an overrun. *)
Lemma addSamples_buffer st samples sequence isPLC now :
  0 <= maxBufferSize_ st ->
  let st' := addSamples st samples sequence isPLC now in
  let all := buffer_ st ++ map toFloat samples in
  let excess := Z.of_nat (length all) - maxBufferSize_ st in
  buffer_ st' = drop (Z.to_nat excess) all /\
  bufferOverruns (stats_ st') =
    (if excess <=? 0 then bufferOverruns (stats_ st)
     else Int.u32 (bufferOverruns (stats_ st) + excess)).
Proof.
  intros Hmax. cbv zeta.
  destruct (addSamples_evict st samples sequence isPLC now) as [-> ->].
  rewrite evict_spec by exact Hmax. split; reflexivity.
Qed.

(** *** The loops of [readFloat] *)

Lemma fillZero_length from to (output : list (cell F32.float)) :
  (from <= to <= length output)%nat -> length (fillZero from to output) = length output.
Proof.
  intros H. unfold fillZero, Buf.memcpy_at.
  rewrite !length_app, length_take, length_drop, !length_replicate.
  lia.
Qed.

Lemma fillZero_lookup from to (output : list (cell F32.float)) (k : nat) :
  (from <= to <= length output)%nat ->
  fillZero from to output !! k =
  if bool_decide (from <= k < to)%nat then Some (Some F32.zero) else output !! k.
Proof.
  intros H. unfold fillZero, Buf.memcpy_at. rewrite length_replicate.
  destruct (decide (k < from)%nat) as [Hlt|Hge].
  - rewrite bool_decide_eq_false_2 by lia.
    rewrite lookup_app_l by (rewrite length_take; lia).
    by rewrite lookup_take_lt.
  - rewrite lookup_app_r by (rewrite length_take; lia).
    rewrite length_take, Nat.min_l by lia.
    destruct (decide (k < to)%nat) as [Hlt|Hge'].
    + rewrite bool_decide_eq_true_2 by lia.
      rewrite lookup_app_l by (rewrite length_replicate; lia).
      apply lookup_replicate_2. lia.
    + rewrite bool_decide_eq_false_2 by lia.
      rewrite lookup_app_r by (rewrite length_replicate; lia).
      rewrite length_replicate, lookup_drop. f_equal. lia.
Qed.

Lemma readLoop_fst n i buffer (output : list (cell F32.float)) :
  fst (readLoop n i buffer output) = drop n buffer.
Proof.
  revert i buffer output. induction n as [|n IH]; intros i buffer output.
  - reflexivity.
  - destruct buffer as [|front rest]; [reflexivity|]. cbn [readLoop drop]. apply IH.
Qed.

Lemma readLoop_length n i buffer (output : list (cell F32.float)) :
  length (snd (readLoop n i buffer output)) = length output.
Proof.
  revert i buffer output. induction n as [|n IH]; intros i buffer output.
  - reflexivity.
  - destruct buffer as [|front rest]; [reflexivity|]. cbn [readLoop].
    rewrite IH, length_insert. reflexivity.
Qed.

(** The copy loop stores the front sample [k - i] in cell [k]. *)
Lemma readLoop_lookup n i buffer (output : list (cell F32.float)) (k : nat) :
  (n <= length buffer)%nat -> (k < length output)%nat ->
  snd (readLoop n i buffer output) !! k =
  if bool_decide (i <= k < i + n)%nat then Some (buffer !! (k - i)%nat)
  else output !! k.
Proof.
  revert i buffer output. induction n as [|n IH]; intros i buffer output Hn Hk.
  - cbn [readLoop snd]. rewrite bool_decide_eq_false_2 by lia. reflexivity.
  - destruct buffer as [|front rest]; [simpl in Hn; lia|]. cbn [readLoop].
    rewrite IH by (simpl in Hn; rewrite ?length_insert; lia).
    destruct (decide (k = i)) as [->|Hne].
    + rewrite bool_decide_eq_false_2 by lia.
      rewrite bool_decide_eq_true_2 by lia.
      rewrite Nat.sub_diag. cbn [lookup list_lookup].
      by apply list_lookup_insert_eq.
    + rewrite list_lookup_insert_ne by done.
      destruct (decide (i <= k < i + S n)%nat) as [H|H].
      * rewrite !bool_decide_eq_true_2 by lia.
        replace (k - i)%nat with (S (k - S i)) by lia. reflexivity.
      * rewrite !bool_decide_eq_false_2 by lia. reflexivity.
Qed.

Lemma scale_length table j k (samples : list (cell F32.float)) :
  length (Crossfade.scale table j k samples) = length samples.
Proof. unfold Crossfade.scale. apply length_insert. Qed.

Lemma fadeLoop_length n i table tOff sOff (samples : list (cell F32.float)) :
  length (Crossfade.fadeLoop n i table tOff sOff samples) = length samples.
Proof.
  revert i samples. induction n as [|n IH]; intros i samples; cbn [Crossfade.fadeLoop].
  - reflexivity.
  - rewrite IH. apply scale_length.
Qed.

(** The fade loop multiplies the cells [sOff + i .. sOff + i + n - 1] by the
    table entries from [tOff + i] on and leaves the others alone. *)
Lemma fadeLoop_lookup n i table tOff sOff (samples : list (cell F32.float)) (k : nat) :
  (k < length samples)%nat ->
  Crossfade.fadeLoop n i table tOff sOff samples !! k =
  if bool_decide (sOff + i <= k < sOff + i + n)%nat
  then Some (match samples !! k, table !! (tOff + (k - sOff))%nat with
             | Some (Some x), Some f => Some (F32.mul x f)
             | _, _ => None
             end)
  else samples !! k.
Proof.
  revert i samples. induction n as [|n IH]; intros i samples Hk;
    cbn [Crossfade.fadeLoop].
  - rewrite bool_decide_eq_false_2 by lia. reflexivity.
  - rewrite IH by (rewrite scale_length; exact Hk). unfold Crossfade.scale.
    destruct (decide (k = sOff + i)%nat) as [->|Hne].
    + rewrite bool_decide_eq_false_2 by lia.
      rewrite bool_decide_eq_true_2 by lia.
      rewrite list_lookup_insert_eq by exact Hk.
      replace (tOff + (sOff + i - sOff))%nat with (tOff + i)%nat by lia.
      reflexivity.
    + rewrite list_lookup_insert_ne by done.
      destruct (decide (sOff + i <= k < sOff + i + S n)%nat) as [H|H].
      * rewrite !bool_decide_eq_true_2 by lia. reflexivity.
      * rewrite !bool_decide_eq_false_2 by lia. reflexivity.
Qed.

(** A fade over determinate cells, within its table, leaves every cell of
    the region determinate. *)
Lemma fadeLoop_written n table tOff sOff (samples : list (cell F32.float)) frames :
  (frames <= length samples)%nat -> (tOff + n <= length table)%nat ->
  AudioRun.written samples frames ->
  AudioRun.written (Crossfade.fadeLoop n 0 table tOff sOff samples) frames.
Proof.
  intros Hlen Htab Hw k Hk. rewrite fadeLoop_lookup by lia.
  destruct (Hw k Hk) as [x Hx].
  destruct (decide (sOff + 0 <= k < sOff + 0 + n)%nat) as [H|H].
  - rewrite bool_decide_eq_true_2 by exact H. rewrite Hx.
    destruct (lookup_lt_is_Some_2 table (tOff + (k - sOff))%nat) as [f Hf]; [lia|].
    rewrite Hf. eauto.
  - rewrite bool_decide_eq_false_2 by exact H. eauto.
Qed.

(** *** [readFloat] *)

Lemma applyFrames_le (c : Crossfade.t) (frames : nat) :
  AudioRun.tables_ok c ->
  (Crossfade.applyFrames c frames <= frames)%nat /\
  (Crossfade.applyFrames c frames <= Z.to_nat (Crossfade.fadeLength_ c))%nat.
Proof.
  intros [Hf _]. unfold Crossfade.applyFrames.
  rewrite size_t_of_int_id by exact Hf. lia.
Qed.

Lemma applyFadeIn_written c (samples : list (cell F32.float)) n frames :
  AudioRun.tables_ok c -> (frames <= length samples)%nat ->
  AudioRun.written samples frames ->
  AudioRun.written (Crossfade.applyFadeIn c samples n) frames.
Proof.
  intros Hc Hlen Hw. unfold Crossfade.applyFadeIn.
  apply fadeLoop_written; [exact Hlen| |exact Hw].
  destruct (applyFrames_le c n Hc) as [_ H]. destruct Hc as (_ & -> & _). lia.
Qed.

Lemma applyFadeOut_written c (samples : list (cell F32.float)) n frames :
  AudioRun.tables_ok c -> (frames <= length samples)%nat ->
  AudioRun.written samples frames ->
  AudioRun.written (Crossfade.applyFadeOut c samples n) frames.
Proof.
  intros Hc Hlen Hw. unfold Crossfade.applyFadeOut.
  apply fadeLoop_written; [exact Hlen| |exact Hw].
  destruct (applyFrames_le c n Hc) as [_ H]. destruct Hc as (_ & _ & ->). lia.
Qed.

Lemma applyFadeIn_length c (samples : list (cell F32.float)) n :
  length (Crossfade.applyFadeIn c samples n) = length samples.
Proof. apply fadeLoop_length. Qed.

Lemma applyFadeOut_length c (samples : list (cell F32.float)) n :
  length (Crossfade.applyFadeOut c samples n) = length samples.
Proof. apply fadeLoop_length. Qed.

Lemma fillZero_all_written (output : list (cell F32.float)) frames :
  (frames <= length output)%nat ->
  AudioRun.written (fillZero 0 frames output) frames.
Proof.
  intros Hlen k Hk. rewrite fillZero_lookup by lia.
  rewrite bool_decide_eq_true_2 by lia. eauto.
Qed.

(** The output of the copy loop followed by the zero padding. *)
Lemma read_and_pad_written buffer (output : list (cell F32.float)) frames :
  (frames <= length output)%nat ->
  let readFrames := Nat.min frames (length buffer) in
  let output1 := snd (readLoop readFrames 0 buffer output) in
  let output2 := if (readFrames <? frames)%nat
                 then fillZero readFrames frames output1 else output1 in
  length output2 = length output /\ AudioRun.written output2 frames.
Proof.
  intros Hlen readFrames output1 output2.
  assert (Hl1 : length output1 = length output) by apply readLoop_length.
  assert (Hw1 : AudioRun.written output1 readFrames).
  { intros k Hk. unfold output1.
    rewrite readLoop_lookup by (unfold readFrames in *; lia).
    rewrite bool_decide_eq_true_2 by lia.
    destruct (lookup_lt_is_Some_2 buffer (k - 0)%nat) as [x Hx];
      [unfold readFrames in *; lia|].
    rewrite Hx. eauto. }
  unfold output2. destruct (Nat.ltb_spec readFrames frames) as [Hlt|Hge].
  - split; [rewrite fillZero_length; lia|].
    intros k Hk. rewrite fillZero_lookup by lia.
    destruct (decide (readFrames <= k < frames)%nat) as [H|H].
    + rewrite bool_decide_eq_true_2 by exact H. eauto.
    + rewrite bool_decide_eq_false_2 by exact H. apply Hw1. lia.
  - split; [exact Hl1|]. intros k Hk. apply Hw1. lia.
Qed.

Lemma readFloatStarted_written st (output : list (cell F32.float)) frames :
  AudioRun.tables_ok (crossfade_ st) -> (frames <= length output)%nat ->
  AudioRun.written (snd (readFloatStarted st output frames)) frames.
Proof.
  intros Hc Hlen. unfold readFloatStarted.
  destruct (bufferEmpty st); [by apply fillZero_all_written|].
  destruct (read_and_pad_written (buffer_ st) output frames Hlen) as [Hl2 Hw2].
  destruct (readLoop _ _ _ _) as [buffer output1]. cbn [snd] in Hl2, Hw2.
  set (output2 := if (_ <? _)%nat then _ else _) in *.
  destruct (needsFadeIn_ _); cbn [fst snd crossfade_ set_buffer_ set_stats_ set_needsFadeIn_
                                   needsFadeOut_ bufferEmpty buffer_].
  - destruct (needsFadeOut_ st && _); cbn [snd].
    + apply applyFadeOut_written; [exact Hc|rewrite applyFadeIn_length; lia|].
      apply applyFadeIn_written; [exact Hc|lia|exact Hw2].
    + apply applyFadeIn_written; [exact Hc|lia|exact Hw2].
  - destruct (needsFadeOut_ st && _); cbn [snd].
    + apply applyFadeOut_written; [exact Hc|lia|exact Hw2].
    + exact Hw2.
Qed.

Lemma readFloat_written st (output : list (cell F32.float)) frames :
  AudioRun.tables_ok (crossfade_ st) -> (frames <= length output)%nat ->
  AudioRun.written (snd (readFloat st output frames)) frames.
Proof.
  intros Hc Hlen. unfold readFloat.
  destruct (playbackStarted_ st); cbn [negb].
  - by apply readFloatStarted_written.
  - destruct (bufferSize st >=? minBufferSize_ st).
    + by apply readFloatStarted_written.
    + by apply fillZero_all_written.
Qed.

(** [readFloat] only removes samples and leaves the bound, the tables and
    the overrun counter alone. *)
Lemma readFloatStarted_frame st (output : list (cell F32.float)) frames :
  let st' := snd (fst (readFloatStarted st output frames)) in
  crossfade_ st' = crossfade_ st /\ maxBufferSize_ st' = maxBufferSize_ st /\
  bufferOverruns (stats_ st') = bufferOverruns (stats_ st) /\
  (length (buffer_ st') <= length (buffer_ st))%nat.
Proof.
  unfold readFloatStarted.
  destruct (bufferEmpty st); [cbn; repeat split; lia|].
  pose proof (readLoop_fst (Nat.min frames (length (buffer_ st))) 0 (buffer_ st) output) as Hb.
  destruct (readLoop _ _ _ _) as [buffer output1]. cbn [fst] in Hb. subst buffer.
  repeat match goal with
         | |- context [if ?c then _ else _] => destruct c
         end; cbn; rewrite length_drop; repeat split; lia.
Qed.

Lemma readFloat_frame st (output : list (cell F32.float)) frames :
  let st' := snd (fst (readFloat st output frames)) in
  crossfade_ st' = crossfade_ st /\ maxBufferSize_ st' = maxBufferSize_ st /\
  bufferOverruns (stats_ st') = bufferOverruns (stats_ st) /\
  (length (buffer_ st') <= length (buffer_ st))%nat.
Proof.
  unfold readFloat.
  destruct (playbackStarted_ st); cbn [negb].
  - apply readFloatStarted_frame.
  - destruct (bufferSize st >=? minBufferSize_ st).
    + apply (readFloatStarted_frame (set_needsFadeIn_ (set_playbackStarted_ st true) true)).
    + cbn. repeat split; lia.
Qed.

(** *** The invariant *)

Lemma create_tables_ok sinf frameSize :
  0 <= frameSize < 2 ^ 31 -> AudioRun.tables_ok (Crossfade.create sinf frameSize).
Proof.
  intros H. unfold AudioRun.tables_ok, Crossfade.create. cbn.
  rewrite !length_map, length_seq. auto.
Qed.

Lemma create_invariant sinf userId config now :
  0 <= frameSize config < 2 ^ 31 ->
  AudioRun.invariant (create sinf userId config now).
Proof.
  intros H. unfold AudioRun.invariant, bufferSize.
  split; [|split].
  - cbn. split; [lia|]. unfold Int.size_t_of_int, Int.u64.
    apply Z.mod_pos_bound. lia.
  - cbn. lia.
  - by apply create_tables_ok.
Qed.

Lemma addSamples_invariant st samples sequence isPLC now :
  AudioRun.invariant st ->
  AudioRun.invariant (addSamples st samples sequence isPLC now).
Proof.
  intros ([Hb0 Hb] & Ho & Hc). unfold bufferSize in *.
  assert (Hmax : 0 <= maxBufferSize_ st) by lia.
  destruct (addSamples_frame st samples sequence isPLC now) as (Ec & _ & Em & _).
  destruct (addSamples_buffer st samples sequence isPLC now Hmax) as [Eb Eo].
  unfold AudioRun.invariant, bufferSize. rewrite Ec, Em, Eb, Eo.
  split; [|split; [|exact Hc]].
  - rewrite length_drop. lia.
  - destruct (_ <=? 0); [lia | apply u32_range].
Qed.

Lemma readFloat_invariant st (output : list (cell F32.float)) frames :
  AudioRun.invariant st ->
  AudioRun.invariant (snd (fst (readFloat st output frames))).
Proof.
  intros ([Hb0 Hb] & Ho & Hc). unfold bufferSize in *.
  destruct (readFloat_frame st output frames) as (Ec & Em & Eo & Hle).
  unfold AudioRun.invariant, bufferSize. rewrite Ec, Em, Eo.
  split; [lia|split; [lia|exact Hc]].
Qed.

Lemma reachable_invariant sinf st :
  AudioRun.reachable sinf st -> AudioRun.invariant st.
Proof.
  induction 1 as [userId config now Hf | st samples sequence isPLC now _ IH
                 | st output frames _ IH | st _ IH | st _ IH].
  - by apply create_invariant.
  - by apply addSamples_invariant.
  - by apply readFloat_invariant.
  - destruct IH as ([Hb0 Hb] & Ho & Hc).
    unfold AudioRun.invariant, bufferSize in *. cbn.
    split; [lia|split; [lia|exact Hc]].
  - exact IH.
Qed.

(** *** Runs of [addSamples] without reads *)

Lemma allSamples_cons p packets :
  AudioRun.allSamples (p :: packets) = AudioRun.samples p ++ AudioRun.allSamples packets.
Proof. reflexivity. Qed.

(** Over a run of adds the ring grows up to the bound and every sample
    beyond it is counted once. *)
Lemma feed_sizes packets st :
  AudioRun.invariant st ->
  let st' := AudioRun.feed st packets in
  let total := Z.of_nat (length (AudioRun.allSamples packets)) in
  let evicted := Z.max 0 (bufferSize st + total - maxBufferSize_ st) in
  AudioRun.invariant st' /\ maxBufferSize_ st' = maxBufferSize_ st /\
  bufferSize st' = bufferSize st + total - evicted /\
  bufferOverruns (stats_ st') = Int.u32 (bufferOverruns (stats_ st) + evicted).
Proof.
  revert st. induction packets as [|p packets IH]; intros st Hinv; cbv zeta.
  - change (AudioRun.feed st []) with st.
    change (Z.of_nat (length (AudioRun.allSamples []))) with 0.
    pose proof Hinv as ([Hb0 Hb] & Ho & Hc).
    rewrite Z.max_l by lia.
    split; [exact Hinv|]. split; [reflexivity|]. split; [lia|].
    unfold Int.u32. rewrite Z.add_0_r, Z.mod_small; lia.
  - cbn [AudioRun.feed fold_left].
    set (st1 := addSamples st (AudioRun.samples p) (AudioRun.sequence p)
                           (AudioRun.isPLC p) (AudioRun.arrival p)).
    pose proof (addSamples_invariant st (AudioRun.samples p) (AudioRun.sequence p)
                  (AudioRun.isPLC p) (AudioRun.arrival p) Hinv) as Hinv1.
    fold st1 in Hinv1.
    destruct (IH st1 Hinv1) as (Hinv' & Em' & Eb' & Eo').
    fold (AudioRun.feed st1 packets).
    destruct Hinv as ([Hb0 Hb] & Ho & Hc).
    assert (Hmax : 0 <= maxBufferSize_ st) by lia.
    destruct (addSamples_frame st (AudioRun.samples p) (AudioRun.sequence p)
                (AudioRun.isPLC p) (AudioRun.arrival p)) as (_ & _ & Em & _).
    destruct (addSamples_buffer st (AudioRun.samples p) (AudioRun.sequence p)
                (AudioRun.isPLC p) (AudioRun.arrival p) Hmax) as [Eb Eo].
    fold st1 in Em, Eb, Eo.
    assert (Es : bufferSize st1 =
                 bufferSize st + Z.of_nat (length (AudioRun.samples p))
                 - Z.max 0 (bufferSize st + Z.of_nat (length (AudioRun.samples p))
                            - maxBufferSize_ st)).
    { unfold bufferSize. rewrite Eb, length_drop, length_app, length_map. lia. }
    rewrite allSamples_cons, length_app.
    split; [exact Hinv'|]. split; [congruence|].
    rewrite Eb', Eo', Em, Es, Eo. unfold bufferSize in *.
    rewrite length_app, length_map.
    split; [lia|].
    destruct (Z.leb_spec (Z.of_nat (length (buffer_ st) + length (AudioRun.samples p))
                          - maxBufferSize_ st) 0) as [Hle|Hgt].
    + f_equal. lia.
    + rewrite u32_add_l. f_equal. lia.
Qed.

End UserAudioBufferProps.

(** C10. Every call of [readFloat], in every state of the buffer, leaves a
    determinate value in each of the [frames] cells of [output]. *)
Theorem readFloat_writes_every_entry
  (sinf : F32.float -> F32.float) (st : UserAudioBuffer.t)
  (output : list (cell F32.float)) (frames : nat) :
  AudioRun.reachable sinf st -> (frames <= length output)%nat ->
  AudioRun.written (snd (UserAudioBuffer.readFloat st output frames)) frames.
Proof.
  intros Hr Hlen. apply readFloat_written; [|exact Hlen].
  apply (reachable_invariant sinf st Hr).
Qed.

Lemma readFloat_writes_every_entry_witness :
  AudioRun.written
    (snd (UserAudioBuffer.readFloat
            (AudioRun.feed AudioFixture.fresh (AudioFixture.frames 1))
            (AudioFixture.blank 480) 480))
    480.
Proof.
  apply (readFloat_writes_every_entry Libm.sinf).
  - apply AudioRun.reach_addSamples, AudioRun.reach_create. simpl. lia.
  - simpl. lia.
Defined.

(** C4 (as amended).  In every state of the buffer the ring holds at most
    [maxBufferSize_] samples, and over a run of [addSamples] calls without
    reads [bufferOverruns] rises by one for every evicted sample (not once
    per evicted packet). *)
Theorem buffer_bound_and_overruns
  (sinf : F32.float -> F32.float) (st : UserAudioBuffer.t)
  (packets : list AudioRun.Packet) :
  AudioRun.reachable sinf st ->
  UserAudioBuffer.bufferSize st <= UserAudioBuffer.maxBufferSize_ st /\
  let st' := AudioRun.feed st packets in
  let evicted :=
    Z.max 0 (UserAudioBuffer.bufferSize st
             + Z.of_nat (length (AudioRun.allSamples packets))
             - UserAudioBuffer.maxBufferSize_ st) in
  UserAudioBuffer.bufferSize st' =
    UserAudioBuffer.bufferSize st
    + Z.of_nat (length (AudioRun.allSamples packets)) - evicted /\
  UserAudioBuffer.bufferSize st' <= UserAudioBuffer.maxBufferSize_ st' /\
  UserAudioBuffer.bufferOverruns (UserAudioBuffer.stats_ st') =
    Int.u32 (UserAudioBuffer.bufferOverruns (UserAudioBuffer.stats_ st) + evicted).
Proof.
  intros Hr. pose proof (reachable_invariant sinf st Hr) as Hinv.
  destruct (feed_sizes packets st Hinv) as (Hinv' & Em & Eb & Eo).
  destruct Hinv as ([Hb0 Hb] & _). destruct Hinv' as ([_ Hb'] & _).
  cbv zeta. auto.
Qed.

Lemma buffer_bound_and_overruns_witness :
  let st := AudioRun.feed AudioFixture.fresh (AudioFixture.frames 1) in
  let packets := AudioFixture.frames 2 in
  UserAudioBuffer.bufferSize st <= UserAudioBuffer.maxBufferSize_ st /\
  let st' := AudioRun.feed st packets in
  let evicted :=
    Z.max 0 (UserAudioBuffer.bufferSize st
             + Z.of_nat (length (AudioRun.allSamples packets))
             - UserAudioBuffer.maxBufferSize_ st) in
  UserAudioBuffer.bufferSize st' =
    UserAudioBuffer.bufferSize st
    + Z.of_nat (length (AudioRun.allSamples packets)) - evicted /\
  UserAudioBuffer.bufferSize st' <= UserAudioBuffer.maxBufferSize_ st' /\
  UserAudioBuffer.bufferOverruns (UserAudioBuffer.stats_ st') =
    Int.u32 (UserAudioBuffer.bufferOverruns (UserAudioBuffer.stats_ st) + evicted).
Proof.
  apply (buffer_bound_and_overruns Libm.sinf).
  apply AudioRun.reach_addSamples, AudioRun.reach_create. simpl. lia.
Defined.

(** C4, as stated, fails on the count: the default buffer holds twenty
    frames of 480 samples; the twenty-first add evicts one packet's worth of
    samples and raises [bufferOverruns] by 480, not by 1. *)
Lemma overruns_count_samples :
  UserAudioBuffer.bufferOverruns
    (UserAudioBuffer.stats_ (AudioRun.feed AudioFixture.fresh (AudioFixture.frames 20))) = 0 /\
  UserAudioBuffer.bufferOverruns
    (UserAudioBuffer.stats_ (AudioRun.feed AudioFixture.fresh (AudioFixture.frames 21))) = 480 /\
  UserAudioBuffer.bufferSize (AudioRun.feed AudioFixture.fresh (AudioFixture.frames 21)) = 9600.
Proof.
  assert (Hinv : AudioRun.invariant AudioFixture.fresh)
    by (apply create_invariant; simpl; lia).
  destruct (feed_sizes (AudioFixture.frames 20) _ Hinv) as (_ & _ & _ & E20).
  destruct (feed_sizes (AudioFixture.frames 21) _ Hinv) as (_ & _ & S21 & E21).
  rewrite E20, E21, S21. clear. split; [|split]; reflexivity.
Qed.

(** ** Sequence tracking *)

Section SequenceProps.

Import UserAudioBuffer.

Lemma i64_small (x : Z) : - 2 ^ 63 <= x < 2 ^ 63 -> Int.i64 x = x.
Proof. intros H. unfold Int.i64. rewrite Z.mod_small by lia. lia. Qed.

Lemma i64_sub_l (a b : Z) : Int.i64 (Int.i64 a - b) = Int.i64 (a - b).
Proof.
  unfold Int.i64. f_equal.
  replace ((a + 2 ^ 63) mod 2 ^ 64 - 2 ^ 63 - b + 2 ^ 63)
    with ((a + 2 ^ 63) mod 2 ^ 64 + (- b)) by ring.
  rewrite Zplus_mod_idemp_l. f_equal. ring.
Qed.

Lemma detectSequenceGap_track st sequence :
  let st' := detectSequenceGap st sequence in
  (lastSequence_ st', sequenceIncrement_ st', sequenceGaps (stats_ st')) =
  (lastSequence_ st,
   snd (fst (AudioRun.track (AudioRun.tracker st) sequence)),
   snd (AudioRun.track (AudioRun.tracker st) sequence)).
Proof.
  unfold detectSequenceGap, AudioRun.track, AudioRun.tracker.
  destruct (lastSequence_ st <? 0); [reflexivity|].
  destruct (sequence =? Int.i64 (lastSequence_ st + sequenceIncrement_ st));
    [reflexivity|].
  cbn [negb andb].
  destruct (Int.i64 (sequence - lastSequence_ st) >? sequenceIncrement_ st);
    destruct (Int.i64 (sequence - lastSequence_ st) >? 0);
    destruct (Int.i64 (sequence - lastSequence_ st) <? 100); reflexivity.
Qed.

(** [addSamples] moves the tracking by [track]. *)
Lemma addSamples_track st samples sequence isPLC now :
  AudioRun.tracker (addSamples st samples sequence isPLC now) =
  AudioRun.track (AudioRun.tracker st) sequence.
Proof.
  assert (Hshape : forall t,
            AudioRun.track t sequence =
            (sequence, snd (fst (AudioRun.track t sequence)),
             snd (AudioRun.track t sequence))).
  { intros [[last inc] gaps]. unfold AudioRun.track.
    destruct (last <? 0); reflexivity. }
  rewrite (Hshape (AudioRun.tracker st)).
  unfold addSamples, convertToFloat, AudioRun.tracker at 1.
  destruct (evict _ _ _) as [buffer overruns].
  destruct (lastSequence_ st >=? 0); [destruct (_ >? _)|]; destruct isPLC; cbn;
    match goal with
    | |- context [detectSequenceGap ?s ?q] =>
        pose proof (detectSequenceGap_track s q) as H; cbv zeta in H;
        injection H as _ Hi Hg; rewrite Hi, Hg
    end; reflexivity.
Qed.

Lemma feed_track packets st :
  AudioRun.tracker (AudioRun.feed st packets) =
  fold_left AudioRun.track (map AudioRun.sequence packets) (AudioRun.tracker st).
Proof.
  revert st. induction packets as [|p packets IH]; intros st; [reflexivity|].
  cbn [AudioRun.feed fold_left map]. fold (AudioRun.feed
    (addSamples st (AudioRun.samples p) (AudioRun.sequence p) (AudioRun.isPLC p)
       (AudioRun.arrival p)) packets).
  rewrite IH, addSamples_track. reflexivity.
Qed.

End SequenceProps.

(** C5 (as amended).  In [addSamples], once a first packet has been seen
    ([lastSequence_ >= 0]): [sequenceGaps] is incremented exactly when the
    incoming sequence lies beyond the expected one, that is when the gap
    [sequence - lastSequence_] exceeds [sequenceIncrement_] (a repeated or
    late sequence differs from the expected one and is not counted); when
    the sequence differs from the expected one and the gap is positive and
    below 100 it becomes the new [sequenceIncrement_]; [lastSequence_]
    becomes the incoming sequence.  The gap and the expected sequence are
    computed in [int64_t]: they are the exact difference and sum unless
    those leave the 64-bit range, and wrap around when they do.  Feeding the
    sequences 0, 1, 2, 4 to a new buffer yields [sequenceGaps = 1] and
    [lastSequence_ = 4]. *)
Theorem sequence_gap_tracking
  (sinf : F32.float -> F32.float) (st : UserAudioBuffer.t)
  (samples : list Z) (sequence : Z) (isPLC : bool) (now : Z)
  (userId : Z) (config : UserAudioBuffer.Config) (now0 : Z)
  (packets : list AudioRun.Packet) :
  0 <= UserAudioBuffer.lastSequence_ st < 2 ^ 63 ->
  - 2 ^ 63 <= UserAudioBuffer.sequenceIncrement_ st < 2 ^ 63 ->
  - 2 ^ 63 <= sequence < 2 ^ 63 ->
  map AudioRun.sequence packets = [0; 1; 2; 4] ->
  (let st' := UserAudioBuffer.addSamples st samples sequence isPLC now in
   let last := UserAudioBuffer.lastSequence_ st in
   let inc := UserAudioBuffer.sequenceIncrement_ st in
   let gaps := UserAudioBuffer.sequenceGaps (UserAudioBuffer.stats_ st) in
   let gap := Int.i64 (sequence - last) in
   let expected := Int.i64 (last + inc) in
   UserAudioBuffer.lastSequence_ st' = sequence /\
   (gap > inc ->
    UserAudioBuffer.sequenceGaps (UserAudioBuffer.stats_ st') = Int.u32 (gaps + 1)) /\
   (gap <= inc ->
    UserAudioBuffer.sequenceGaps (UserAudioBuffer.stats_ st') = gaps) /\
   (sequence <> expected -> 0 < gap < 100 ->
    UserAudioBuffer.sequenceIncrement_ st' = gap) /\
   (sequence = expected \/ gap <= 0 \/ 100 <= gap ->
    UserAudioBuffer.sequenceIncrement_ st' = inc) /\
   (- 2 ^ 63 <= sequence - last -> gap = sequence - last) /\
   (last + inc < 2 ^ 63 -> expected = last + inc)) /\
  (let st' := AudioRun.feed (UserAudioBuffer.create sinf userId config now0) packets in
   UserAudioBuffer.sequenceGaps (UserAudioBuffer.stats_ st') = 1 /\
   UserAudioBuffer.lastSequence_ st' = 4).
Proof.
  intros Hlast Hinc Hrange Hseq. split.
  - cbv zeta.
    pose proof (addSamples_track st samples sequence isPLC now) as H.
    unfold AudioRun.tracker, AudioRun.track in H.
    destruct (Z.ltb_spec (UserAudioBuffer.lastSequence_ st) 0) as [Hneg|_]; [lia|].
    injection H as Hl Hi Hg. rewrite Hl, Hi, Hg. clear Hl Hi Hg.
    assert (Hexp : sequence = Int.i64 (UserAudioBuffer.lastSequence_ st
                                       + UserAudioBuffer.sequenceIncrement_ st) ->
                   Int.i64 (sequence - UserAudioBuffer.lastSequence_ st) =
                   UserAudioBuffer.sequenceIncrement_ st).
    { intros E. rewrite E, i64_sub_l.
      replace (UserAudioBuffer.lastSequence_ st + UserAudioBuffer.sequenceIncrement_ st
               - UserAudioBuffer.lastSequence_ st)
        with (UserAudioBuffer.sequenceIncrement_ st) by ring.
      apply i64_small. exact Hinc. }
    set (gap := Int.i64 (sequence - UserAudioBuffer.lastSequence_ st)) in *.
    set (expected := Int.i64 (UserAudioBuffer.lastSequence_ st
                              + UserAudioBuffer.sequenceIncrement_ st)) in *.
    split; [reflexivity|].
    assert (Hcore :
      (gap > UserAudioBuffer.sequenceIncrement_ st ->
       (if negb (sequence =? expected) && (gap >? UserAudioBuffer.sequenceIncrement_ st)
        then Int.u32 (UserAudioBuffer.sequenceGaps (UserAudioBuffer.stats_ st) + 1)
        else UserAudioBuffer.sequenceGaps (UserAudioBuffer.stats_ st)) =
       Int.u32 (UserAudioBuffer.sequenceGaps (UserAudioBuffer.stats_ st) + 1)) /\
      (gap <= UserAudioBuffer.sequenceIncrement_ st ->
       (if negb (sequence =? expected) && (gap >? UserAudioBuffer.sequenceIncrement_ st)
        then Int.u32 (UserAudioBuffer.sequenceGaps (UserAudioBuffer.stats_ st) + 1)
        else UserAudioBuffer.sequenceGaps (UserAudioBuffer.stats_ st)) =
       UserAudioBuffer.sequenceGaps (UserAudioBuffer.stats_ st)) /\
      (sequence <> expected -> 0 < gap < 100 ->
       (if negb (sequence =? expected) && (gap >? 0) && (gap <? 100)
        then gap else UserAudioBuffer.sequenceIncrement_ st) = gap) /\
      (sequence = expected \/ gap <= 0 \/ 100 <= gap ->
       (if negb (sequence =? expected) && (gap >? 0) && (gap <? 100)
        then gap else UserAudioBuffer.sequenceIncrement_ st) =
       UserAudioBuffer.sequenceIncrement_ st)).
    { destruct (Z.eqb_spec sequence expected) as [Heq|Hne]; cbn [negb andb].
      - specialize (Hexp Heq). repeat split; intros; try reflexivity; lia.
      - destruct (Z.gtb_spec gap (UserAudioBuffer.sequenceIncrement_ st));
          destruct (Z.gtb_spec gap 0); destruct (Z.ltb_spec gap 100);
          cbn [andb]; repeat split; intros; try reflexivity; lia. }
    destruct Hcore as (H1 & H2 & H3 & H4).
    split; [exact H1|]. split; [exact H2|]. split; [exact H3|]. split; [exact H4|].
    split; intros Hno; apply i64_small; lia.
  - cbv zeta.
    pose proof (feed_track packets (UserAudioBuffer.create sinf userId config now0)) as H.
    rewrite Hseq in H. unfold AudioRun.tracker in H. cbn in H.
    injection H as Hl _ Hg. auto.
Qed.

Lemma sequence_gap_tracking_witness :
  let st := AudioRun.feed AudioFixture.fresh (AudioFixture.frames 2) in
  let st' := UserAudioBuffer.addSamples st (replicate 480 1000) 3 false 30000000 in
  UserAudioBuffer.lastSequence_ st' = 3 /\
  UserAudioBuffer.sequenceGaps (UserAudioBuffer.stats_ st') = Int.u32 (0 + 1) /\
  UserAudioBuffer.sequenceIncrement_ st' = Int.i64 (3 - 1) /\
  UserAudioBuffer.sequenceGaps
    (UserAudioBuffer.stats_
       (AudioRun.feed AudioFixture.fresh (map AudioFixture.frame [0; 1; 2; 4]))) = 1.
Proof.
  intros st st'.
  assert (Hlast : 0 <= UserAudioBuffer.lastSequence_ st < 2 ^ 63)
    by (vm_compute; split; [discriminate | reflexivity]).
  assert (Hinc : - 2 ^ 63 <= UserAudioBuffer.sequenceIncrement_ st < 2 ^ 63)
    by (vm_compute; split; [discriminate | reflexivity]).
  assert (Hseq : - 2 ^ 63 <= 3 < 2 ^ 63) by lia.
  destruct (sequence_gap_tracking Libm.sinf st (replicate 480 1000) 3 false 30000000
              7 UserAudioBuffer.defaultConfig 0 (map AudioFixture.frame [0; 1; 2; 4])
              Hlast Hinc Hseq eq_refl) as [(Hl & Hg & _ & Hi & _) [Hs _]].
  split; [exact Hl|]. split; [|split].
  - apply Hg. vm_compute. reflexivity.
  - apply Hi; vm_compute; [discriminate | split; reflexivity].
  - exact Hs.
Defined.

(** C5, as stated, fails: after the sequences 0, 1 the buffer expects 2; the
    late sequence 0 differs from it, and [sequenceGaps] stays 0. *)
Lemma late_sequence_not_counted :
  let st := AudioRun.feed AudioFixture.fresh (map AudioFixture.frame [0; 1]) in
  let st' := UserAudioBuffer.addSamples st (replicate 480 1000) 0 false 30000000 in
  UserAudioBuffer.lastSequence_ st = 1 /\
  UserAudioBuffer.sequenceIncrement_ st = 1 /\
  UserAudioBuffer.sequenceGaps (UserAudioBuffer.stats_ st) = 0 /\
  UserAudioBuffer.sequenceGaps (UserAudioBuffer.stats_ st') = 0 /\
  UserAudioBuffer.lastSequence_ st' = 0.
Proof. vm_compute. repeat split. Qed.

(** The gap is a 64-bit difference: after the sequence 5, the sequence
    [-2^63] lies 2^63 - 5 ahead once the subtraction has wrapped, and is
    counted as a gap. *)
Example far_sequence_wraps :
  let st := UserAudioBuffer.addSamples AudioFixture.fresh [] 5 false 0 in
  let st' := UserAudioBuffer.addSamples st [] (- 2 ^ 63) false 0 in
  UserAudioBuffer.sequenceGaps (UserAudioBuffer.stats_ st) = 0 /\
  UserAudioBuffer.sequenceGaps (UserAudioBuffer.stats_ st') = 1.
Proof. vm_compute. split; reflexivity. Qed.

(** ** The start of playback *)

Section FadeInProps.

Import UserAudioBuffer.




(** Below the start threshold [readFloat] returns 0, zero-fills and changes
    nothing. *)
Lemma readFloat_not_ready st (output : list (cell F32.float)) frames :
  playbackStarted_ st = false -> bufferSize st < minBufferSize_ st ->
  readFloat st output frames = (0%nat, st, fillZero 0 frames output).
Proof.
  intros Hs Hlt. unfold readFloat. rewrite Hs. cbn [negb].
  destruct (Z.geb_spec (bufferSize st) (minBufferSize_ st)); [lia | reflexivity].
Qed.


End FadeInProps.




(** With the stand-in sine and six frames of constant amplitude the first
    read is a rising ramp from zero. *)
Example six_frames_ramp :
  let st := AudioRun.feed AudioFixture.fresh (AudioFixture.frames 6) in
  let out := snd (UserAudioBuffer.readFloat st (AudioFixture.blank 480) 480) in
  length (AudioRun.values out) = 480%nat /\
  head (AudioRun.values out) = Some F32.zero /\
  AudioRun.nondecreasing (AudioRun.values out) = true.
Proof. vm_compute. repeat split. Qed.

(** ** [JitterBuffer] *)

Section JitterBufferProps.

Lemma memcpy_at_all {A} (bytes p : list A) :
  length bytes = length p -> Buf.memcpy_at 0 bytes p = bytes.
Proof.
  intros H. unfold Buf.memcpy_at. rewrite take_0, Nat.add_0_l, H.
  rewrite drop_all, app_nil_r. reflexivity.
Qed.

(** A packet of exactly [frames] samples fills the caller's buffer. *)
Lemma play_full (packet : JitterBuffer.Packet) (output : list Z) (frames : nat) :
  length (JitterBuffer.data packet) = frames -> length output = frames ->
  JitterBuffer.play packet output frames = (frames, JitterBuffer.data packet).
Proof.
  intros Hd Ho. unfold JitterBuffer.play.
  rewrite Hd, Nat.min_id, Nat.ltb_irrefl.
  rewrite take_ge by lia.
  rewrite memcpy_at_all by congruence. reflexivity.
Qed.

Lemma silence_full (output : list Z) (frames : nat) :
  length output = frames -> JitterBuffer.silence output frames = replicate frames 0.
Proof.
  intros Ho. unfold JitterBuffer.silence. apply memcpy_at_all.
  rewrite length_replicate. congruence.
Qed.

(** *** The three ways [get] returns once packets are buffered *)

Lemma find_Some_nonempty {V} (k : Z) (m : list (Z * V)) (v : V) :
  StdMap.find k m = Some v -> (StdMap.size m =? 0) = false.
Proof. destruct m; [discriminate|]. intros _. reflexivity. Qed.

(** Too few packets for the minimum delay: silence, nothing consumed. *)
Lemma get_waits st (output : list Z) frames now needed :
  JitterBuffer.initialized_ st = true ->
  JitterBuffer.minPacketsNeeded (JitterBuffer.config_ st) = Some needed ->
  Int.i32 (StdMap.size (JitterBuffer.packets_ st)) < needed ->
  JitterBuffer.get st output frames now =
  Some (0%nat,
        JitterBuffer.set_playback st (JitterBuffer.packets_ st)
          (JitterBuffer.nextPlaySequence_ st) (JitterBuffer.packetsLost_ st) now,
        JitterBuffer.silence output frames).
Proof.
  intros Hi Hm Hlt. unfold JitterBuffer.get. cbn [JitterBuffer.set_playback
    JitterBuffer.initialized_ JitterBuffer.packets_ JitterBuffer.config_].
  rewrite Hi, Hm. cbn [negb orb].
  destruct (StdMap.size (JitterBuffer.packets_ st) =? 0); [reflexivity|].
  destruct (Z.ltb_spec (Int.i32 (StdMap.size (JitterBuffer.packets_ st))) needed);
    [reflexivity | lia].
Qed.

(** The expected packet is there: it is played and erased. *)
Lemma get_plays_next st (output : list Z) frames now needed packet :
  JitterBuffer.initialized_ st = true ->
  JitterBuffer.minPacketsNeeded (JitterBuffer.config_ st) = Some needed ->
  needed <= Int.i32 (StdMap.size (JitterBuffer.packets_ st)) ->
  StdMap.find (JitterBuffer.nextPlaySequence_ st) (JitterBuffer.packets_ st)
    = Some packet ->
  JitterBuffer.get st output frames now =
  Some (fst (JitterBuffer.play packet output frames),
        JitterBuffer.set_playback st
          (StdMap.erase (JitterBuffer.nextPlaySequence_ st) (JitterBuffer.packets_ st))
          (Int.u32 (JitterBuffer.nextPlaySequence_ st + 1))
          (JitterBuffer.packetsLost_ st) now,
        snd (JitterBuffer.play packet output frames)).
Proof.
  intros Hi Hm Hge Hf. unfold JitterBuffer.get. cbn [JitterBuffer.set_playback
    JitterBuffer.initialized_ JitterBuffer.packets_ JitterBuffer.config_
    JitterBuffer.nextPlaySequence_ JitterBuffer.packetsLost_].
  rewrite Hi, Hm, (find_Some_nonempty _ _ _ Hf). cbn [negb orb].
  destruct (Z.ltb_spec (Int.i32 (StdMap.size (JitterBuffer.packets_ st))) needed);
    [lia|].
  rewrite Hf. destruct (JitterBuffer.play packet output frames). reflexivity.
Qed.

(** The expected packet is missing and the oldest buffered one lies ahead:
    the sequences in between are counted as lost and the oldest is played. *)
Lemma get_skips_ahead st (output : list Z) frames now needed first packet rest :
  JitterBuffer.initialized_ st = true ->
  JitterBuffer.packets_ st = (first, packet) :: rest ->
  JitterBuffer.minPacketsNeeded (JitterBuffer.config_ st) = Some needed ->
  needed <= Int.i32 (StdMap.size (JitterBuffer.packets_ st)) ->
  StdMap.find (JitterBuffer.nextPlaySequence_ st) (JitterBuffer.packets_ st) = None ->
  JitterBuffer.nextPlaySequence_ st < first ->
  JitterBuffer.get st output frames now =
  Some (fst (JitterBuffer.play packet output frames),
        JitterBuffer.set_playback st rest (Int.u32 (first + 1))
          (Int.i32 (Int.i32 (JitterBuffer.packetsLost_ st + 1)
                    + Int.i32 (Int.i32 (Int.u32 (first - JitterBuffer.nextPlaySequence_ st))
                               - 1))) now,
        snd (JitterBuffer.play packet output frames)).
Proof.
  intros Hi Hp Hm Hge Hf Hlt. unfold JitterBuffer.get. cbn [JitterBuffer.set_playback
    JitterBuffer.initialized_ JitterBuffer.packets_ JitterBuffer.config_
    JitterBuffer.nextPlaySequence_ JitterBuffer.packetsLost_].
  rewrite Hi, Hm. cbn [negb orb].
  destruct (Z.ltb_spec (Int.i32 (StdMap.size (JitterBuffer.packets_ st))) needed);
    [lia|].
  rewrite Hf, Hp. cbn [StdMap.size length Z.of_nat StdMap.begin head StdMap.erase].
  destruct (Z.eqb_spec (Z.pos (Pos.of_succ_nat (length rest))) 0); [lia|].
  destruct (Z.ltb_spec (JitterBuffer.nextPlaySequence_ st) first); [|lia].
  rewrite Z.eqb_refl.
  destruct (JitterBuffer.play packet output frames). reflexivity.
Qed.

End JitterBufferProps.

(** C7, as stated, fails: with the default configuration and the packets
    0, 1, 3 the third [get] finds one packet buffered, fewer than the two
    that [minDelayMs] asks for, and outputs silence; nothing is counted as
    lost. *)
Lemma third_get_is_silence :
  let fed := JitterRun.feed JitterFixture.fresh (map JitterFixture.packet [0; 1; 3]) in
  exists st' : JitterBuffer.t,
    JitterRun.drain 3 fed (replicate 480 0) 480 40000000 =
      Some ([(480%nat, replicate 480 1); (480%nat, replicate 480 2);
             (0%nat, replicate 480 0)], st') /\
    JitterBuffer.packetsLost_ st' = 0 /\
    map fst (JitterBuffer.packets_ st') = [3].
Proof. eexists. vm_compute. repeat split. Qed.

(** C7 (as amended).  With the default configuration ([minDelayMs] 20, two
    packets) and packets of 480 samples: after the packets 0, 1, 3 three
    calls of [get] play 0 and 1 and then output silence, with
    [packetsLost_ = 0] and packet 3 still buffered; when packet 4 has been
    put as well, the three calls play 0, 1, 3 in that order and
    [packetsLost_ = 1]. *)
Theorem jitter_drain_three
  (p0 p1 p3 p4 : JitterRun.Put) (t0 now : Z) (output : list Z) :
  JitterRun.sequence p0 = 0 -> JitterRun.sequence p1 = 1 ->
  JitterRun.sequence p3 = 3 -> JitterRun.sequence p4 = 4 ->
  length (JitterRun.data p0) = 480%nat -> length (JitterRun.data p1) = 480%nat ->
  length (JitterRun.data p3) = 480%nat -> length output = 480%nat ->
  let fresh := JitterBuffer.create JitterBuffer.defaultConfig t0 in
  (exists st' : JitterBuffer.t,
     JitterRun.drain 3 (JitterRun.feed fresh [p0; p1; p3]) output 480 now =
       Some ([(480%nat, JitterRun.data p0); (480%nat, JitterRun.data p1);
              (0%nat, replicate 480 0)], st') /\
     JitterBuffer.packetsLost_ st' = 0 /\
     map fst (JitterBuffer.packets_ st') = [3]) /\
  (exists st' : JitterBuffer.t,
     JitterRun.drain 3 (JitterRun.feed fresh [p0; p1; p3; p4]) output 480 now =
       Some ([(480%nat, JitterRun.data p0); (480%nat, JitterRun.data p1);
              (480%nat, JitterRun.data p3)], st') /\
     JitterBuffer.packetsLost_ st' = 1 /\
     map fst (JitterBuffer.packets_ st') = [4]).
Proof.
  destruct p0 as [d0 s0 ts0 a0], p1 as [d1 s1 ts1 a1], p3 as [d3 s3 ts3 a3],
           p4 as [d4 s4 ts4 a4].
  cbn [JitterRun.sequence JitterRun.data].
  intros -> -> -> -> H0 H1 H3 Ho.
  split.
  - cbv zeta. eexists. cbn [JitterRun.drain].
    rewrite (get_plays_next _ _ _ _ 2 (JitterBuffer.mkPacket d0 0 ts0 a0));
      [|reflexivity|reflexivity|vm_compute; discriminate|reflexivity].
    rewrite (play_full _ output 480) by assumption. cbn [fst snd].
    rewrite (get_plays_next _ _ _ _ 2 (JitterBuffer.mkPacket d1 1 ts1 a1));
      [|reflexivity|reflexivity|vm_compute; discriminate|reflexivity].
    rewrite (play_full _ d0 480) by assumption. cbn [fst snd].
    rewrite (get_waits _ _ _ _ 2); [|reflexivity|reflexivity|vm_compute; reflexivity].
    rewrite silence_full by assumption.
    repeat split.
  - cbv zeta. eexists. cbn [JitterRun.drain].
    rewrite (get_plays_next _ _ _ _ 2 (JitterBuffer.mkPacket d0 0 ts0 a0));
      [|reflexivity|reflexivity|vm_compute; discriminate|reflexivity].
    rewrite (play_full _ output 480) by assumption. cbn [fst snd].
    rewrite (get_plays_next _ _ _ _ 2 (JitterBuffer.mkPacket d1 1 ts1 a1));
      [|reflexivity|reflexivity|vm_compute; discriminate|reflexivity].
    rewrite (play_full _ d0 480) by assumption. cbn [fst snd].
    rewrite (get_skips_ahead _ _ _ _ 2 3 (JitterBuffer.mkPacket d3 3 ts3 a3)
               [(4, JitterBuffer.mkPacket d4 4 ts4 a4)]);
      [|reflexivity|reflexivity|reflexivity|vm_compute; discriminate|reflexivity
       |vm_compute; reflexivity].
    rewrite (play_full _ d1 480) by assumption. cbn [fst snd].
    repeat split.
Qed.

Lemma jitter_drain_three_witness :
  let fresh := JitterBuffer.create JitterBuffer.defaultConfig 0 in
  exists st' : JitterBuffer.t,
    JitterRun.drain 3
      (JitterRun.feed fresh (map JitterFixture.packet [0; 1; 3; 4]))
      (replicate 480 0) 480 50000000 =
      Some ([(480%nat, replicate 480 1); (480%nat, replicate 480 2);
             (480%nat, replicate 480 4)], st') /\
    JitterBuffer.packetsLost_ st' = 1.
Proof.
  intros fresh.
  destruct (jitter_drain_three (JitterFixture.packet 0) (JitterFixture.packet 1)
              (JitterFixture.packet 3) (JitterFixture.packet 4) 0 50000000
              (replicate 480 0))
    as [_ (st' & Hr & Hl & _)]; try reflexivity.
  exists st'. split; [exact Hr | exact Hl].
Defined.

(** ** [MumbleClient::connect] *)

Section ConnectProps.

Import MumbleClient.

Lemma state_eqb_eq a b : state_eqb a b = true <-> a = b.
Proof. destruct a, b; cbn; split; intros H; try discriminate; reflexivity. Qed.

(** [setState] records the state and reports it. *)
Lemma setState_state c s : state_ (setState c s) = s.
Proof. reflexivity. Qed.

(** A client that is not [Disconnected] refuses [connect] and is left as it
    was. *)
Lemma connect_refused w c config :
  state_ c <> Disconnected -> connect w c config = (false, c).
Proof.
  intros H. unfold connect.
  destruct (state_eqb (state_ c) Disconnected) eqn:E; [|reflexivity].
  apply state_eqb_eq in E. contradiction.
Qed.

(** The socket step changes nothing but [socket_]. *)
Lemma connectSocket_frame w c :
  let c' := snd (connectSocket w c) in
  state_ c' = state_ c /\ running_ c' = running_ c /\ sslCtx_ c' = sslCtx_ c /\
  ssl_ c' = ssl_ c /\ receiveThread_ c' = receiveThread_ c /\
  pingThread_ c' = pingThread_ c /\ stateLog_ c' = stateLog_ c /\
  sent_ c' = sent_ c.
Proof.
  unfold connectSocket.
  destruct (getaddrinfo_ok w); cbn; [|repeat split].
  destruct (socket_fd w <? 0); cbn; [repeat split|].
  destruct (connect_ok w); cbn; repeat split.
Qed.

(** [disconnect] from any other state ends in [Disconnected] with the TLS
    handles and the socket released, both threads joined and the roster
    cleared, after reporting [Disconnecting] and [Disconnected]. *)
Lemma disconnect_result c :
  state_ c <> Disconnected ->
  let d := disconnect c in
  state_ d = Disconnected /\ ssl_ d = false /\ sslCtx_ d = false /\
  socket_ d < 0 /\ running_ d = false /\ receiveThread_ d = false /\
  pingThread_ d = false /\ channels_ d = [] /\ users_ d = [] /\
  localSession_ d = 0 /\
  stateLog_ d = Disconnected :: Disconnecting :: stateLog_ c.
Proof.
  intros H. cbv zeta. unfold disconnect.
  destruct (state_eqb (state_ c) Disconnected) eqn:E;
    [apply state_eqb_eq in E; contradiction|].
  cbn. destruct (Z.geb_spec (socket_ c) 0); cbn; repeat split; lia.
Qed.

End ConnectProps.

(** C8 (as amended).  When [connect], called on a [Disconnected] client,
    fails while loading the client certificate or in the TLS handshake, it
    returns [false] before any thread is started or message sent and leaves
    the client in state [Failed], having reported [Connecting] and then
    [Failed]; after a handshake failure both TLS handles are released.  A
    further [connect] is refused until [disconnect] has returned the client
    to [Disconnected] with the handles and the socket released. *)
Theorem connect_failure_is_failed
  (w w' : MumbleClient.World) (c : MumbleClient.t)
  (config config' : MumbleClient.Config) :
  MumbleClient.state_ c = MumbleClient.Disconnected ->
  MumbleClient.certLoadFails w config \/ MumbleClient.handshakeFails w config ->
  let r := MumbleClient.connect w c config in
  fst r = false /\
  MumbleClient.state_ (snd r) = MumbleClient.Failed /\
  MumbleClient.stateLog_ (snd r) =
    MumbleClient.Failed :: MumbleClient.Connecting :: MumbleClient.stateLog_ c /\
  MumbleClient.running_ (snd r) = MumbleClient.running_ c /\
  MumbleClient.receiveThread_ (snd r) = MumbleClient.receiveThread_ c /\
  MumbleClient.sent_ (snd r) = MumbleClient.sent_ c /\
  (MumbleClient.handshakeFails w config ->
   MumbleClient.ssl_ (snd r) = false /\ MumbleClient.sslCtx_ (snd r) = false) /\
  MumbleClient.connect w' (snd r) config' = (false, snd r) /\
  (let d := MumbleClient.disconnect (snd r) in
   MumbleClient.state_ d = MumbleClient.Disconnected /\
   MumbleClient.ssl_ d = false /\ MumbleClient.sslCtx_ d = false /\
   MumbleClient.socket_ d < 0 /\ MumbleClient.running_ d = false).
Proof.
  intros Hd Hfail.
  assert (Hshape :
    let r := MumbleClient.connect w c config in
    fst r = false /\
    MumbleClient.state_ (snd r) = MumbleClient.Failed /\
    MumbleClient.stateLog_ (snd r) =
      MumbleClient.Failed :: MumbleClient.Connecting :: MumbleClient.stateLog_ c /\
    MumbleClient.running_ (snd r) = MumbleClient.running_ c /\
    MumbleClient.receiveThread_ (snd r) = MumbleClient.receiveThread_ c /\
    MumbleClient.sent_ (snd r) = MumbleClient.sent_ c /\
    (MumbleClient.handshakeFails w config ->
     MumbleClient.ssl_ (snd r) = false /\ MumbleClient.sslCtx_ (snd r) = false)).
  { cbv zeta. unfold MumbleClient.connect. rewrite Hd. cbn [MumbleClient.state_eqb negb].
    unfold MumbleClient.initSSL.
    destruct Hfail as [(Hctx & Hpath & Hload) | (Hctx & Hcert & Haddr & Hfd & Hconn & Hssl)].
    - rewrite Hctx, Hpath, Hload. cbn.
      split; [reflexivity|]. split; [reflexivity|]. split; [reflexivity|].
      split; [reflexivity|]. split; [reflexivity|]. split; [reflexivity|].
      intros (_ & [Hp | Hl] & _); congruence.
    - rewrite Hctx. cbn [negb].
      assert (Hno : negb (MumbleClient.str_empty (MumbleClient.certificatePath config))
                    && negb (MumbleClient.loadCertificate w) = false)
        by (destruct Hcert as [-> | ->]; cbn; [reflexivity | apply andb_false_r]).
      rewrite Hno. cbn [negb]. unfold MumbleClient.connectSocket.
      rewrite Haddr. cbn [negb MumbleClient.set_socket MumbleClient.socket_].
      destruct (Z.ltb_spec (MumbleClient.socket_fd w) 0) as [?|_]; [lia|].
      rewrite Hconn, Hssl. cbn.
      split; [reflexivity|]. split; [reflexivity|]. split; [reflexivity|].
      split; [reflexivity|]. split; [reflexivity|]. split; [reflexivity|].
      intros _. split; reflexivity. }
  cbv zeta in Hshape. destruct Hshape as (Hr & Hs & Hlog & Hrun & Hth & Hsent & Hh).
  assert (Hnd : MumbleClient.state_ (snd (MumbleClient.connect w c config))
                <> MumbleClient.Disconnected) by (rewrite Hs; discriminate).
  destruct (disconnect_result _ Hnd) as (D1 & D2 & D3 & D4 & D5 & _).
  cbv zeta.
  split; [exact Hr|]. split; [exact Hs|]. split; [exact Hlog|].
  split; [exact Hrun|]. split; [exact Hth|]. split; [exact Hsent|].
  split; [exact Hh|]. split; [by apply connect_refused|].
  split; [exact D1|]. split; [exact D2|]. split; [exact D3|].
  split; [exact D4 | exact D5].
Qed.

Lemma connect_failure_is_failed_witness :
  let r := MumbleClient.connect ConnectFixture.noCertificate MumbleClient.create
             ConnectFixture.configWithCert in
  fst r = false /\ MumbleClient.state_ (snd r) = MumbleClient.Failed /\
  MumbleClient.connect ConnectFixture.fine (snd r) ConnectFixture.config = (false, snd r) /\
  MumbleClient.state_ (MumbleClient.disconnect (snd r)) = MumbleClient.Disconnected.
Proof.
  intros r.
  destruct (connect_failure_is_failed ConnectFixture.noCertificate ConnectFixture.fine
              MumbleClient.create ConnectFixture.configWithCert ConnectFixture.config)
    as (Hr & Hs & _ & _ & _ & _ & _ & Hc & Hd & _).
  - reflexivity.
  - left. repeat split.
  - split; [exact Hr|]. split; [exact Hs|]. split; [exact Hc | exact Hd].
Defined.

(** C8, as stated, fails: after a failed handshake (and after a failed
    certificate load) [connect] returns [false] with the client in state
    [Failed], not [Disconnected]. *)
Lemma connect_failure_not_disconnected :
  let r := MumbleClient.connect ConnectFixture.handshakeRefused MumbleClient.create
             ConnectFixture.config in
  let r' := MumbleClient.connect ConnectFixture.noCertificate MumbleClient.create
              ConnectFixture.configWithCert in
  fst r = false /\ MumbleClient.state_ (snd r) = MumbleClient.Failed /\
  MumbleClient.stateLog_ (snd r) = [MumbleClient.Failed; MumbleClient.Connecting] /\
  fst r' = false /\ MumbleClient.state_ (snd r') = MumbleClient.Failed.
Proof. vm_compute. repeat split. Qed.

(** ** [UdpPing] *)

Section UdpPingProps.

Import UdpPing.


Lemma succeeded_app tr1 tr2 :
  PingTrace.succeeded (tr1 ++ tr2) = PingTrace.succeeded tr1 || PingTrace.succeeded tr2.
Proof. apply existsb_app. Qed.







End UdpPingProps.



(** On the fixture: two timeouts, an answer, then three timeouts end the
    loop; the flag stays [true] and no failure is reported. *)
Example ping_fixture_run :
  let r := UdpPing.pingLoop PingFixture.ticks PingFixture.started in
  fst r = true /\ UdpPing.udpAvailable_ (snd r) = true /\
  UdpPing.pingsSent_ (snd r) = 6 /\
  PingTrace.failures (UdpPing.trace_ (snd r)) = 0%nat.
Proof. vm_compute. repeat split. Qed.

(** * Further properties of the code *)

(** ** [CryptState]: packet layout and nonce reconstruction *)

Section CryptStateMore.

Variable AES_encrypt : list Z -> CryptState.AES_KEY -> list Z.

Lemma xorBlock_length a b : length (CryptState.xorBlock a b) = 16%nat.
Proof. unfold CryptState.xorBlock. rewrite length_map, length_seq. reflexivity. Qed.

Lemma ocbFullBlocks_length st n i plain encrypted offset checksum :
  length (fst (fst (CryptState.ocbFullBlocks AES_encrypt st n i plain encrypted
                      offset checksum)))
  = (length encrypted + 16 * n)%nat.
Proof.
  revert i encrypted offset checksum.
  induction n as [|n IH]; intros i encrypted offset checksum;
    cbn [CryptState.ocbFullBlocks fst].
  - lia.
  - rewrite IH, length_app, xorBlock_length. lia.
Qed.

Lemma ocbPartial_length n i base plain pad encrypted checksum :
  length (fst (CryptState.ocbPartial n i base plain pad encrypted checksum))
  = (length encrypted + n)%nat.
Proof.
  revert i encrypted checksum.
  induction n as [|n IH]; intros i encrypted checksum; cbn [CryptState.ocbPartial fst].
  - lia.
  - rewrite IH, length_app. cbn. lia.
Qed.

(** [ocbEncrypt] writes exactly [len] bytes, whatever the block function. *)
Lemma ocbEncrypt_length st plain nonce :
  length (fst (CryptState.ocbEncrypt AES_encrypt st plain nonce)) = length plain.
Proof.
  unfold CryptState.ocbEncrypt.
  pose proof (ocbFullBlocks_length st (length plain / 16) 0 plain []
                (CryptState.aesEncrypt AES_encrypt st nonce) (replicate 16 0)) as Hfull.
  destruct (CryptState.ocbFullBlocks _ _ _ _ _ _ _ _) as [[encrypted offset] checksum].
  cbn [fst length] in Hfull.
  pose proof (Nat.div_mod_eq (length plain) 16) as Hdm.
  destruct (0 <? length plain mod 16)%nat eqn:Hrem.
  - pose proof (ocbPartial_length (length plain mod 16) 0 (length plain / 16 * 16) plain
                  (CryptState.aesEncrypt AES_encrypt st (CryptState.shift offset))
                  encrypted checksum) as Hpart.
    destruct (CryptState.ocbPartial _ _ _ _ _ _ _) as [encrypted' checksum'].
    cbn [fst] in *. lia.
  - apply Nat.ltb_ge in Hrem. cbn [fst]. lia.
Qed.

End CryptStateMore.

(** X1.  On an initialised state, with a destination of [srcLen + 4] bytes,
    [encrypt] returns [true] and fills the destination completely: byte 0
    is the low byte of the advanced send counter, bytes 1..3 are the first
    three tag bytes, and the remaining [srcLen] bytes are the output of
    [ocbEncrypt]; the source is left alone. *)
Theorem encrypt_packet_layout
  (AES_encrypt : list Z -> CryptState.AES_KEY -> list Z)
  (st : CryptState.t) (src dst : list Z) :
  CryptState.initialized_ st = true ->
  (4 <= length (CryptState.clientNonce_ st))%nat ->
  length dst = (length src + 4)%nat ->
  let r := CryptState.encrypt AES_encrypt st src dst in
  let counter := Int.u32 (CryptState.encryptNonce_ st + 1) in
  let sealed := CryptState.ocbEncrypt AES_encrypt (CryptState.state r) src
                  (CryptState.storeCounter (CryptState.clientNonce_ st) counter) in
  CryptState.ret r = true /\
  CryptState.src_after r = src /\
  CryptState.dst_after r =
    [Int.u8 counter; Buf.rd (snd sealed) 0; Buf.rd (snd sealed) 1;
     Buf.rd (snd sealed) 2] ++ fst sealed /\
  length (CryptState.dst_after r) = (length src + 4)%nat.
Proof.
  intros Hinit Hnonce Hlen. cbv zeta. unfold CryptState.encrypt.
  rewrite Hinit. cbn [negb]. cbv zeta.
  change (CryptState.encryptNonce_
            (CryptState.set_encryptNonce st (Int.u32 (CryptState.encryptNonce_ st + 1))))
    with (Int.u32 (CryptState.encryptNonce_ st + 1)).
  set (st' := CryptState.set_encryptNonce st _).
  set (nonce := CryptState.storeCounter _ _).
  pose proof (ocbEncrypt_length AES_encrypt st' src nonce) as Hl.
  destruct (CryptState.ocbEncrypt AES_encrypt st' src nonce) as [encrypted tag] eqn:E.
  cbn [fst snd] in *. cbn [CryptState.ret CryptState.src_after CryptState.dst_after
                           CryptState.state].
  rewrite E. cbn [fst snd].
  assert (Hn0 : Buf.rd nonce 0 = Int.u8 (Int.u32 (CryptState.encryptNonce_ st + 1))).
  { unfold nonce, CryptState.storeCounter.
    rewrite !rd_insert_ne by lia. apply rd_insert_eq. lia. }
  rewrite Hn0.
  destruct dst as [|b0 [|b1 [|b2 [|b3 body]]]]; cbn [length] in Hlen; try lia.
  assert (Hbody : length body = length encrypted) by lia.
  unfold Buf.memcpy_at. cbn [insert list_insert take drop app length Nat.add].
  rewrite <- Hbody, drop_all, app_nil_r.
  cbn [insert list_insert app take].
  split; [reflexivity|]. split; [reflexivity|]. split; [reflexivity|].
  rewrite take_0. cbn [app]. rewrite Hl. lia.
Qed.

Lemma encrypt_packet_layout_witness :
  let r := CryptState.encrypt AES128.AES_encrypt CryptFixture.sender [1]
             (replicate 5 0) in
  CryptState.ret r = true /\ length (CryptState.dst_after r) = 5%nat.
Proof.
  intros r.
  destruct (encrypt_packet_layout AES128.AES_encrypt CryptFixture.sender [1]
              (replicate 5 0)) as (Hr & _ & _ & Hl).
  - reflexivity.
  - vm_compute. lia.
  - reflexivity.
  - split; [exact Hr | exact Hl].
Defined.

(** X2.  [decrypt] rebuilds the 32-bit receive counter from the nonce byte of
    the packet: the rebuilt counter has that byte as its low byte and lies
    within -128 .. +127 of [decryptNonce_] (modulo 2^32); a packet carrying
    the low byte of [decryptNonce_] itself rebuilds exactly [decryptNonce_]. *)
Theorem nonce_prediction (st : CryptState.t) (src : list Z) :
  0 <= CryptState.decryptNonce_ st < 2 ^ 32 -> 0 <= Buf.rd src 0 < 256 ->
  let p := CryptState.predicted st src in
  p mod 256 = Buf.rd src 0 /\
  (exists d : Z, -128 <= d <= 127 /\ p = Int.u32 (CryptState.decryptNonce_ st + d)) /\
  (Buf.rd src 0 = Int.u8 (CryptState.decryptNonce_ st) ->
   p = CryptState.decryptNonce_ st).
Proof.
  intros Hd Hb. cbv zeta. unfold CryptState.predicted, Int.u32, Int.i8, Int.u8.
  change (2 ^ 32) with 4294967296 in *.
  set (dec := CryptState.decryptNonce_ st) in *. set (b := Buf.rd src 0) in *.
  clearbody dec b.
  split; [|split].
  - rewrite Z.mod_mod_divide by (exists 16777216; reflexivity).
    pose proof (Z.div_mod dec 256 ltac:(lia)) as H1.
    pose proof (Z.div_mod (b - dec mod 256 + 128) 256 ltac:(lia)) as H2.
    replace (dec + ((b - dec mod 256 + 128) mod 256 - 128))
      with (b + (dec / 256 - (b - dec mod 256 + 128) / 256) * 256) by lia.
    rewrite Z.mod_add by lia. apply Z.mod_small. lia.
  - exists ((b - dec mod 256 + 128) mod 256 - 128).
    pose proof (Z.mod_pos_bound (b - dec mod 256 + 128) 256 ltac:(lia)) as Hm.
    split; [lia | reflexivity].
  - intros Hb'. rewrite Hb', Z.sub_diag. change ((0 + 128) mod 256 - 128) with 0.
    rewrite Z.add_0_r. apply Z.mod_small. lia.
Qed.

Lemma nonce_prediction_witness :
  CryptState.predicted CryptFixture.receiver (CryptFixture.seal [1]) mod 256
  = Buf.rd (CryptFixture.seal [1]) 0.
Proof.
  apply (nonce_prediction CryptFixture.receiver (CryptFixture.seal [1])).
  - vm_compute. split; [discriminate | reflexivity].
  - vm_compute. split; [discriminate | reflexivity].
Defined.

(** X3.  [decrypt] refuses a packet shorter than four bytes, and any packet
    while the state is uninitialised, without touching the state or either
    buffer: no resync is requested and the receive counter stays. *)
Theorem decrypt_refuses_without_effect
  (AES_encrypt : list Z -> CryptState.AES_KEY -> list Z)
  (st : CryptState.t) (src dst : list Z) :
  CryptState.initialized_ st = false \/ (length src < 4)%nat ->
  CryptState.decrypt AES_encrypt st src dst = CryptState.mkOutcome false st src dst.
Proof.
  intros H. unfold CryptState.decrypt.
  destruct H as [-> | H]; [reflexivity|].
  apply Nat.ltb_lt in H. rewrite H, orb_true_r. reflexivity.
Qed.

Lemma decrypt_refuses_without_effect_witness :
  CryptState.decrypt AES128.AES_encrypt CryptFixture.receiver [1; 2; 3] [0]
  = CryptState.mkOutcome false CryptFixture.receiver [1; 2; 3] [0].
Proof.
  apply decrypt_refuses_without_effect. right. simpl. lia.
Defined.

(** ** [CryptState::shift]: doubling in GF(2^128) *)

Section ShiftProps.

(** A test on two bytes that passes on all 65536 pairs passes on any two
    bytes. *)
Lemma byte_pairs (q : Z -> Z -> bool) :
  forallb (fun a => forallb (q a) (seqZ 0 256)) (seqZ 0 256) = true ->
  forall a b : Z, 0 <= a < 256 -> 0 <= b < 256 -> q a b = true.
Proof.
  intros Hall a b Ha Hb. rewrite forallb_forall in Hall.
  assert (Hrow : forallb (q a) (seqZ 0 256) = true)
    by (apply Hall, list_elem_of_In, elem_of_seqZ; lia).
  rewrite forallb_forall in Hrow. apply Hrow, list_elem_of_In, elem_of_seqZ. lia.
Qed.

(** The inner store of [shift]: the byte doubled, with the top bit of the
    next byte shifted in. *)
Lemma shift_byte (a b : Z) :
  0 <= a < 256 -> 0 <= b < 256 ->
  Int.u8 (Z.lor (Z.shiftl a 1) (Z.shiftr b 7)) = (2 * a) mod 256 + b / 128.
Proof.
  intros Ha Hb. apply Z.eqb_eq.
  apply (byte_pairs (fun a b =>
    Int.u8 (Z.lor (Z.shiftl a 1) (Z.shiftr b 7)) =? (2 * a) mod 256 + b / 128));
    [vm_compute; reflexivity | exact Ha | exact Hb].
Qed.

(** The last store of [shift]. *)
Lemma shift_last (a c : Z) :
  0 <= a < 256 -> 0 <= c < 256 ->
  Int.u8 (Z.lxor (Z.shiftl a 1) c) = Z.lxor ((2 * a) mod 256) c /\
  0 <= Z.lxor a c < 256.
Proof.
  intros Ha Hc.
  pose proof (byte_pairs (fun a c =>
    (Int.u8 (Z.lxor (Z.shiftl a 1) c) =? Z.lxor ((2 * a) mod 256) c)
    && (0 <=? Z.lxor a c) && (Z.lxor a c <? 256)) ltac:(vm_compute; reflexivity)
    a c Ha Hc) as H.
  apply andb_true_iff in H as [H H3]. apply andb_true_iff in H as [H1 H2].
  apply Z.eqb_eq in H1. apply Z.leb_le in H2. apply Z.ltb_lt in H3. auto.
Qed.

Lemma testbit_low (H L n : Z) :
  0 <= L < 256 -> 0 <= n ->
  Z.testbit (256 * H + L) n = if n <? 8 then Z.testbit L n else Z.testbit H (n - 8).
Proof.
  intros HL Hn. destruct (Z.ltb_spec n 8) as [Hlt|Hge].
  - rewrite <- (Z.mod_pow2_bits_low (256 * H + L) 8 n) by lia.
    change (2 ^ 8) with 256.
    replace ((256 * H + L) mod 256) with L; [reflexivity|].
    rewrite Z.add_comm, Z.mul_comm, Z.mod_add by lia. symmetry. apply Z.mod_small. lia.
  - replace n with ((n - 8) + 8) at 1 by lia.
    rewrite <- Z.div_pow2_bits by lia. change (2 ^ 8) with 256.
    replace ((256 * H + L) / 256) with H; [reflexivity|].
    rewrite Z.add_comm, Z.mul_comm, Z.div_add by lia.
    rewrite Z.div_small by lia. reflexivity.
Qed.

(** Xor with a byte only touches the low byte. *)
Lemma lxor_low (H L c : Z) :
  0 <= L < 256 -> 0 <= c < 256 ->
  Z.lxor (256 * H + L) c = 256 * H + Z.lxor L c.
Proof.
  intros HL Hc. destruct (shift_last L c HL Hc) as [_ Hx].
  apply Z.bits_inj'. intros n Hn.
  rewrite Z.lxor_spec, !testbit_low by lia.
  destruct (Z.ltb_spec n 8) as [Hlt|Hge].
  - rewrite Z.lxor_spec. reflexivity.
  - replace (Z.testbit c n) with false; [apply xorb_false_r|].
    symmetry. apply Z.bits_above_log2; [lia|].
    destruct (Z.eq_dec c 0) as [->|Hc0]; [cbn; lia|].
    apply Z.log2_lt_pow2; [lia|]. apply Z.lt_le_trans with (2 ^ 8); [exact (proj2 Hc)|].
    apply Z.pow_le_mono_r; lia.
Qed.

End ShiftProps.

(** X4.  On a block of sixteen bytes [shift] is doubling in GF(2^128): read
    as a big-endian number, the result is twice the input reduced modulo
    2^128, xor-ed with 0x87 when the top bit of the input was set; every
    result byte is a byte. *)
Theorem shift_doubles (src : list Z) :
  length src = 16%nat -> Forall (fun b => 0 <= b < 256) src ->
  let v := CryptState.blockValue src in
  length (CryptState.shift src) = 16%nat /\
  Forall (fun b => 0 <= b < 256) (CryptState.shift src) /\
  CryptState.blockValue (CryptState.shift src) =
    Z.lxor ((2 * v) mod 2 ^ 128) (if 2 ^ 127 <=? v then 135 else 0).
Proof.
  intros Hlen Hbytes.
  destruct src as [|b0 [|b1 [|b2 [|b3 [|b4 [|b5 [|b6 [|b7 [|b8 [|b9 [|b10 [|b11 [|b12 [|b13 [|b14 [|b15 [|? ?]]]]]]]]]]]]]]]]];
    try discriminate Hlen. clear Hlen.
  repeat rewrite Forall_cons in Hbytes.
  destruct Hbytes as [H0 [H1 [H2 [H3 [H4 [H5 [H6 [H7 [H8 [H9 [H10 [H11 [H12 [H13 [H14 [H15 _]]]]]]]]]]]]]]]].
  cbv zeta.
  unfold CryptState.shift. cbn [seq map app Buf.rd nth].
  assert (Hcarry : (Z.shiftr b0 7 =? 0) = (b0 <? 128)).
  { rewrite Z.shiftr_div_pow2 by lia. change (2 ^ 7) with 128.
    destruct (Z.ltb_spec b0 128).
    - rewrite Z.div_small by lia. reflexivity.
    - destruct (Z.eqb_spec (b0 / 128) 0) as [E|_]; [|reflexivity].
      apply Z.div_small_iff in E; lia. }
  rewrite Hcarry. clear Hcarry.
  rewrite !shift_byte by assumption.
  set (c := if b0 <? 128 then 0 else 135).
  assert (Hc : 0 <= c < 256) by (unfold c; destruct (b0 <? 128); lia).
  destruct (shift_last b15 c H15 Hc) as [Hlast _]. rewrite Hlast. clear Hlast.
  assert (Hdbl : forall b : Z, (2 * b) mod 256 = 2 * (b mod 128))
    by (intros b; apply (Z.mul_mod_distr_l b 128 2); lia).
  rewrite !Hdbl.
  assert (Hx : 0 <= Z.lxor (2 * (b15 mod 128)) c < 256).
  { apply shift_last; [|exact Hc].
    pose proof (Z.mod_pos_bound b15 128 ltac:(lia)). lia. }
  pose proof (Z.div_mod b0 128 ltac:(lia)) as D0.
  pose proof (Z.mod_pos_bound b0 128 ltac:(lia)) as R0.
  assert (Q0 : 0 <= b0 / 128 < 2)
    by (split; [apply Z.div_pos; lia | apply Z.div_lt_upper_bound; lia]).
  set (q0 := b0 / 128) in *. set (r0 := b0 mod 128) in *.
  clearbody q0 r0.
  pose proof (Z.div_mod b1 128 ltac:(lia)) as D1.
  pose proof (Z.mod_pos_bound b1 128 ltac:(lia)) as R1.
  assert (Q1 : 0 <= b1 / 128 < 2)
    by (split; [apply Z.div_pos; lia | apply Z.div_lt_upper_bound; lia]).
  set (q1 := b1 / 128) in *. set (r1 := b1 mod 128) in *.
  clearbody q1 r1.
  pose proof (Z.div_mod b2 128 ltac:(lia)) as D2.
  pose proof (Z.mod_pos_bound b2 128 ltac:(lia)) as R2.
  assert (Q2 : 0 <= b2 / 128 < 2)
    by (split; [apply Z.div_pos; lia | apply Z.div_lt_upper_bound; lia]).
  set (q2 := b2 / 128) in *. set (r2 := b2 mod 128) in *.
  clearbody q2 r2.
  pose proof (Z.div_mod b3 128 ltac:(lia)) as D3.
  pose proof (Z.mod_pos_bound b3 128 ltac:(lia)) as R3.
  assert (Q3 : 0 <= b3 / 128 < 2)
    by (split; [apply Z.div_pos; lia | apply Z.div_lt_upper_bound; lia]).
  set (q3 := b3 / 128) in *. set (r3 := b3 mod 128) in *.
  clearbody q3 r3.
  pose proof (Z.div_mod b4 128 ltac:(lia)) as D4.
  pose proof (Z.mod_pos_bound b4 128 ltac:(lia)) as R4.
  assert (Q4 : 0 <= b4 / 128 < 2)
    by (split; [apply Z.div_pos; lia | apply Z.div_lt_upper_bound; lia]).
  set (q4 := b4 / 128) in *. set (r4 := b4 mod 128) in *.
  clearbody q4 r4.
  pose proof (Z.div_mod b5 128 ltac:(lia)) as D5.
  pose proof (Z.mod_pos_bound b5 128 ltac:(lia)) as R5.
  assert (Q5 : 0 <= b5 / 128 < 2)
    by (split; [apply Z.div_pos; lia | apply Z.div_lt_upper_bound; lia]).
  set (q5 := b5 / 128) in *. set (r5 := b5 mod 128) in *.
  clearbody q5 r5.
  pose proof (Z.div_mod b6 128 ltac:(lia)) as D6.
  pose proof (Z.mod_pos_bound b6 128 ltac:(lia)) as R6.
  assert (Q6 : 0 <= b6 / 128 < 2)
    by (split; [apply Z.div_pos; lia | apply Z.div_lt_upper_bound; lia]).
  set (q6 := b6 / 128) in *. set (r6 := b6 mod 128) in *.
  clearbody q6 r6.
  pose proof (Z.div_mod b7 128 ltac:(lia)) as D7.
  pose proof (Z.mod_pos_bound b7 128 ltac:(lia)) as R7.
  assert (Q7 : 0 <= b7 / 128 < 2)
    by (split; [apply Z.div_pos; lia | apply Z.div_lt_upper_bound; lia]).
  set (q7 := b7 / 128) in *. set (r7 := b7 mod 128) in *.
  clearbody q7 r7.
  pose proof (Z.div_mod b8 128 ltac:(lia)) as D8.
  pose proof (Z.mod_pos_bound b8 128 ltac:(lia)) as R8.
  assert (Q8 : 0 <= b8 / 128 < 2)
    by (split; [apply Z.div_pos; lia | apply Z.div_lt_upper_bound; lia]).
  set (q8 := b8 / 128) in *. set (r8 := b8 mod 128) in *.
  clearbody q8 r8.
  pose proof (Z.div_mod b9 128 ltac:(lia)) as D9.
  pose proof (Z.mod_pos_bound b9 128 ltac:(lia)) as R9.
  assert (Q9 : 0 <= b9 / 128 < 2)
    by (split; [apply Z.div_pos; lia | apply Z.div_lt_upper_bound; lia]).
  set (q9 := b9 / 128) in *. set (r9 := b9 mod 128) in *.
  clearbody q9 r9.
  pose proof (Z.div_mod b10 128 ltac:(lia)) as D10.
  pose proof (Z.mod_pos_bound b10 128 ltac:(lia)) as R10.
  assert (Q10 : 0 <= b10 / 128 < 2)
    by (split; [apply Z.div_pos; lia | apply Z.div_lt_upper_bound; lia]).
  set (q10 := b10 / 128) in *. set (r10 := b10 mod 128) in *.
  clearbody q10 r10.
  pose proof (Z.div_mod b11 128 ltac:(lia)) as D11.
  pose proof (Z.mod_pos_bound b11 128 ltac:(lia)) as R11.
  assert (Q11 : 0 <= b11 / 128 < 2)
    by (split; [apply Z.div_pos; lia | apply Z.div_lt_upper_bound; lia]).
  set (q11 := b11 / 128) in *. set (r11 := b11 mod 128) in *.
  clearbody q11 r11.
  pose proof (Z.div_mod b12 128 ltac:(lia)) as D12.
  pose proof (Z.mod_pos_bound b12 128 ltac:(lia)) as R12.
  assert (Q12 : 0 <= b12 / 128 < 2)
    by (split; [apply Z.div_pos; lia | apply Z.div_lt_upper_bound; lia]).
  set (q12 := b12 / 128) in *. set (r12 := b12 mod 128) in *.
  clearbody q12 r12.
  pose proof (Z.div_mod b13 128 ltac:(lia)) as D13.
  pose proof (Z.mod_pos_bound b13 128 ltac:(lia)) as R13.
  assert (Q13 : 0 <= b13 / 128 < 2)
    by (split; [apply Z.div_pos; lia | apply Z.div_lt_upper_bound; lia]).
  set (q13 := b13 / 128) in *. set (r13 := b13 mod 128) in *.
  clearbody q13 r13.
  pose proof (Z.div_mod b14 128 ltac:(lia)) as D14.
  pose proof (Z.mod_pos_bound b14 128 ltac:(lia)) as R14.
  assert (Q14 : 0 <= b14 / 128 < 2)
    by (split; [apply Z.div_pos; lia | apply Z.div_lt_upper_bound; lia]).
  set (q14 := b14 / 128) in *. set (r14 := b14 mod 128) in *.
  clearbody q14 r14.
  pose proof (Z.div_mod b15 128 ltac:(lia)) as D15.
  pose proof (Z.mod_pos_bound b15 128 ltac:(lia)) as R15.
  assert (Q15 : 0 <= b15 / 128 < 2)
    by (split; [apply Z.div_pos; lia | apply Z.div_lt_upper_bound; lia]).
  set (q15 := b15 / 128) in *. set (r15 := b15 mod 128) in *.
  clearbody q15 r15.
  split; [reflexivity|]. split.
  - repeat (apply Forall_cons; split; [lia|]). apply Forall_nil_2.
  - unfold CryptState.blockValue. cbn [fold_left].
    change (2 ^ 128) with 340282366920938463463374607431768211456.
    change (2 ^ 127) with 170141183460469231731687303715884105728.
    assert (Htop : (170141183460469231731687303715884105728 <=?
                    ((((((((((((((((0 * 256 + b0) * 256 + b1) * 256 + b2) * 256 + b3)
                     * 256 + b4) * 256 + b5) * 256 + b6) * 256 + b7) * 256 + b8)
                     * 256 + b9) * 256 + b10) * 256 + b11) * 256 + b12) * 256
                     + b13) * 256 + b14) * 256 + b15))
                   = negb (b0 <? 128)).
    { destruct (Z.ltb_spec b0 128); cbn [negb].
      - apply Z.leb_gt. lia.
      - apply Z.leb_le. lia. }
    rewrite Htop. clear Htop.
    replace (if negb (b0 <? 128) then 135 else 0) with c
      by (unfold c; destruct (b0 <? 128); reflexivity).
    clearbody c.
    match goal with
    | |- ?hi * 256 + _ = _ =>
        replace ((2 * ((((((((((((((((0 * 256 + b0) * 256 + b1) * 256 + b2) * 256 + b3)
                     * 256 + b4) * 256 + b5) * 256 + b6) * 256 + b7) * 256 + b8)
                     * 256 + b9) * 256 + b10) * 256 + b11) * 256 + b12) * 256
                     + b13) * 256 + b14) * 256 + b15))
                 mod 340282366920938463463374607431768211456)
          with (256 * hi + 2 * r15)
    end.
    + rewrite lxor_low by lia. lia.
    + apply (Z.mod_unique_pos _ _ q0); lia.
Qed.

Lemma shift_doubles_witness :
  CryptState.blockValue (CryptState.shift (128 :: replicate 15 0)) =
  Z.lxor ((2 * CryptState.blockValue (128 :: replicate 15 0)) mod 2 ^ 128)
         (if 2 ^ 127 <=? CryptState.blockValue (128 :: replicate 15 0) then 135 else 0).
Proof.
  apply (shift_doubles (128 :: replicate 15 0)).
  - reflexivity.
  - repeat (apply Forall_cons; split; [lia|]). apply Forall_nil_2.
Defined.

(** ** [UserAudioBuffer::readFloat]: what is popped and what is padded *)

Section ReadFloatMore.

Import UserAudioBuffer.

(** A fade stays inside the first [frames] cells. *)
Lemma applyFadeIn_outside c (samples : list (cell F32.float)) frames (k : nat) :
  (frames <= k)%nat ->
  Crossfade.applyFadeIn c samples frames !! k = samples !! k.
Proof.
  intros Hk. unfold Crossfade.applyFadeIn.
  destruct (decide (k < length samples)%nat) as [Hlt|Hge].
  - rewrite fadeLoop_lookup by exact Hlt.
    rewrite bool_decide_eq_false_2; [reflexivity|].
    unfold Crossfade.applyFrames. lia.
  - rewrite !lookup_ge_None_2; [reflexivity| lia |rewrite fadeLoop_length; lia].
Qed.

Lemma applyFadeOut_outside c (samples : list (cell F32.float)) frames (k : nat) :
  (frames <= k)%nat ->
  Crossfade.applyFadeOut c samples frames !! k = samples !! k.
Proof.
  intros Hk. unfold Crossfade.applyFadeOut.
  destruct (decide (k < length samples)%nat) as [Hlt|Hge].
  - rewrite fadeLoop_lookup by exact Hlt.
    rewrite bool_decide_eq_false_2; [reflexivity|].
    unfold Crossfade.applyFrames. lia.
  - rewrite !lookup_ge_None_2; [reflexivity| lia |rewrite fadeLoop_length; lia].
Qed.

Lemma fillZero_lookup_any from to (output : list (cell F32.float)) (k : nat) :
  (from <= to <= length output)%nat ->
  fillZero from to output !! k =
  if bool_decide (from <= k < to)%nat then Some (Some F32.zero) else output !! k.
Proof. apply fillZero_lookup. Qed.

(** The cells from [readFrames] on after the copy loop and the padding. *)
Lemma read_and_pad_tail buffer (output : list (cell F32.float)) frames (k : nat) :
  (frames <= length output)%nat ->
  let readFrames := Nat.min frames (length buffer) in
  let output1 := snd (readLoop readFrames 0 buffer output) in
  let output2 := if (readFrames <? frames)%nat
                 then fillZero readFrames frames output1 else output1 in
  (readFrames <= k)%nat ->
  output2 !! k =
  if bool_decide (k < frames)%nat then Some (Some F32.zero) else output !! k.
Proof.
  intros Hlen readFrames output1 output2 Hk.
  assert (Hl1 : length output1 = length output) by apply readLoop_length.
  assert (H1 : output1 !! k = output !! k).
  { destruct (decide (k < length output)%nat) as [Hlt|Hge].
    - unfold output1. rewrite readLoop_lookup by (unfold readFrames; lia).
      rewrite bool_decide_eq_false_2 by lia. reflexivity.
    - rewrite !lookup_ge_None_2 by lia. reflexivity. }
  unfold output2. destruct (Nat.ltb_spec readFrames frames) as [Hlt|Hge].
  - rewrite fillZero_lookup by lia.
    destruct (decide (k < frames)%nat) as [Hkf|Hkf].
    + rewrite !bool_decide_eq_true_2 by lia. reflexivity.
    + rewrite !bool_decide_eq_false_2 by lia. exact H1.
  - rewrite bool_decide_eq_false_2 by lia. exact H1.
Qed.

Lemma readFloatStarted_pops st (output : list (cell F32.float)) frames :
  (frames <= length output)%nat ->
  let r := readFloatStarted st output frames in
  (fst (fst r) <= frames)%nat /\
  buffer_ (snd (fst r)) = drop (fst (fst r)) (buffer_ st) /\
  (fst (fst r) <= length (buffer_ st))%nat /\
  length (snd r) = length output /\
  forall k : nat, (fst (fst r) <= k)%nat ->
    snd r !! k =
    if bool_decide (k < frames)%nat then Some (Some F32.zero) else output !! k.
Proof.
  intros Hlen. cbv zeta. unfold readFloatStarted.
  destruct (bufferEmpty st) eqn:He.
  - cbn [fst snd buffer_ set_stats_ set_needsFadeIn_ set_playbackStarted_].
    split; [lia|]. split; [reflexivity|]. split; [lia|].
    split; [apply fillZero_length; lia|].
    intros k _. rewrite fillZero_lookup by lia.
    destruct (decide (k < frames)%nat).
    + rewrite !bool_decide_eq_true_2 by lia. reflexivity.
    + rewrite !bool_decide_eq_false_2 by lia. reflexivity.
  - pose proof (readLoop_fst (Nat.min frames (length (buffer_ st))) 0 (buffer_ st) output) as Hb.
    destruct (read_and_pad_written (buffer_ st) output frames Hlen) as [Hl2 _].
    pose proof (fun k => read_and_pad_tail (buffer_ st) output frames k Hlen) as Ht.
    cbv zeta in Ht.
    destruct (readLoop _ _ _ _) as [buffer output1]. cbn [fst snd] in Hb, Hl2, Ht.
    subst buffer.
    set (readFrames := Nat.min frames (length (buffer_ st))) in *.
    set (output2 := if (_ <? _)%nat then _ else _) in *.
    destruct (needsFadeIn_ _); destruct (needsFadeOut_ _ && _);
      cbn [fst snd buffer_ set_buffer_ set_stats_ set_needsFadeIn_ set_needsFadeOut_];
      (split; [lia|]); (split; [reflexivity|]); (split; [lia|]);
      rewrite ?applyFadeOut_length, ?applyFadeIn_length;
      (split; [exact Hl2|]); intros k Hk;
      rewrite ?applyFadeOut_outside, ?applyFadeIn_outside by exact Hk;
      apply Ht; exact Hk.
Qed.

End ReadFloatMore.

(** X5.  [readFloat] pops exactly the samples it returns and pads the rest:
    the return value is at most [frames] and at most the ring size, the ring
    afterwards is the old ring without its first [ret] samples, every output
    cell from [ret] up to [frames] holds 0.0, and no cell from [frames] on
    is touched. *)
Theorem readFloat_pops_and_pads
  (st : UserAudioBuffer.t) (output : list (cell F32.float)) (frames : nat) :
  (frames <= length output)%nat ->
  let r := UserAudioBuffer.readFloat st output frames in
  let ret := fst (fst r) in
  (ret <= frames)%nat /\ (ret <= length (UserAudioBuffer.buffer_ st))%nat /\
  UserAudioBuffer.buffer_ (snd (fst r)) = drop ret (UserAudioBuffer.buffer_ st) /\
  length (snd r) = length output /\
  (forall k : nat, (ret <= k < frames)%nat -> snd r !! k = Some (Some F32.zero)) /\
  (forall k : nat, (frames <= k)%nat -> snd r !! k = output !! k).
Proof.
  intros Hlen. cbv zeta.
  assert (Hgen :
    let r := UserAudioBuffer.readFloat st output frames in
    (fst (fst r) <= frames)%nat /\
    UserAudioBuffer.buffer_ (snd (fst r)) = drop (fst (fst r)) (UserAudioBuffer.buffer_ st) /\
    (fst (fst r) <= length (UserAudioBuffer.buffer_ st))%nat /\
    length (snd r) = length output /\
    forall k : nat, (fst (fst r) <= k)%nat ->
      snd r !! k =
      if bool_decide (k < frames)%nat then Some (Some F32.zero) else output !! k).
  { cbv zeta. unfold UserAudioBuffer.readFloat.
    destruct (UserAudioBuffer.playbackStarted_ st); cbn [negb].
    - by apply readFloatStarted_pops.
    - destruct (UserAudioBuffer.bufferSize st >=? UserAudioBuffer.minBufferSize_ st).
      + apply (readFloatStarted_pops
                 (UserAudioBuffer.set_needsFadeIn_
                    (UserAudioBuffer.set_playbackStarted_ st true) true)).
        exact Hlen.
      + cbn [fst snd]. split; [lia|]. split; [reflexivity|]. split; [lia|].
        split; [apply fillZero_length; lia|].
        intros k _. rewrite fillZero_lookup by lia.
        destruct (decide (k < frames)%nat).
        * rewrite !bool_decide_eq_true_2 by lia. reflexivity.
        * rewrite !bool_decide_eq_false_2 by lia. reflexivity. }
  cbv zeta in Hgen. destruct Hgen as (H1 & H2 & H3 & H4 & H5).
  split; [exact H1|]. split; [exact H3|]. split; [exact H2|]. split; [exact H4|].
  split.
  - intros k [Hk1 Hk2]. rewrite H5 by exact Hk1.
    rewrite bool_decide_eq_true_2 by exact Hk2. reflexivity.
  - intros k Hk. rewrite H5 by lia.
    rewrite bool_decide_eq_false_2 by lia. reflexivity.
Qed.

Lemma readFloat_pops_and_pads_witness :
  let st := AudioRun.feed AudioFixture.fresh (AudioFixture.frames 1) in
  let r := UserAudioBuffer.readFloat st (AudioFixture.blank 480) 480 in
  (fst (fst r) <= 480)%nat /\
  UserAudioBuffer.buffer_ (snd (fst r)) = drop (fst (fst r)) (UserAudioBuffer.buffer_ st).
Proof.
  intros st r.
  destruct (readFloat_pops_and_pads st (AudioFixture.blank 480) 480) as (H1 & _ & H3 & _).
  - simpl. lia.
  - split; [exact H1 | exact H3].
Defined.

(** ** The statistics of a [UserAudioBuffer] *)

Section StatsProps.

Import UserAudioBuffer.

(** What [getStats] reports agrees with the members. *)
Let consistent (st : t) : Prop :=
  currentBufferSize (stats_ st) = bufferSize st /\
  lastSequence (stats_ st) = lastSequence_ st /\
  packetsReceived (stats_ st) =
    Int.u32 (plcFrames (stats_ st) + packetsDecoded (stats_ st)) /\
  (playbackStarted_ st = false -> needsFadeIn_ st = true).

Lemma detectSequenceGap_counters st sequence :
  let st' := detectSequenceGap st sequence in
  packetsReceived (stats_ st') = packetsReceived (stats_ st) /\
  plcFrames (stats_ st') = plcFrames (stats_ st) /\
  packetsDecoded (stats_ st') = packetsDecoded (stats_ st).
Proof.
  unfold detectSequenceGap.
  repeat match goal with
         | |- context [if ?c then _ else _] => destruct c
         end; cbn; repeat split; reflexivity.
Qed.

Lemma addSamples_counters st samples sequence isPLC now :
  let st' := addSamples st samples sequence isPLC now in
  currentBufferSize (stats_ st') = bufferSize st' /\
  lastSequence (stats_ st') = sequence /\
  packetsReceived (stats_ st') = Int.u32 (packetsReceived (stats_ st) + 1) /\
  plcFrames (stats_ st') =
    (if isPLC then Int.u32 (plcFrames (stats_ st) + 1) else plcFrames (stats_ st)) /\
  packetsDecoded (stats_ st') =
    (if isPLC then packetsDecoded (stats_ st)
     else Int.u32 (packetsDecoded (stats_ st) + 1)).
Proof.
  unfold addSamples, convertToFloat.
  destruct (evict _ _ _) as [buffer overruns] eqn:Hev. cbn.
  repeat match goal with
         | |- context [if ?c then _ else _] => destruct c
         end; cbn;
    repeat match goal with
           | |- context [detectSequenceGap ?s ?q] =>
               let H := fresh "H" in
               pose proof (detectSequenceGap_counters s q) as H; cbv zeta in H;
               generalize dependent (detectSequenceGap s q); intros
           end; cbn in *; intuition congruence.
Qed.

Lemma readFloatStarted_consistent st (output : list (cell F32.float)) frames :
  playbackStarted_ st = true ->
  consistent st -> consistent (snd (fst (readFloatStarted st output frames))).
Proof.
  intros Hs (Hc & Hl & Hp & Hf). unfold readFloatStarted, consistent.
  destruct (bufferEmpty st) eqn:He.
  - unfold bufferEmpty in He. unfold bufferSize in *. cbn.
    destruct (buffer_ st); [|discriminate]. repeat split; auto.
  - destruct (readLoop _ _ _ _) as [buffer output1].
    repeat match goal with
           | |- context [if ?c then _ else _] => destruct c
           end; unfold bufferSize; cbn; rewrite Hs; repeat split;
      try assumption; discriminate.
Qed.

Lemma reachable_consistent sinf st :
  AudioRun.reachable sinf st -> consistent st.
Proof.
  induction 1 as [userId config now Hf| st samples sequence isPLC now _ IH
                 | st output frames _ IH | st _ IH | st _ IH].
  - unfold consistent. cbn. repeat split; reflexivity.
  - destruct IH as (Hc & Hl & Hp & Hf).
    destruct (addSamples_counters st samples sequence isPLC now)
      as (Ec & El & Er & Ep & Ed).
    destruct (addSamples_frame st samples sequence isPLC now)
      as (_ & _ & _ & Es & Ei & _ & _ & _ & Eq).
    unfold consistent. rewrite Ec, El, Er, Ep, Ed, Es, Ei, Eq, Hp.
    repeat split; [|exact Hf].
    destruct isPLC; cbv iota.
    + rewrite !u32_add_l. f_equal. lia.
    + rewrite (Z.add_comm (plcFrames _) (Int.u32 _)), !u32_add_l. f_equal. lia.
  - unfold readFloat. destruct (playbackStarted_ st) eqn:Hs; cbn [negb].
    + by apply readFloatStarted_consistent.
    + destruct (bufferSize st >=? minBufferSize_ st); [|exact IH].
      apply readFloatStarted_consistent; [reflexivity|].
      destruct IH as (Hc & Hl & Hp & Hf). unfold consistent. cbn.
      repeat split; assumption.
  - unfold consistent. cbn. repeat split; reflexivity.
  - destruct IH as (Hc & Hl & Hp & Hf). unfold consistent. cbn.
    repeat split; assumption.
Qed.

End StatsProps.

(** X6.  In every state reached through the public interface the statistics
    agree with the buffer: [currentBufferSize] is the number of samples in
    the ring, [lastSequence] is the sequence number of the last packet (or
    -1), [packetsReceived] is [plcFrames + packetsDecoded] modulo 2^32, and
    a buffer that is not playing has its fade-in pending. *)
Theorem stats_agree_with_buffer
  (sinf : F32.float -> F32.float) (st : UserAudioBuffer.t) :
  AudioRun.reachable sinf st ->
  UserAudioBuffer.currentBufferSize (UserAudioBuffer.getStats st) =
    UserAudioBuffer.bufferSize st /\
  UserAudioBuffer.lastSequence (UserAudioBuffer.getStats st) =
    UserAudioBuffer.lastSequence_ st /\
  UserAudioBuffer.packetsReceived (UserAudioBuffer.getStats st) =
    Int.u32 (UserAudioBuffer.plcFrames (UserAudioBuffer.getStats st)
             + UserAudioBuffer.packetsDecoded (UserAudioBuffer.getStats st)) /\
  (UserAudioBuffer.playbackStarted_ st = false ->
   UserAudioBuffer.needsFadeIn_ st = true).
Proof. apply reachable_consistent. Qed.

Lemma stats_agree_with_buffer_witness :
  let st := UserAudioBuffer.addSamples AudioFixture.fresh [1000; 2000] 5 true 0 in
  UserAudioBuffer.currentBufferSize (UserAudioBuffer.getStats st) = 2 /\
  UserAudioBuffer.packetsReceived (UserAudioBuffer.getStats st) = 1.
Proof.
  intros st.
  assert (Hr : AudioRun.reachable Libm.sinf st).
  { apply AudioRun.reach_addSamples. apply AudioRun.reach_create. simpl. lia. }
  destruct (stats_agree_with_buffer Libm.sinf st Hr) as (H1 & _ & H3 & _).
  split.
  - rewrite H1. reflexivity.
  - rewrite H3. reflexivity.
Defined.

(** ** The end of a talk spurt *)

Section FadeOutProps.

Import UserAudioBuffer.

(** The copy loop alone, below [readFrames]. *)
Lemma read_and_pad_head buffer (output : list (cell F32.float)) frames (k : nat) :
  (frames <= length output)%nat ->
  let readFrames := Nat.min frames (length buffer) in
  let output1 := snd (readLoop readFrames 0 buffer output) in
  let output2 := if (readFrames <? frames)%nat
                 then fillZero readFrames frames output1 else output1 in
  (k < readFrames)%nat -> output2 !! k = Some (buffer !! k).
Proof.
  intros Hlen readFrames output1 output2 Hk.
  assert (Hl1 : length output1 = length output) by apply readLoop_length.
  assert (H1 : output1 !! k = Some (buffer !! k)).
  { unfold output1. rewrite readLoop_lookup by (unfold readFrames in *; lia).
    rewrite bool_decide_eq_true_2 by lia. by rewrite Nat.sub_0_r. }
  unfold output2. destruct (Nat.ltb_spec readFrames frames) as [Hlt|Hge].
  - rewrite fillZero_lookup by lia.
    rewrite bool_decide_eq_false_2 by lia. exact H1.
  - exact H1.
Qed.

End FadeOutProps.

(** X7.  After [notifyTalkingEnded], a read that empties the ring fades the
    tail out: it returns the whole ring, its last [n = min(size, fadeLength)]
    samples are multiplied by the last [n] entries of the fade-out table,
    the samples before them are copied as they are, the pending fade-out is
    cleared and [fadeOuts] goes up by one. *)
Theorem talk_end_fades_out
  (st : UserAudioBuffer.t) (output : list (cell F32.float)) (frames : nat) :
  UserAudioBuffer.playbackStarted_ st = true ->
  UserAudioBuffer.needsFadeIn_ st = false ->
  (0 < length (UserAudioBuffer.buffer_ st) <= frames)%nat ->
  (frames <= length output)%nat ->
  AudioRun.tables_ok (UserAudioBuffer.crossfade_ st) ->
  let r := UserAudioBuffer.readFloat (UserAudioBuffer.notifyTalkingEnded st)
                                     output frames in
  let size := length (UserAudioBuffer.buffer_ st) in
  let fadeLength :=
    Z.to_nat (Crossfade.fadeLength_ (UserAudioBuffer.crossfade_ st)) in
  let n := Nat.min size fadeLength in
  fst (fst r) = size /\
  UserAudioBuffer.buffer_ (snd (fst r)) = [] /\
  UserAudioBuffer.needsFadeOut_ (snd (fst r)) = false /\
  UserAudioBuffer.fadeOuts (UserAudioBuffer.stats_ (snd (fst r))) =
    Int.u32 (UserAudioBuffer.fadeOuts (UserAudioBuffer.stats_ st) + 1) /\
  (forall k : nat, (k < size - n)%nat ->
     snd r !! k = Some (UserAudioBuffer.buffer_ st !! k)) /\
  (forall i : nat, (i < n)%nat ->
     snd r !! (size - n + i)%nat =
     Some (match UserAudioBuffer.buffer_ st !! (size - n + i)%nat,
                 Crossfade.fadeOut_ (UserAudioBuffer.crossfade_ st)
                   !! (fadeLength - n + i)%nat with
           | Some x, Some f => Some (F32.mul x f)
           | _, _ => None
           end)).
Proof.
  intros Hs Hin Hfr Hlen Hc. cbv zeta.
  unfold UserAudioBuffer.readFloat, UserAudioBuffer.notifyTalkingEnded.
  cbn [UserAudioBuffer.playbackStarted_ UserAudioBuffer.set_needsFadeOut_].
  rewrite Hs. cbn [negb]. unfold UserAudioBuffer.readFloatStarted.
  assert (He : UserAudioBuffer.bufferEmpty
                 (UserAudioBuffer.set_needsFadeOut_ st true) = false).
  { unfold UserAudioBuffer.bufferEmpty. cbn.
    destruct (UserAudioBuffer.buffer_ st); [simpl in Hfr; lia | reflexivity]. }
  rewrite He.
  cbn [UserAudioBuffer.buffer_ UserAudioBuffer.set_needsFadeOut_].
  rewrite Nat.min_r by lia.
  pose proof (readLoop_fst (length (UserAudioBuffer.buffer_ st)) 0
                (UserAudioBuffer.buffer_ st) output) as Hb.
  pose proof (fun k => read_and_pad_head (UserAudioBuffer.buffer_ st) output frames k Hlen)
    as Hh.
  destruct (read_and_pad_written (UserAudioBuffer.buffer_ st) output frames Hlen)
    as [Hl2 _].
  cbv zeta in Hh, Hl2. rewrite Nat.min_r in Hh, Hl2 by lia.
  destruct (UserAudioBuffer.readLoop _ _ _ _) as [buffer output1].
  cbn [fst snd] in Hb, Hh, Hl2. rewrite drop_all in Hb. subst buffer.
  set (size := length (UserAudioBuffer.buffer_ st)) in *.
  set (output2 := if (_ <? _)%nat then _ else _) in *.
  cbn [UserAudioBuffer.needsFadeIn_ UserAudioBuffer.set_buffer_
       UserAudioBuffer.needsFadeOut_ UserAudioBuffer.bufferEmpty
       UserAudioBuffer.buffer_ UserAudioBuffer.crossfade_
       UserAudioBuffer.stats_ UserAudioBuffer.set_stats_
       UserAudioBuffer.set_needsFadeOut_ UserAudioBuffer.fadeOuts
       UserAudioBuffer.set_fadeOuts UserAudioBuffer.set_currentBufferSize
       fst snd andb].
  rewrite Hin.
  cbn [UserAudioBuffer.needsFadeIn_ UserAudioBuffer.set_buffer_
       UserAudioBuffer.needsFadeOut_ UserAudioBuffer.bufferEmpty
       UserAudioBuffer.buffer_ UserAudioBuffer.crossfade_
       UserAudioBuffer.stats_ UserAudioBuffer.set_stats_
       UserAudioBuffer.set_needsFadeOut_ UserAudioBuffer.fadeOuts
       UserAudioBuffer.set_fadeOuts UserAudioBuffer.set_currentBufferSize
       fst snd andb].
  split; [reflexivity|]. split; [reflexivity|]. split; [reflexivity|].
  split; [reflexivity|].
  assert (Hn : Crossfade.applyFrames (UserAudioBuffer.crossfade_ st) size =
               Nat.min size (Z.to_nat (Crossfade.fadeLength_
                                         (UserAudioBuffer.crossfade_ st)))).
  { destruct Hc as [Hf _]. unfold Crossfade.applyFrames.
    rewrite size_t_of_int_id by exact Hf. lia. }
  unfold Crossfade.applyFadeOut. rewrite Hn.
  set (n := Nat.min size _) in *.
  split.
  - intros k Hk. rewrite fadeLoop_lookup by lia.
    rewrite bool_decide_eq_false_2 by lia. apply Hh. lia.
  - intros i Hi. rewrite fadeLoop_lookup by lia.
    rewrite bool_decide_eq_true_2 by lia. rewrite Hh by lia.
    replace (size - n + i - (size - n))%nat with i by lia. reflexivity.
Qed.

Lemma talk_end_fades_out_witness :
  let st :=
    snd (fst (UserAudioBuffer.readFloat
                (AudioRun.feed AudioFixture.fresh (AudioFixture.frames 7))
                (AudioFixture.blank 480) 480)) in
  let r := UserAudioBuffer.readFloat (UserAudioBuffer.notifyTalkingEnded st)
                                     (AudioFixture.blank 2880) 2880 in
  fst (fst r) = 2880%nat /\ UserAudioBuffer.buffer_ (snd (fst r)) = [].
Proof.
  intros st r.
  assert (Hl : length (UserAudioBuffer.buffer_ st) = 2880%nat) by (vm_compute; reflexivity).
  destruct (talk_end_fades_out st (AudioFixture.blank 2880) 2880)
    as (H1 & H2 & _).
  - vm_compute. reflexivity.
  - vm_compute. reflexivity.
  - rewrite Hl. lia.
  - unfold AudioFixture.blank. rewrite length_replicate. lia.
  - unfold AudioRun.tables_ok. vm_compute. repeat split; congruence.
  - split; [rewrite <- Hl; exact H1 | exact H2].
Defined.

(** X8.  While samples remain in the ring the fade-out waits: a read that
    does not empty the ring copies the samples unscaled, leaves the pending
    fade-out set and does not count one. *)
Theorem fade_out_waits_for_last_sample
  (st : UserAudioBuffer.t) (output : list (cell F32.float)) (frames : nat) :
  UserAudioBuffer.playbackStarted_ st = true ->
  UserAudioBuffer.needsFadeIn_ st = false ->
  (frames < length (UserAudioBuffer.buffer_ st))%nat ->
  (frames <= length output)%nat ->
  let r := UserAudioBuffer.readFloat (UserAudioBuffer.notifyTalkingEnded st)
                                     output frames in
  fst (fst r) = frames /\
  UserAudioBuffer.needsFadeOut_ (snd (fst r)) = true /\
  UserAudioBuffer.fadeOuts (UserAudioBuffer.stats_ (snd (fst r))) =
    UserAudioBuffer.fadeOuts (UserAudioBuffer.stats_ st) /\
  (forall k : nat, (k < frames)%nat ->
     snd r !! k = Some (UserAudioBuffer.buffer_ st !! k)).
Proof.
  intros Hs Hin Hfr Hlen. cbv zeta.
  unfold UserAudioBuffer.readFloat, UserAudioBuffer.notifyTalkingEnded.
  cbn [UserAudioBuffer.playbackStarted_ UserAudioBuffer.set_needsFadeOut_].
  rewrite Hs. cbn [negb]. unfold UserAudioBuffer.readFloatStarted.
  assert (He : UserAudioBuffer.bufferEmpty
                 (UserAudioBuffer.set_needsFadeOut_ st true) = false).
  { unfold UserAudioBuffer.bufferEmpty. cbn.
    destruct (UserAudioBuffer.buffer_ st); [simpl in Hfr; lia | reflexivity]. }
  rewrite He.
  cbn [UserAudioBuffer.buffer_ UserAudioBuffer.set_needsFadeOut_].
  rewrite Nat.min_l by lia.
  pose proof (readLoop_fst frames 0 (UserAudioBuffer.buffer_ st) output) as Hb.
  pose proof (fun k => read_and_pad_head (UserAudioBuffer.buffer_ st) output frames k Hlen)
    as Hh.
  cbv zeta in Hh. rewrite Nat.min_l in Hh by lia.
  destruct (UserAudioBuffer.readLoop _ _ _ _) as [buffer output1].
  cbn [fst snd] in Hb, Hh. subst buffer.
  set (output2 := if (_ <? _)%nat then _ else _) in *.
  destruct (drop frames (UserAudioBuffer.buffer_ st)) as [|d ds] eqn:Hd.
  { apply (f_equal length) in Hd. rewrite length_drop in Hd. simpl in Hd. lia. }
  cbn [UserAudioBuffer.needsFadeIn_ UserAudioBuffer.set_buffer_
       UserAudioBuffer.set_needsFadeOut_].
  rewrite Hin. cbn.
  split; [reflexivity|]. split; [reflexivity|]. split; [reflexivity|].
  exact Hh.
Qed.

Lemma fade_out_waits_for_last_sample_witness :
  let st :=
    snd (fst (UserAudioBuffer.readFloat
                (AudioRun.feed AudioFixture.fresh (AudioFixture.frames 7))
                (AudioFixture.blank 480) 480)) in
  let r := UserAudioBuffer.readFloat (UserAudioBuffer.notifyTalkingEnded st)
                                     (AudioFixture.blank 480) 480 in
  fst (fst r) = 480%nat /\ UserAudioBuffer.needsFadeOut_ (snd (fst r)) = true.
Proof.
  intros st r.
  assert (Hl : length (UserAudioBuffer.buffer_ st) = 2880%nat) by (vm_compute; reflexivity).
  destruct (fade_out_waits_for_last_sample st (AudioFixture.blank 480) 480)
    as (H1 & H2 & _).
  - vm_compute. reflexivity.
  - vm_compute. reflexivity.
  - rewrite Hl. lia.
  - unfold AudioFixture.blank. rewrite length_replicate. lia.
  - split; [exact H1 | exact H2].
Defined.

(** X9.  [reset] starts the statistics and the sequence tracking afresh
    but keeps the learned sequence increment: whatever came before, the
    first packet after it is not counted as a gap for any sequence number,
    it is packet number one, the ring holds its samples only (the last
    [maxBufferSize_] of them), and playback has not started. *)
Theorem reset_then_first_packet
  (st : UserAudioBuffer.t) (samples : list Z) (sequence : Z) (isPLC : bool)
  (now : Z) :
  0 <= UserAudioBuffer.maxBufferSize_ st ->
  let st' := UserAudioBuffer.addSamples (UserAudioBuffer.reset st)
               samples sequence isPLC now in
  UserAudioBuffer.buffer_ st' =
    drop (Z.to_nat (Z.of_nat (length samples) - UserAudioBuffer.maxBufferSize_ st))
         (map UserAudioBuffer.toFloat samples) /\
  UserAudioBuffer.sequenceGaps (UserAudioBuffer.stats_ st') = 0 /\
  UserAudioBuffer.packetsReceived (UserAudioBuffer.stats_ st') = 1 /\
  UserAudioBuffer.maxGapMs (UserAudioBuffer.stats_ st') = 0 /\
  UserAudioBuffer.lastSequence_ st' = sequence /\
  UserAudioBuffer.sequenceIncrement_ st' = UserAudioBuffer.sequenceIncrement_ st /\
  UserAudioBuffer.playbackStarted_ st' = false.
Proof.
  intros Hmax. cbv zeta.
  destruct (addSamples_buffer (UserAudioBuffer.reset st) samples sequence isPLC now)
    as [Hb _]; [exact Hmax|].
  cbv zeta in Hb. cbn [UserAudioBuffer.reset UserAudioBuffer.buffer_
                       UserAudioBuffer.maxBufferSize_ app] in Hb.
  rewrite length_map in Hb.
  split; [exact Hb|]. clear Hb.
  unfold UserAudioBuffer.addSamples, UserAudioBuffer.convertToFloat,
    UserAudioBuffer.reset, UserAudioBuffer.detectSequenceGap.
  cbn. destruct (UserAudioBuffer.evict _ _ _) as [buffer overruns].
  destruct isPLC; cbn; repeat split; reflexivity.
Qed.

Lemma reset_then_first_packet_witness :
  let st := AudioRun.feed AudioFixture.fresh (AudioFixture.frames 2) in
  let st' := UserAudioBuffer.addSamples (UserAudioBuffer.reset st)
               [1000] 40 false 0 in
  UserAudioBuffer.sequenceGaps (UserAudioBuffer.stats_ st') = 0 /\
  UserAudioBuffer.packetsReceived (UserAudioBuffer.stats_ st') = 1.
Proof.
  intros st st'.
  destruct (reset_then_first_packet st [1000] 40 false 0) as (_ & H2 & H3 & _).
  - vm_compute. discriminate.
  - split; [exact H2 | exact H3].
Defined.

(** ** The mixer outside its frame *)

Section FloatMixerMore.

Lemma addLoop_outside n i samples mix (k : nat) :
  ~ (i <= k < i + n)%nat ->
  FloatMixer.addLoop n i samples mix !! k = mix !! k.
Proof.
  revert i mix. induction n as [|n IH]; intros i mix Hk; simpl; [reflexivity|].
  rewrite IH by lia. apply list_lookup_insert_ne. lia.
Qed.

Lemma getMixedLoop_outside n i mix (output : list (cell Z)) (k : nat) :
  ~ (i <= k < i + n)%nat ->
  FloatMixer.getMixedLoop n i mix output !! k = output !! k.
Proof.
  revert i output. induction n as [|n IH]; intros i output Hk; simpl; [reflexivity|].
  rewrite IH by lia. apply list_lookup_insert_ne. lia.
Qed.

End FloatMixerMore.

(** X10.  The mixer works on the first [min(frames, frameSize)] positions
    only: [add] leaves the accumulated samples from there on as they were,
    and [getMixed] stores nothing in the caller's array from there on, so a
    caller asking for more than [frameSize] samples gets the rest of its
    array back unwritten. *)
Theorem mixer_stays_in_frame
  (m : FloatMixer.t) (samples : list F32.float) (output : list (cell Z))
  (frames k : nat) :
  FloatMixer.wf m ->
  Z.min (Z.of_nat frames) (FloatMixer.frameSize_ m) <= Z.of_nat k ->
  FloatMixer.mixBuffer_ (FloatMixer.add m samples frames) !! k =
    FloatMixer.mixBuffer_ m !! k /\
  length (FloatMixer.mixBuffer_ (FloatMixer.add m samples frames)) =
    length (FloatMixer.mixBuffer_ m) /\
  FloatMixer.getMixed m output frames !! k = output !! k /\
  length (FloatMixer.getMixed m output frames) = length output.
Proof.
  intros [Hfs Hlen] Hk. unfold FloatMixer.add, FloatMixer.getMixed.
  cbn [FloatMixer.mixBuffer_ FloatMixer.frameSize_].
  rewrite size_t_of_int_id by exact Hfs.
  split; [apply addLoop_outside; lia|].
  split; [apply addLoop_length|].
  split; [apply getMixedLoop_outside; lia|].
  apply getMixedLoop_length.
Qed.

Lemma mixer_stays_in_frame_witness :
  let m := FloatMixer.create 2 in
  FloatMixer.getMixed m [None; None; None] 3 !! 2%nat = Some None.
Proof.
  intros m.
  destruct (mixer_stays_in_frame m [] [None; None; None] 3 2) as (_ & _ & H & _).
  - apply create_wf. lia.
  - simpl. lia.
  - exact H.
Defined.

(** ** The packet map of the jitter buffer *)

Section JitterMapProps.

Import JitterBuffer.

Lemma ascending_cons k v (rest : list (Z * Packet)) :
  ascending ((k, v) :: rest) <->
  Forall (fun kv => k < fst kv) rest /\ ascending rest.
Proof.
  revert k v. induction rest as [|[k' v'] rest IH]; intros k v.
  - simpl. split; [intros _; split; [constructor | exact I] | auto].
  - change (ascending ((k, v) :: (k', v') :: rest))
      with (k < k' /\ ascending ((k', v') :: rest)).
    split.
    + intros [Hlt Ha]. split; [|exact Ha].
      apply IH in Ha as [Hf _]. constructor; [exact Hlt|].
      eapply Forall_impl; [exact Hf|]. cbn. intros; lia.
    + intros [Hf Ha]. split; [|exact Ha]. by inversion Hf.
Qed.

Lemma insert_Forall (P : Z * Packet -> Prop) k v (m : list (Z * Packet)) :
  P (k, v) -> Forall P m -> Forall P (StdMap.insert k v m).
Proof.
  intros Hp. induction m as [|[k' v'] rest IH]; intros Hm; simpl.
  - by constructor.
  - inversion Hm; subst.
    destruct (k <? k'); [by constructor|].
    destruct (k =? k'); constructor; auto.
Qed.

Lemma insert_ascending k v (m : list (Z * Packet)) :
  ascending m -> ascending (StdMap.insert k v m).
Proof.
  induction m as [|[k' v'] rest IH]; intros Ha.
  - simpl. auto.
  - cbn [StdMap.insert].
    destruct (Z.ltb_spec k k') as [Hlt|Hge].
    + change (k < k' /\ ascending ((k', v') :: rest)). auto.
    + apply ascending_cons in Ha as [Hf Ha].
      destruct (Z.eqb_spec k k') as [->|Hne].
      * apply ascending_cons. auto.
      * apply ascending_cons. split; [|auto].
        apply insert_Forall; [cbn; lia | exact Hf].
Qed.

Lemma insert_length k v (m : list (Z * Packet)) :
  (length (StdMap.insert k v m) <= S (length m))%nat.
Proof.
  induction m as [|[k' v'] rest IH]; simpl; [lia|].
  destruct (k <? k'); [simpl; lia|].
  destruct (k =? k'); simpl; lia.
Qed.

(** The size limit keeps the last [kMaxPackets] entries. *)
Lemma limit_drop (m : list (Z * Packet)) :
  limit m = drop (length m - 100) m.
Proof.
  induction m as [|a rest IH]; [reflexivity|].
  cbn [limit]. unfold StdMap.size, kMaxPackets.
  destruct (Z.gtb_spec (Z.of_nat (length (a :: rest))) 100) as [Hgt|Hle].
  - rewrite IH. cbn [length] in *.
    replace (S (length rest) - 100)%nat with (S (length rest - 100)) by lia.
    reflexivity.
  - cbn [length] in *.
    replace (S (length rest) - 100)%nat with 0%nat by lia. reflexivity.
Qed.

Lemma ascending_drop n (m : list (Z * Packet)) :
  ascending m -> ascending (drop n m).
Proof.
  revert m. induction n as [|n IH]; intros m Ha; [by rewrite drop_0|].
  destruct m as [|[k v] rest]; [exact Ha|].
  cbn [drop]. apply IH. by apply ascending_cons in Ha as [_ Ha].
Qed.

Lemma Forall_drop_keys (P : Z * Packet -> Prop) n (m : list (Z * Packet)) :
  Forall P m -> Forall P (drop n m).
Proof. apply Forall_drop. Qed.

Lemma erase_Forall (P : Z * Packet -> Prop) k (m : list (Z * Packet)) :
  Forall P m -> Forall P (StdMap.erase k m).
Proof.
  induction m as [|[k' v'] rest IH]; intros Hm; simpl; [constructor|].
  inversion Hm; subst. destruct (k =? k'); [assumption|]. constructor; auto.
Qed.

Lemma erase_ascending k (m : list (Z * Packet)) :
  ascending m -> ascending (StdMap.erase k m).
Proof.
  induction m as [|[k' v'] rest IH]; intros Ha; simpl; [exact I|].
  apply ascending_cons in Ha as [Hf Ha].
  destruct (k =? k'); [exact Ha|].
  apply ascending_cons. split; [by apply erase_Forall | auto].
Qed.

Lemma erase_length k (m : list (Z * Packet)) :
  (length (StdMap.erase k m) <= length m)%nat.
Proof.
  induction m as [|[k' v'] rest IH]; simpl; [lia|].
  destruct (k =? k'); simpl; lia.
Qed.

(** Once the smallest possible key is erased, all keys lie above it. *)
Lemma erase_above k (m : list (Z * Packet)) :
  ascending m -> Forall (fun kv => k <= fst kv < 2 ^ 32) m ->
  Forall (fun kv => k < fst kv < 2 ^ 32) (StdMap.erase k m).
Proof.
  induction m as [|[k' v'] rest IH]; intros Ha Hm; simpl; [constructor|].
  apply ascending_cons in Ha as [Hf Ha]. inversion Hm as [|? ? Hk Hrest]; subst.
  cbn in Hk.
  destruct (Z.eqb_spec k k') as [->|Hne].
  - rewrite Forall_forall in *. intros kv Hin.
    specialize (Hf kv Hin). specialize (Hrest kv Hin). cbn in *. lia.
  - constructor; [cbn; lia | auto].
Qed.

Lemma above_next k (m : list (Z * Packet)) :
  0 <= k -> Forall (fun kv => k < fst kv < 2 ^ 32) m ->
  Forall (fun kv => Int.u32 (k + 1) <= fst kv < 2 ^ 32) m.
Proof.
  intros Hk Hm. eapply Forall_impl; [exact Hm|]. intros kv H. cbn in H |- *.
  assert (Int.u32 (k + 1) <= k + 1).
  { unfold Int.u32. apply Z.mod_le; lia. }
  lia.
Qed.

(** What holds of a jitter buffer between two calls. *)
Let inv (st : t) : Prop :=
  ascending (packets_ st) /\
  StdMap.size (packets_ st) <= kMaxPackets /\
  Forall (fun kv => nextPlaySequence_ st <= fst kv < 2 ^ 32) (packets_ st) /\
  0 <= nextPlaySequence_ st < 2 ^ 32 /\
  (initialized_ st = false -> packets_ st = []).

Lemma put_inv st data sequence timestamp now :
  0 <= sequence < 2 ^ 32 -> inv st -> inv (put st data sequence timestamp now).
Proof.
  intros Hseq (Ha & Hs & Hf & Hn & Hi). unfold put, inv.
  destruct (initialized_ st) eqn:Hinit.
  - destruct (Z.ltb_spec sequence (nextPlaySequence_ st)) as [Hlt|Hge].
    + cbn. repeat split; try assumption; try lia; try discriminate.
    + cbn [packets_ nextPlaySequence_ initialized_]. rewrite limit_drop.
      split; [apply ascending_drop, insert_ascending, Ha|].
      split.
      { unfold StdMap.size, kMaxPackets. rewrite length_drop. lia. }
      split.
      { apply Forall_drop, insert_Forall; [cbn; lia | exact Hf]. }
      split; [exact Hn | discriminate].
  - rewrite (Hi eq_refl). rewrite Z.ltb_irrefl.
    cbn. repeat split; try lia; try discriminate.
    constructor; [cbn; lia | constructor].
Qed.

Lemma u32_next_range k : 0 <= Int.u32 (k + 1) < 2 ^ 32.
Proof. apply u32_range. Qed.

Lemma get_inv st (output : list Z) frames now ret st' output' :
  get st output frames now = Some (ret, st', output') -> inv st -> inv st'.
Proof.
  intros Hget (Ha & Hs & Hf & Hn & Hi). revert Hget. unfold get, inv.
  cbn [set_playback initialized_ packets_ config_ nextPlaySequence_ packetsLost_].
  destruct (negb (initialized_ st) || (StdMap.size (packets_ st) =? 0)).
  { intros [= _ <- _]. cbn. auto. }
  destruct (minPacketsNeeded (config_ st)) as [needed|]; [|discriminate].
  destruct (_ <? needed).
  { intros [= _ <- _]. cbn. auto. }
  destruct (StdMap.find _ _) as [packet|] eqn:Hfind.
  - destruct (play packet output frames) as [copyFrames output1].
    intros [= _ <- _].
    cbn [fst snd packets_ nextPlaySequence_ initialized_ set_playback].
    split; [by apply erase_ascending|].
    split.
    { unfold StdMap.size, kMaxPackets in *.
      pose proof (erase_length (nextPlaySequence_ st) (packets_ st)). lia. }
    split; [apply above_next; [lia|]; by apply erase_above|].
    split; [apply u32_next_range|].
    intros Hinit. rewrite (Hi Hinit) in Hfind. discriminate.
  - destruct (packets_ st) as [|[first packet] rest] eqn:Hp.
    { intros [= _ <- _]. cbn. repeat split; auto; lia. }
    cbn [StdMap.begin head].
    assert (Hlt : nextPlaySequence_ st < first).
    { inversion Hf as [|? ? Hk _]; subst. cbn in Hk, Hfind.
      destruct (Z.eqb_spec (nextPlaySequence_ st) first); [discriminate | lia]. }
    destruct (Z.ltb_spec (nextPlaySequence_ st) first) as [_|?]; [|lia].
    destruct (play packet output frames) as [copyFrames output1].
    intros [= _ <- _].
    cbn [fst snd packets_ nextPlaySequence_ initialized_ set_playback StdMap.erase].
    rewrite Z.eqb_refl.
    apply ascending_cons in Ha as [Hr Ha].
    inversion Hf as [|? ? Hk Hrest]; subst. cbn in Hk.
    split; [exact Ha|].
    split.
    { unfold StdMap.size, kMaxPackets in *. cbn [length] in Hs. lia. }
    split.
    { apply above_next; [lia|]. rewrite Forall_forall in *. intros kv Hin.
      specialize (Hr kv Hin). specialize (Hrest kv Hin). cbn in *. lia. }
    split; [apply u32_next_range|].
    intros Hinit. specialize (Hi Hinit). discriminate.
Qed.

Lemma reachable_inv st : JitterRun.reachable st -> inv st.
Proof.
  induction 1 as [config now | st data sequence timestamp now Hseq _ IH
                 | st output frames now ret st' output' _ IH Hget | st _ IH].
  - unfold inv. cbn. repeat split; auto; try lia; try discriminate.
  - by apply put_inv.
  - exact (get_inv _ _ _ _ _ _ _ Hget IH).
  - unfold inv. cbn. repeat split; auto; try lia; try discriminate.
Qed.

Lemma i32_range (x : Z) : - 2 ^ 31 <= Int.i32 x < 2 ^ 31.
Proof.
  unfold Int.i32. pose proof (Z.mod_pos_bound (x + 2 ^ 31) (2 ^ 32) ltac:(lia)). lia.
Qed.

(** The loss counter is an [int]. *)
Lemma get_lost_range st (output : list Z) frames now ret st' output' :
  get st output frames now = Some (ret, st', output') ->
  - 2 ^ 31 <= packetsLost_ st < 2 ^ 31 -> - 2 ^ 31 <= packetsLost_ st' < 2 ^ 31.
Proof.
  intros Hget Hl. revert Hget. unfold get.
  cbn [set_playback initialized_ packets_ config_ nextPlaySequence_ packetsLost_].
  destruct (negb (initialized_ st) || (StdMap.size (packets_ st) =? 0)).
  { intros [= _ <- _]. exact Hl. }
  destruct (minPacketsNeeded (config_ st)) as [needed|]; [|discriminate].
  destruct (_ <? needed).
  { intros [= _ <- _]. exact Hl. }
  destruct (StdMap.find _ _) as [packet|].
  - destruct (play packet output frames) as [copyFrames output1].
    intros [= _ <- _]. exact Hl.
  - destruct (StdMap.begin (packets_ st)) as [[first packet]|].
    + destruct (nextPlaySequence_ st <? first);
        destruct (play packet output frames) as [copyFrames output1];
        intros [= _ <- _]; apply i32_range.
    + intros [= _ <- _]. apply i32_range.
Qed.

Lemma reachable_lost_range st :
  JitterRun.reachable st -> - 2 ^ 31 <= packetsLost_ st < 2 ^ 31.
Proof.
  induction 1 as [config now | st data sequence timestamp now Hseq _ IH
                 | st output frames now ret st' output' _ IH Hget | st _ IH].
  - cbn. lia.
  - unfold put. destruct (_ <? _); cbn; exact IH.
  - exact (get_lost_range _ _ _ _ _ _ _ Hget IH).
  - cbn. lia.
Qed.

End JitterMapProps.

(** X11.  In every state reached through [put] (with 32-bit sequence
    numbers), [get] and [reset], the packet map holds at most
    [kMaxPackets] = 100 packets, its keys are strictly ascending, no
    buffered packet is older than the next sequence to play, and nothing is
    buffered before the first [put]. *)
Theorem jitter_buffer_invariant (st : JitterBuffer.t) :
  JitterRun.reachable st ->
  JitterBuffer.ascending (JitterBuffer.packets_ st) /\
  StdMap.size (JitterBuffer.packets_ st) <= JitterBuffer.kMaxPackets /\
  Forall (fun kv => JitterBuffer.nextPlaySequence_ st <= fst kv < 2 ^ 32)
         (JitterBuffer.packets_ st) /\
  0 <= JitterBuffer.nextPlaySequence_ st < 2 ^ 32 /\
  (JitterBuffer.initialized_ st = false -> JitterBuffer.packets_ st = []).
Proof. apply reachable_inv. Qed.

Lemma jitter_buffer_invariant_witness :
  let st := JitterBuffer.put JitterFixture.fresh [1; 2] 7 0 0 in
  StdMap.size (JitterBuffer.packets_ st) <= JitterBuffer.kMaxPackets.
Proof.
  intros st.
  assert (Hr : JitterRun.reachable st).
  { apply JitterRun.reach_put; [lia | apply JitterRun.reach_create]. }
  destruct (jitter_buffer_invariant st Hr) as (_ & H & _). exact H.
Defined.

(** ** What [get] hands to the caller *)

Section JitterGetProps.

Import JitterBuffer.

Lemma memcpy_at_length {A} (off : nat) (bytes p : list A) :
  (off + length bytes <= length p)%nat ->
  length (Buf.memcpy_at off bytes p) = length p.
Proof.
  intros H. unfold Buf.memcpy_at.
  rewrite !length_app, length_take, length_drop. lia.
Qed.

Lemma memcpy_at_lookup {A} (off : nat) (bytes p : list A) (k : nat) :
  (off + length bytes <= length p)%nat ->
  Buf.memcpy_at off bytes p !! k =
  if bool_decide (off <= k < off + length bytes)%nat
  then bytes !! (k - off)%nat else p !! k.
Proof.
  intros H. unfold Buf.memcpy_at.
  destruct (decide (k < off)%nat) as [Hlt|Hge].
  - rewrite bool_decide_eq_false_2 by lia.
    rewrite lookup_app_l by (rewrite length_take; lia).
    by rewrite lookup_take_lt.
  - rewrite lookup_app_r by (rewrite length_take; lia).
    rewrite length_take, Nat.min_l by lia.
    destruct (decide (k < off + length bytes)%nat) as [Hin|Hout].
    + rewrite bool_decide_eq_true_2 by lia.
      by rewrite lookup_app_l by lia.
    + rewrite bool_decide_eq_false_2 by lia.
      rewrite lookup_app_r by lia. rewrite lookup_drop. f_equal. lia.
Qed.

Lemma silence_shape (output : list Z) frames :
  (frames <= length output)%nat ->
  length (silence output frames) = length output /\
  forall k : nat,
    silence output frames !! k =
    if bool_decide (k < frames)%nat then Some 0 else output !! k.
Proof.
  intros H. unfold silence. split.
  - apply memcpy_at_length. rewrite length_replicate. lia.
  - intros k. rewrite memcpy_at_lookup by (rewrite length_replicate; lia).
    rewrite length_replicate.
    destruct (decide (k < frames)%nat).
    + rewrite !bool_decide_eq_true_2 by lia.
      apply lookup_replicate_2. lia.
    + rewrite !bool_decide_eq_false_2 by lia. reflexivity.
Qed.

Lemma play_shape (packet : Packet) (output : list Z) frames :
  (frames <= length output)%nat ->
  let r := play packet output frames in
  fst r = Nat.min frames (length (data packet)) /\
  length (snd r) = length output /\
  forall k : nat,
    snd r !! k =
    if bool_decide (k < fst r)%nat then data packet !! k
    else if bool_decide (k < frames)%nat then Some 0 else output !! k.
Proof.
  intros H. cbv zeta. unfold play. cbn [fst snd].
  set (copyFrames := Nat.min frames (length (data packet))).
  assert (Ht : length (take copyFrames (data packet)) = copyFrames).
  { rewrite length_take. unfold copyFrames. lia. }
  assert (Hl1 : length (Buf.memcpy_at 0 (take copyFrames (data packet)) output)
                = length output).
  { apply memcpy_at_length. rewrite Ht. unfold copyFrames. lia. }
  assert (H1 : forall k : nat,
             Buf.memcpy_at 0 (take copyFrames (data packet)) output !! k =
             if bool_decide (k < copyFrames)%nat then data packet !! k
             else output !! k).
  { intros k. rewrite memcpy_at_lookup by (rewrite Ht; unfold copyFrames; lia).
    rewrite Ht, Nat.sub_0_r.
    destruct (decide (k < copyFrames)%nat).
    - rewrite !bool_decide_eq_true_2 by lia. by apply lookup_take_lt.
    - rewrite !bool_decide_eq_false_2 by lia. reflexivity. }
  split; [reflexivity|].
  destruct (Nat.ltb_spec copyFrames frames) as [Hlt|Hge].
  - split.
    + rewrite memcpy_at_length; [exact Hl1|]. rewrite length_replicate, Hl1. lia.
    + intros k. rewrite memcpy_at_lookup by (rewrite length_replicate, Hl1; lia).
      rewrite length_replicate.
      destruct (decide (k < copyFrames)%nat).
      * rewrite bool_decide_eq_false_2 by lia. rewrite H1.
        rewrite !bool_decide_eq_true_2 by lia. reflexivity.
      * rewrite (bool_decide_eq_false_2 (k < copyFrames)%nat) by lia.
        destruct (decide (k < frames)%nat).
        -- rewrite !bool_decide_eq_true_2 by lia. apply lookup_replicate_2. lia.
        -- rewrite !bool_decide_eq_false_2 by lia. rewrite H1.
           rewrite bool_decide_eq_false_2 by lia. reflexivity.
  - split; [exact Hl1|]. intros k. rewrite H1.
    destruct (decide (k < copyFrames)%nat).
    + rewrite !bool_decide_eq_true_2 by lia. reflexivity.
    + rewrite !bool_decide_eq_false_2 by (unfold copyFrames in *; lia). reflexivity.
Qed.

Lemma erase_length_ge k (m : list (Z * Packet)) :
  (length m <= S (length (StdMap.erase k m)))%nat.
Proof.
  induction m as [|[k' v'] rest IH]; simpl; [lia|].
  destruct (k =? k'); simpl; lia.
Qed.

End JitterGetProps.

(** X12.  Whenever [get] returns -- the buffer is still uninitialised or
    empty, or the division [(minDelayMs * sampleRate) / (frameSize * 1000)]
    has a quotient -- it stays inside the first [frames] entries of the
    caller's array and takes at most one packet: the return value is at
    most [frames], every entry from the return value up to [frames] is 0,
    no entry from [frames] on is written, and the map loses one packet or
    none. *)
Theorem get_fills_frames
  (st : JitterBuffer.t) (output : list Z) (frames : nat) (now : Z) :
  (frames <= length output)%nat ->
  JitterBuffer.initialized_ st = false \/ JitterBuffer.packets_ st = []
    \/ JitterBuffer.minPacketsNeeded (JitterBuffer.config_ st) <> None ->
  exists (ret : nat) (st' : JitterBuffer.t) (output' : list Z),
    JitterBuffer.get st output frames now = Some (ret, st', output') /\
    (ret <= frames)%nat /\
    length output' = length output /\
    (forall k : nat, (ret <= k < frames)%nat -> output' !! k = Some 0) /\
    (forall k : nat, (frames <= k)%nat -> output' !! k = output !! k) /\
    (length (JitterBuffer.packets_ st')
       <= length (JitterBuffer.packets_ st)
       <= S (length (JitterBuffer.packets_ st')))%nat.
Proof.
  intros Hlen Hdef.
  destruct (silence_shape output frames Hlen) as [Hsl Hsk].
  assert (Hsilent : forall st' : JitterBuffer.t,
    JitterBuffer.packets_ st' = JitterBuffer.packets_ st ->
    exists (ret : nat) (st'' : JitterBuffer.t) (output' : list Z),
      Some (0%nat, st', JitterBuffer.silence output frames) = Some (ret, st'', output') /\
      (ret <= frames)%nat /\
      length output' = length output /\
      (forall k : nat, (ret <= k < frames)%nat -> output' !! k = Some 0) /\
      (forall k : nat, (frames <= k)%nat -> output' !! k = output !! k) /\
      (length (JitterBuffer.packets_ st'')
         <= length (JitterBuffer.packets_ st)
         <= S (length (JitterBuffer.packets_ st'')))%nat).
  { intros st' Hp. exists 0%nat, st', (JitterBuffer.silence output frames).
    rewrite Hp.
    split; [reflexivity|]. split; [lia|]. split; [exact Hsl|].
    split; [|split; [|lia]].
    - intros k Hk. rewrite Hsk, bool_decide_eq_true_2 by lia. reflexivity.
    - intros k Hk. rewrite Hsk, bool_decide_eq_false_2 by lia. reflexivity. }
  assert (Hplay : forall (packet : JitterBuffer.Packet) (st' : JitterBuffer.t),
    (length (JitterBuffer.packets_ st') <= length (JitterBuffer.packets_ st)
       <= S (length (JitterBuffer.packets_ st')))%nat ->
    exists (ret : nat) (st'' : JitterBuffer.t) (output' : list Z),
      Some (fst (JitterBuffer.play packet output frames), st',
            snd (JitterBuffer.play packet output frames)) = Some (ret, st'', output') /\
      (ret <= frames)%nat /\
      length output' = length output /\
      (forall k : nat, (ret <= k < frames)%nat -> output' !! k = Some 0) /\
      (forall k : nat, (frames <= k)%nat -> output' !! k = output !! k) /\
      (length (JitterBuffer.packets_ st'')
         <= length (JitterBuffer.packets_ st)
         <= S (length (JitterBuffer.packets_ st'')))%nat).
  { intros packet st' Hp.
    exists (fst (JitterBuffer.play packet output frames)), st',
           (snd (JitterBuffer.play packet output frames)).
    destruct (play_shape packet output frames Hlen) as (Hr & Hl & Hk).
    cbv zeta in Hr, Hl, Hk.
    split; [reflexivity|].
    split; [rewrite Hr; lia|]. split; [exact Hl|].
    split; [|split; [|exact Hp]].
    - intros k Hkk. rewrite Hk, bool_decide_eq_false_2 by lia.
      rewrite bool_decide_eq_true_2 by lia. reflexivity.
    - intros k Hkk. rewrite Hk, bool_decide_eq_false_2 by lia.
      rewrite bool_decide_eq_false_2 by lia. reflexivity. }
  unfold JitterBuffer.get.
  cbn [JitterBuffer.set_playback JitterBuffer.initialized_ JitterBuffer.packets_
       JitterBuffer.config_ JitterBuffer.nextPlaySequence_ JitterBuffer.packetsLost_].
  destruct (negb (JitterBuffer.initialized_ st)
            || (StdMap.size (JitterBuffer.packets_ st) =? 0)) eqn:Hearly.
  { apply Hsilent. reflexivity. }
  destruct (JitterBuffer.minPacketsNeeded (JitterBuffer.config_ st)) as [needed|].
  2: { exfalso. apply orb_false_iff in Hearly as [Hi Hs].
       destruct Hdef as [Hd|[Hd|Hd]].
       - rewrite Hd in Hi. discriminate.
       - rewrite Hd in Hs. discriminate.
       - by apply Hd. }
  destruct (_ <? needed).
  { apply Hsilent. reflexivity. }
  destruct (StdMap.find _ _) as [packet|].
  - pose proof (Hplay packet) as Hp.
    destruct (JitterBuffer.play packet output frames) as [copyFrames output1].
    apply Hp. cbn [JitterBuffer.packets_ JitterBuffer.set_playback].
    pose proof (erase_length (JitterBuffer.nextPlaySequence_ st) (JitterBuffer.packets_ st)).
    pose proof (erase_length_ge (JitterBuffer.nextPlaySequence_ st) (JitterBuffer.packets_ st)).
    lia.
  - destruct (StdMap.begin (JitterBuffer.packets_ st)) as [[first packet]|].
    + pose proof (Hplay packet) as Hp.
      destruct (JitterBuffer.play packet output frames) as [copyFrames output1].
      destruct (JitterBuffer.nextPlaySequence_ st <? first);
        apply Hp; cbn [JitterBuffer.packets_ JitterBuffer.set_playback];
        pose proof (erase_length first (JitterBuffer.packets_ st));
        pose proof (erase_length_ge first (JitterBuffer.packets_ st)); lia.
    + apply Hsilent. reflexivity.
Qed.

Lemma get_fills_frames_witness :
  let st := JitterBuffer.put (JitterBuffer.put JitterFixture.fresh [1; 1] 0 0 0)
                             [2; 2] 1 0 0 in
  exists (st' : JitterBuffer.t) (output' : list Z),
    JitterBuffer.get st [5; 5; 5; 5] 3 0 = Some (2%nat, st', output') /\
    output' !! 2%nat = Some 0 /\ output' !! 3%nat = Some 5 /\
    length (JitterBuffer.packets_ st') = 1%nat.
Proof.
  intros st.
  destruct (get_fills_frames st [5; 5; 5; 5] 3 0)
    as (ret & st' & output' & Hget & _ & _ & Hpad & Hkeep & _).
  - simpl. lia.
  - right. right. vm_compute. discriminate.
  - assert (Hc : JitterBuffer.get st [5; 5; 5; 5] 3 0 =
                 Some (2%nat,
                       JitterBuffer.set_playback st
                         [(1, JitterBuffer.mkPacket [2; 2] 1 0 0)] 1 0 0,
                       [1; 1; 0; 5])) by (vm_compute; reflexivity).
    rewrite Hc in Hget. injection Hget as <- <- <-.
    eexists _, _. split; [exact Hc|].
    split; [apply Hpad; lia|]. split; [apply Hkeep; lia | reflexivity].
Defined.

(** With a frame size of 0 the division has no quotient: once two packets
    are buffered [get] has no result, while on the empty buffer it still
    returns silence. *)
Example get_without_quotient :
  let config := JitterBuffer.mkConfig 48000 0 20 200 60 in
  let st := JitterBuffer.create config 0 in
  let st2 := JitterBuffer.put (JitterBuffer.put st [1; 1] 0 0 0) [2; 2] 1 0 0 in
  JitterBuffer.minPacketsNeeded config = None /\
  JitterBuffer.get st [5; 5] 2 0 = Some (0%nat, st, [0; 0]) /\
  JitterBuffer.get st2 [5; 5] 2 0 = None.
Proof. vm_compute. repeat split. Qed.

(** ** Loss accounting *)

Section JitterLossProps.

Import JitterBuffer.

Lemma find_above k (m : list (Z * Packet)) :
  Forall (fun kv => k < fst kv) m -> StdMap.find k m = None.
Proof.
  induction m as [|[k' v'] rest IH]; intros Hm; simpl; [reflexivity|].
  inversion Hm as [|? ? Hk Hrest]; subst. cbn in Hk.
  destruct (Z.eqb_spec k k'); [lia | auto].
Qed.

Lemma i32_small d : - 2 ^ 31 <= d < 2 ^ 31 -> Int.i32 d = d.
Proof. intros H. unfold Int.i32. rewrite Z.mod_small by lia. lia. Qed.

Lemma i32_add_l (a b : Z) : Int.i32 (Int.i32 a + b) = Int.i32 (a + b).
Proof.
  unfold Int.i32. f_equal.
  replace ((a + 2 ^ 31) mod 2 ^ 32 - 2 ^ 31 + b + 2 ^ 31)
    with ((a + 2 ^ 31) mod 2 ^ 32 + b) by ring.
  rewrite Zplus_mod_idemp_l. f_equal. ring.
Qed.

Lemma i32_add_r (a b : Z) : Int.i32 (a + Int.i32 b) = Int.i32 (a + b).
Proof. rewrite (Z.add_comm a), i32_add_l. f_equal. ring. Qed.

Lemma i32_u32_add_l (a b : Z) : Int.i32 (Int.u32 a + b) = Int.i32 (a + b).
Proof.
  unfold Int.i32, Int.u32. f_equal.
  replace (a mod 2 ^ 32 + b + 2 ^ 31) with (a mod 2 ^ 32 + (b + 2 ^ 31)) by ring.
  rewrite Zplus_mod_idemp_l. f_equal. ring.
Qed.

End JitterLossProps.

(** X13.  Once enough packets are buffered, a [get] on a reachable buffer
    always plays the oldest buffered packet: it returns
    [min(frames, |data|)] samples of it, removes it from the map, moves the
    next sequence to play just behind it, and adds the number of sequence
    numbers skipped, [first - nextPlaySequence_] (zero when the expected
    packet is the oldest one), to the [int] counter [packetsLost_], which
    wraps around at 2^31. *)
Theorem get_plays_oldest_and_counts_skipped
  (st : JitterBuffer.t) (output : list Z) (frames : nat) (now : Z) (needed : Z)
  (first : Z) (packet : JitterBuffer.Packet) (rest : list (Z * JitterBuffer.Packet)) :
  JitterRun.reachable st ->
  JitterBuffer.packets_ st = (first, packet) :: rest ->
  JitterBuffer.minPacketsNeeded (JitterBuffer.config_ st) = Some needed ->
  needed <= Int.i32 (StdMap.size (JitterBuffer.packets_ st)) ->
  (frames <= length output)%nat ->
  exists (st' : JitterBuffer.t) (output' : list Z),
    JitterBuffer.get st output frames now =
      Some (Nat.min frames (length (JitterBuffer.data packet)), st', output') /\
    (forall k : nat, (k < Nat.min frames (length (JitterBuffer.data packet)))%nat ->
       output' !! k = JitterBuffer.data packet !! k) /\
    JitterBuffer.packets_ st' = rest /\
    JitterBuffer.nextPlaySequence_ st' = Int.u32 (first + 1) /\
    JitterBuffer.packetsLost_ st' =
      Int.i32 (JitterBuffer.packetsLost_ st
               + (first - JitterBuffer.nextPlaySequence_ st)).
Proof.
  intros Hr Hp Hm Hmin Hlen.
  destruct (reachable_inv st Hr) as (Ha & Hs & Hf & Hn & Hi).
  pose proof (reachable_lost_range st Hr) as Hlost.
  assert (Hinit : JitterBuffer.initialized_ st = true).
  { destruct (JitterBuffer.initialized_ st); [reflexivity|].
    rewrite (Hi eq_refl) in Hp. discriminate. }
  destruct (play_shape packet output frames Hlen) as (Hret & _ & Hk).
  cbv zeta in Hret, Hk.
  rewrite Hp in Ha, Hf. apply ascending_cons in Ha as [Hab _].
  inversion Hf as [|? ? Hk1 _]; subst. cbn in Hk1.
  destruct (Z.eq_dec (JitterBuffer.nextPlaySequence_ st) first) as [He|Hne].
  - rewrite (get_plays_next st output frames now needed packet);
      [|exact Hinit|exact Hm|exact Hmin
       |rewrite Hp; cbn; rewrite He, Z.eqb_refl; reflexivity].
    rewrite Hret. eexists _, _. split; [reflexivity|].
    cbn [JitterBuffer.set_playback JitterBuffer.packets_
         JitterBuffer.nextPlaySequence_ JitterBuffer.packetsLost_].
    split.
    { intros k Hkk. rewrite Hk, bool_decide_eq_true_2 by (rewrite Hret; exact Hkk).
      reflexivity. }
    split; [rewrite Hp; cbn; rewrite He, Z.eqb_refl; reflexivity|].
    split; [rewrite He; reflexivity|].
    rewrite He, Z.sub_diag, Z.add_0_r. symmetry. apply i32_small. exact Hlost.
  - assert (Hlt : JitterBuffer.nextPlaySequence_ st < first) by lia.
    rewrite (get_skips_ahead st output frames now needed first packet rest);
      [|exact Hinit|exact Hp|exact Hm|exact Hmin| |exact Hlt].
    + rewrite Hret. eexists _, _. split; [reflexivity|].
      cbn [JitterBuffer.set_playback JitterBuffer.packets_
           JitterBuffer.nextPlaySequence_ JitterBuffer.packetsLost_].
      split.
      { intros k Hkk. rewrite Hk, bool_decide_eq_true_2 by (rewrite Hret; exact Hkk).
        reflexivity. }
      split; [reflexivity|]. split; [reflexivity|].
      rewrite i32_add_l, i32_add_r.
      replace (JitterBuffer.packetsLost_ st + 1
               + (Int.i32 (Int.u32 (first - JitterBuffer.nextPlaySequence_ st)) - 1))
        with (Int.i32 (Int.u32 (first - JitterBuffer.nextPlaySequence_ st))
              + JitterBuffer.packetsLost_ st) by ring.
      rewrite i32_add_l, i32_u32_add_l. f_equal. ring.
    + rewrite Hp. apply find_above. constructor; [cbn; lia|].
      eapply Forall_impl; [exact Hab|]. cbn. intros; lia.
Qed.

Lemma get_plays_oldest_and_counts_skipped_witness :
  let out := [0; 0] in
  let st0 :=
    JitterBuffer.put
      (JitterBuffer.put
         (JitterBuffer.put
            (JitterBuffer.put JitterFixture.fresh [1; 1] 0 0 0) [2; 2] 1 0 0)
         [4; 4] 3 0 0)
      [5; 5] 4 0 0 in
  let st2 :=
    JitterBuffer.set_playback st0
      [(3, JitterBuffer.mkPacket [4; 4] 3 0 0); (4, JitterBuffer.mkPacket [5; 5] 4 0 0)]
      2 0 0 in
  JitterRun.drain 2 st0 out 2 0 = Some ([(2%nat, [1; 1]); (2%nat, [2; 2])], st2) /\
  exists (st' : JitterBuffer.t) (output' : list Z),
    JitterBuffer.get st2 out 2 0 = Some (2%nat, st', output') /\
    JitterBuffer.packetsLost_ st' = 1 /\
    JitterBuffer.nextPlaySequence_ st' = 4.
Proof.
  intros out st0 st2.
  assert (Hd : JitterRun.drain 2 st0 out 2 0 =
               Some ([(2%nat, [1; 1]); (2%nat, [2; 2])], st2))
    by (vm_compute; reflexivity).
  split; [exact Hd|].
  assert (Hr : JitterRun.reachable st2).
  { assert (H0 : JitterRun.reachable st0).
    { do 4 (apply JitterRun.reach_put; [lia|]). apply JitterRun.reach_create. }
    pose (st1 := JitterBuffer.set_playback st0
                   [(1, JitterBuffer.mkPacket [2; 2] 1 0 0);
                    (3, JitterBuffer.mkPacket [4; 4] 3 0 0);
                    (4, JitterBuffer.mkPacket [5; 5] 4 0 0)] 1 0 0).
    assert (G0 : JitterBuffer.get st0 out 2 0 = Some (2%nat, st1, [1; 1]))
      by (vm_compute; reflexivity).
    assert (G1 : JitterBuffer.get st1 [1; 1] 2 0 = Some (2%nat, st2, [2; 2]))
      by (vm_compute; reflexivity).
    eapply JitterRun.reach_get; [|exact G1].
    eapply JitterRun.reach_get; [exact H0 | exact G0]. }
  destruct (get_plays_oldest_and_counts_skipped st2 out 2 0 2 3
              (JitterBuffer.mkPacket [4; 4] 3 0 0)
              [(4, JitterBuffer.mkPacket [5; 5] 4 0 0)] Hr)
    as (st' & output' & Hget & _ & _ & Hn & Hl).
  - reflexivity.
  - reflexivity.
  - vm_compute. discriminate.
  - simpl. lia.
  - exists st', output'. split; [exact Hget|].
    split.
    + etransitivity; [exact Hl|]. vm_compute. reflexivity.
    + etransitivity; [exact Hn|]. vm_compute. reflexivity.
Defined.

(** ** Storing a packet *)

Section JitterPutProps.

Import JitterBuffer.

Lemma find_insert_eq k v (m : list (Z * Packet)) :
  StdMap.find k (StdMap.insert k v m) = Some v.
Proof.
  induction m as [|[k' v'] rest IH]; simpl.
  - by rewrite Z.eqb_refl.
  - destruct (Z.ltb_spec k k') as [Hlt|Hge]; simpl.
    + by rewrite Z.eqb_refl.
    + destruct (Z.eqb_spec k k') as [He|Hne]; simpl.
      * by rewrite Z.eqb_refl.
      * destruct (Z.eqb_spec k k'); [contradiction | exact IH].
Qed.

End JitterPutProps.

(** X14.  A packet that is not late is stored under its sequence number,
    replacing an earlier one with the same number, and can be found
    afterwards -- unless the map already holds [kMaxPackets] packets and the
    new one is older than all of them: then the size limit erases the new
    packet at once and the map is as before. *)
Theorem put_then_find
  (st : JitterBuffer.t) (data : list Z) (sequence timestamp now : Z) :
  StdMap.size (JitterBuffer.packets_ st) <= JitterBuffer.kMaxPackets ->
  (JitterBuffer.initialized_ st = true ->
   JitterBuffer.nextPlaySequence_ st <= sequence) ->
  let st' := JitterBuffer.put st data sequence timestamp now in
  let fits :=
    match StdMap.begin (JitterBuffer.packets_ st) with
    | Some (first, _) =>
        (first <=? sequence)
        || (StdMap.size (JitterBuffer.packets_ st) <? JitterBuffer.kMaxPackets)
    | None => true
    end in
  if fits
  then StdMap.find sequence (JitterBuffer.packets_ st') =
         Some (JitterBuffer.mkPacket data sequence timestamp now)
  else JitterBuffer.packets_ st' = JitterBuffer.packets_ st.
Proof.
  intros Hs Hnl. cbv zeta. unfold JitterBuffer.put.
  assert (Hlate : (sequence <?
                   (if JitterBuffer.initialized_ st
                    then JitterBuffer.nextPlaySequence_ st else sequence)) = false).
  { destruct (JitterBuffer.initialized_ st).
    - apply Z.ltb_ge. auto.
    - apply Z.ltb_irrefl. }
  rewrite Hlate. cbn [JitterBuffer.packets_]. rewrite limit_drop.
  unfold StdMap.size, JitterBuffer.kMaxPackets in *.
  set (new := JitterBuffer.mkPacket data sequence timestamp now).
  destruct (JitterBuffer.packets_ st) as [|[first p] rest] eqn:Hp.
  - cbn. by rewrite Z.eqb_refl.
  - cbn [StdMap.begin head StdMap.insert].
    destruct (Z.ltb_spec sequence first) as [Hlt|Hge].
    + destruct (Z.leb_spec first sequence) as [?|_]; [lia|]. cbn [orb].
      destruct (Z.ltb_spec (Z.of_nat (length ((first, p) :: rest))) 100) as [Hsm|Hfull].
      * cbn [length] in *.
        replace (S (S (length rest)) - 100)%nat with 0%nat by lia.
        cbn. by rewrite Z.eqb_refl.
      * cbn [length] in *.
        replace (S (S (length rest)) - 100)%nat with 1%nat by lia.
        reflexivity.
    + destruct (Z.leb_spec first sequence) as [_|?]; [|lia]. cbn [orb].
      destruct (Z.eqb_spec sequence first) as [He|Hne].
      * cbn [length] in *.
        replace (S (length rest) - 100)%nat with 0%nat by lia.
        cbn. by rewrite Z.eqb_refl.
      * pose proof (insert_length sequence new rest) as Hil.
        cbn [length] in *.
        destruct (decide (length (StdMap.insert sequence new rest) = 100%nat)) as [E|E].
        -- rewrite E. change (S 100 - 100)%nat with 1%nat. cbn [drop].
           rewrite drop_0. apply find_insert_eq.
        -- replace (S (length (StdMap.insert sequence new rest)) - 100)%nat
             with 0%nat by lia.
           rewrite drop_0. cbn [StdMap.find].
           destruct (Z.eqb_spec sequence first); [contradiction|].
           apply find_insert_eq.
Qed.

Lemma put_then_find_witness :
  let st := JitterBuffer.put JitterFixture.fresh [1; 1] 5 0 0 in
  StdMap.find 7 (JitterBuffer.packets_ (JitterBuffer.put st [2; 2] 7 9 3)) =
    Some (JitterBuffer.mkPacket [2; 2] 7 9 3).
Proof.
  intros st.
  apply (put_then_find st [2; 2] 7 9 3).
  - vm_compute. discriminate.
  - intros _. vm_compute. discriminate.
Defined.

(** ** The outcomes of [connect] *)





(** X17.  [disconnect] always ends in [Disconnected] and a second call
    changes nothing more (the destructor calls it again): on a client that
    is already [Disconnected] it does nothing at all, not even report a
    state. *)
Theorem disconnect_idempotent (c : MumbleClient.t) :
  MumbleClient.getState (MumbleClient.disconnect c) = MumbleClient.Disconnected /\
  MumbleClient.disconnect (MumbleClient.disconnect c) = MumbleClient.disconnect c /\
  (MumbleClient.getState c = MumbleClient.Disconnected ->
   MumbleClient.disconnect c = c) /\
  (MumbleClient.getState c <> MumbleClient.Disconnected ->
   MumbleClient.stateLog_ (MumbleClient.disconnect c) =
     MumbleClient.Disconnected :: MumbleClient.Disconnecting
       :: MumbleClient.stateLog_ c).
Proof.
  unfold MumbleClient.getState.
  assert (Hd : MumbleClient.state_ (MumbleClient.disconnect c) = MumbleClient.Disconnected).
  { unfold MumbleClient.disconnect.
    destruct (MumbleClient.state_eqb (MumbleClient.state_ c) MumbleClient.Disconnected) eqn:E.
    - by apply state_eqb_eq.
    - reflexivity. }
  assert (Hid : forall c0, MumbleClient.state_ c0 = MumbleClient.Disconnected ->
                           MumbleClient.disconnect c0 = c0).
  { intros c0 H0. unfold MumbleClient.disconnect. rewrite H0. reflexivity. }
  split; [exact Hd|]. split; [apply Hid, Hd|]. split; [apply Hid|].
  intros Hne. by destruct (disconnect_result c Hne) as (_ & _ & _ & _ & _ & _ & _ & _ & _ & _ & Hl).
Qed.

(** ** The framing of control messages *)

Section FramingProps.

Lemma lor_shiftl_add hi lo k :
  0 <= k -> 0 <= lo < 2 ^ k -> Z.lor (Z.shiftl hi k) lo = hi * 2 ^ k + lo.
Proof.
  intros Hk Hlo. rewrite Z.shiftl_mul_pow2 by exact Hk.
  assert (Hz : Z.land (hi * 2 ^ k) lo = 0).
  { apply Z.bits_inj'. intros n Hn. rewrite Z.land_spec, Z.bits_0.
    destruct (Z.lt_ge_cases n k) as [Hlt|Hge].
    - rewrite Z.mul_pow2_bits_low by exact Hlt. reflexivity.
    - rewrite <- (Z.mod_small lo (2 ^ k)) by exact Hlo.
      rewrite Z.mod_pow2_bits_high by lia. apply andb_false_r. }
  rewrite <- Z.lxor_lor by exact Hz. symmetry. by apply Z.add_nocarry_lxor.
Qed.

Lemma byte_of (x : Z) (k : Z) :
  0 <= k -> Z.land (Z.shiftr x k) 255 = (x / 2 ^ k) mod 256.
Proof.
  intros Hk. rewrite Z.shiftr_div_pow2 by exact Hk.
  change 255 with (Z.ones 8). rewrite Z.land_ones by lia. reflexivity.
Qed.

Lemma byte_of_0 (x : Z) : Z.land x 255 = x mod 256.
Proof. change 255 with (Z.ones 8). rewrite Z.land_ones by lia. reflexivity. Qed.

Lemma parse_build (type length : Z) :
  Framing.parseHeader (Framing.buildHeader type length) =
  (Framing.u16 type, Int.u32 length).
Proof.
  unfold Framing.parseHeader, Framing.buildHeader. cbn [Buf.rd nth].
  rewrite !byte_of, !byte_of_0 by lia.
  assert (Hb : forall x, 0 <= x mod 256 < 2 ^ 8)
    by (intros x; apply Z.mod_pos_bound; lia).
  f_equal.
  - rewrite lor_shiftl_add by (try lia; apply Hb).
    set (t := Framing.u16 type).
    assert (Ht : 0 <= t < 2 ^ 16) by (apply Z.mod_pos_bound; lia).
    assert (Hq : 0 <= t / 2 ^ 8 < 256).
    { split; [apply Z.div_pos; lia | apply Z.div_lt_upper_bound; lia]. }
    rewrite (Z.mod_small (t / 2 ^ 8)) by lia.
    pose proof (Z.div_mod t 256 ltac:(lia)) as Hdm.
    change (2 ^ 8) with 256 in *.
    unfold Framing.u16 at 1. rewrite Z.mod_small by lia. lia.
  - replace (Z.lor (Z.lor (Z.lor (Z.shiftl ((length / 2 ^ 24) mod 256) 24)
                                 (Z.shiftl ((length / 2 ^ 16) mod 256) 16))
                          (Z.shiftl ((length / 2 ^ 8) mod 256) 8))
                   (length mod 256))
      with (Z.lor (Z.shiftl
                     (Z.lor (Z.shiftl
                               (Z.lor (Z.shiftl ((length / 2 ^ 24) mod 256) 8)
                                      ((length / 2 ^ 16) mod 256)) 8)
                            ((length / 2 ^ 8) mod 256)) 8)
                  (length mod 256))
      by (rewrite !Z.shiftl_lor, !Z.shiftl_shiftl by lia; reflexivity).
    rewrite !lor_shiftl_add by (try lia; apply Hb).
    change (2 ^ 8) with 256. change (2 ^ 16) with (256 * 256).
    change (2 ^ 24) with (256 * 256 * 256).
    rewrite <- !Z.div_div by lia.
    set (q0 := length / 256). set (q1 := q0 / 256). set (q2 := q1 / 256).
    pose proof (Z.div_mod length 256 ltac:(lia)) as H0. fold q0 in H0.
    pose proof (Z.div_mod q0 256 ltac:(lia)) as H1. fold q1 in H1.
    pose proof (Z.div_mod q1 256 ltac:(lia)) as H2. fold q2 in H2.
    pose proof (Z.div_mod q2 256 ltac:(lia)) as H3.
    pose proof (Hb length) as B0. pose proof (Hb q0) as B1.
    pose proof (Hb q1) as B2. pose proof (Hb q2) as B3.
    change (2 ^ 8) with 256 in *.
    set (r0 := length mod 256) in *. set (r1 := q0 mod 256) in *.
    set (r2 := q1 mod 256) in *. set (r3 := q2 mod 256) in *.
    set (q3 := q2 / 256) in *.
    clearbody r0 r1 r2 r3 q3 q2 q1 q0.
    unfold Int.u32. rewrite Z.mod_small by lia.
    apply (Z.mod_unique_pos _ _ q3); lia.
Qed.

End FramingProps.

(** X18.  The six header bytes written by [sendRawMessage] are read back by
    [receiveLoop] as the same message type and the payload length modulo
    2^32: a header round trip is exact for every payload shorter than
    4 GiB. *)
Theorem header_round_trip (type : Z) (data : list Z) :
  Z.of_nat (length data) < 2 ^ 32 ->
  Framing.parseHeader (take 6 (Framing.frame type data)) =
  (Framing.u16 type, Z.of_nat (length data)).
Proof.
  intros Hlen. unfold Framing.frame.
  change (take 6 (Framing.buildHeader type (Z.of_nat (length data)) ++ data))
    with (Framing.buildHeader type (Z.of_nat (length data))).
  rewrite parse_build. f_equal. unfold Int.u32. apply Z.mod_small. lia.
Qed.

Lemma header_round_trip_witness :
  Framing.parseHeader (take 6 (Framing.frame 1 [10; 20; 30])) = (1, 3).
Proof.
  apply (header_round_trip 1 [10; 20; 30]). simpl. lia.
Defined.

Section ReassemblyProps.

Lemma sum_nonneg (chunks : list Z) :
  Forall (fun c => 0 < c) chunks -> 0 <= fold_right Z.add 0 chunks.
Proof.
  induction 1 as [|c rest Hc _ IH]; simpl; lia.
Qed.

Lemma readPayload_reassembles (chunks : list Z) :
  forall (rem more payload : list Z) (length totalRead : Z),
    Forall (fun c => 0 < c) chunks ->
    0 <= totalRead -> length < 2 ^ 31 ->
    Z.of_nat (List.length rem) = length - totalRead ->
    length - totalRead <= fold_right Z.add 0 chunks ->
    exists unused,
      Framing.readPayload chunks (rem ++ more) length totalRead payload =
      Some (payload ++ rem, more, unused).
Proof.
  induction chunks as [|c rest IH]; intros rem more payload length totalRead
    Hpos Ht Hl Hrem Hsum.
  - simpl in Hsum. assert (rem = []) as -> by (destruct rem; [reflexivity | simpl in Hrem; lia]).
    simpl in Hrem. cbn [Framing.readPayload].
    destruct (Z.ltb_spec totalRead length); [lia|].
    exists []. by rewrite app_nil_r.
  - cbn [Framing.readPayload].
    destruct (Z.ltb_spec totalRead length) as [Hlt|Hge].
    + inversion Hpos as [|? ? Hc Hrest]; subst.
      assert (Hreq : Int.i32 (length - totalRead) = length - totalRead).
      { unfold Int.i32. rewrite Z.mod_small by lia. lia. }
      rewrite Hreq, length_app.
      set (n := Z.min c (Z.min (length - totalRead)
                               (Z.of_nat (List.length rem + List.length more)))).
      assert (Hn : n = Z.min c (length - totalRead)) by lia.
      destruct (Z.leb_spec n 0) as [?|Hn0]; [lia|].
      assert (Hnr : (Z.to_nat n <= List.length rem)%nat) by lia.
      rewrite drop_app_le, take_app_le by exact Hnr.
      destruct (IH (drop (Z.to_nat n) rem) more
                   (payload ++ take (Z.to_nat n) rem) length (totalRead + n))
        as [unused Hu].
      * exact Hrest.
      * lia.
      * exact Hl.
      * rewrite length_drop. lia.
      * pose proof (sum_nonneg rest Hrest). simpl in Hsum. lia.
      * exists unused. rewrite Hu, <- app_assoc, take_drop. reflexivity.
    + assert (rem = []) as -> by (destruct rem; [reflexivity | simpl in Hrem; lia]).
      exists (c :: rest). by rewrite app_nil_r.
Qed.

End ReassemblyProps.

(** X19.  A message framed by [sendRawMessage] is read back whole by
    [receiveLoop] however the payload is split over the reads: when the
    first read delivers the six header bytes and the following reads
    deliver any positive amounts that together cover the payload (shorter
    than 2^31 bytes), [handleMessage] gets the same type and the same
    payload, and the stream is left at the first byte after the message.
    A first read of fewer than six bytes ends the loop instead. *)
Theorem frame_reassembly
  (type : Z) (data more : list Z) (c0 : Z) (chunks : list Z) :
  Z.of_nat (length data) < 2 ^ 31 ->
  Forall (fun c => 0 < c) chunks ->
  Z.of_nat (length data) <= fold_right Z.add 0 chunks ->
  (6 <= c0 ->
   exists unused,
     Framing.receiveOne (c0 :: chunks) (Framing.frame type data ++ more) =
     Some (Framing.u16 type, data, more, unused)) /\
  (c0 < 6 ->
   Framing.receiveOne (c0 :: chunks) (Framing.frame type data ++ more) = None).
Proof.
  intros Hlen Hpos Hsum.
  assert (Hstream : Framing.frame type data ++ more =
                    Framing.buildHeader type (Z.of_nat (length data)) ++ (data ++ more)).
  { unfold Framing.frame. by rewrite <- app_assoc. }
  assert (Hl6 : length (Framing.buildHeader type (Z.of_nat (length data))) = 6%nat)
    by reflexivity.
  split.
  - intros Hc0. unfold Framing.receiveOne. rewrite Hstream.
    rewrite length_app, Hl6.
    destruct (Z.eqb_spec (Z.min c0 (Z.min 6 (Z.of_nat (6 + length (data ++ more))))) 6)
      as [_|Hne]; [|lia].
    cbn [negb].
    rewrite take_app_length' by exact Hl6.
    rewrite drop_app_length' by exact Hl6.
    rewrite parse_build.
    destruct (readPayload_reassembles chunks data more []
                (Int.u32 (Z.of_nat (length data))) 0) as [unused Hu].
    + exact Hpos.
    + lia.
    + unfold Int.u32. rewrite Z.mod_small by lia. exact Hlen.
    + unfold Int.u32. rewrite Z.mod_small by lia. lia.
    + unfold Int.u32. rewrite Z.mod_small by lia. lia.
    + exists unused. rewrite Hu. reflexivity.
  - intros Hc0. unfold Framing.receiveOne.
    destruct (Z.eqb_spec (Z.min c0 (Z.min 6 (Z.of_nat (length (Framing.frame type data ++ more))))) 6)
      as [He|_]; [lia | reflexivity].
Qed.

Lemma frame_reassembly_witness :
  exists unused,
    Framing.receiveOne [6; 2; 5] (Framing.frame 1 [10; 20; 30] ++ [7; 7]) =
    Some (1, [10; 20; 30], [7; 7], unused).
Proof.
  destruct (frame_reassembly 1 [10; 20; 30] [7; 7] 6 [2; 5]) as [H _].
  - simpl. lia.
  - repeat constructor.
  - simpl. lia.
  - apply H. lia.
Defined.

(** ** Giving up and starting again *)

Section PingLoopSteps.

Import UdpPing.

(** One pass of the loop without an answer. *)
Lemma pingLoopFrom_timeout tk rest retries st :
  running tk = true -> response tk = false -> retries < kMaxRetries ->
  pingLoopFrom (tk :: rest) retries st =
  pingLoopFrom rest (retries + 1) (sendPing st).
Proof.
  intros Hr Ha Hlt. cbn [pingLoopFrom]. rewrite Hr.
  destruct (Z.ltb_spec retries kMaxRetries) as [_|?]; [|lia].
  cbn [andb]. unfold receiveResponse. rewrite Ha. reflexivity.
Qed.

(** With the retries used up the loop is left at its next test. *)
Lemma pingLoopFrom_exhausted ticks retries st :
  kMaxRetries <= retries ->
  pingLoopFrom ticks retries st = (true, pingLoopExit retries st).
Proof.
  intros Hge. destruct ticks as [|tk rest]; cbn [pingLoopFrom];
    destruct (Z.ltb_spec retries kMaxRetries) as [?|_]; try lia;
    rewrite ?andb_false_r; reflexivity.
Qed.

End PingLoopSteps.

(** X20.  Three unanswered pings in a row at the beginning of a run end the
    ping loop for good: exactly three pings have been sent, the callback
    is called once with [(false, 0.0)], [isUdpAvailable] stays [false], and
    whatever happens on the network afterwards is not looked at any more. *)
Theorem three_timeouts_give_up
  (st0 st1 : UdpPing.t) (socket_fd : Z) (inet_pton_ok : bool)
  (t1 t2 t3 : UdpPing.Tick) (rest : list UdpPing.Tick) :
  UdpPing.start st0 socket_fd inet_pton_ok true = (true, st1) ->
  UdpPing.running t1 = true -> UdpPing.running t2 = true ->
  UdpPing.running t3 = true ->
  UdpPing.response t1 = false -> UdpPing.response t2 = false ->
  UdpPing.response t3 = false ->
  let r := UdpPing.pingLoop (t1 :: t2 :: t3 :: rest) st1 in
  fst r = true /\
  UdpPing.pingsSent_ (snd r) = 3 /\
  UdpPing.pongsReceived_ (snd r) = 0 /\
  UdpPing.trace_ (snd r) =
    UdpPing.trace_ st1 ++ [UdpPing.Callback false F32.zero] /\
  UdpPing.isUdpAvailable (snd r) = false /\
  UdpPing.running_ (snd r) = true.
Proof.
  intros Hstart R1 R2 R3 A1 A2 A3. cbv zeta.
  revert Hstart. unfold UdpPing.start.
  destruct (UdpPing.running_ st0); [discriminate|]. cbn [UdpPing.socket_].
  destruct (socket_fd <? 0); [discriminate|].
  destruct inet_pton_ok; cbn [negb]; [|discriminate].
  intros H. injection H as <-.
  unfold UdpPing.pingLoop.
  rewrite (pingLoopFrom_timeout t1) by (assumption || reflexivity).
  rewrite (pingLoopFrom_timeout t2) by (assumption || reflexivity).
  rewrite (pingLoopFrom_timeout t3) by (assumption || reflexivity).
  rewrite pingLoopFrom_exhausted by (vm_compute; discriminate).
  cbn. repeat split; reflexivity.
Qed.

Lemma three_timeouts_give_up_witness :
  let lost := UdpPing.mkTick true false 0 in
  let r := UdpPing.pingLoop [lost; lost; lost; UdpPing.mkTick true true 1500]
                            PingFixture.started in
  fst r = true /\ UdpPing.isUdpAvailable (snd r) = false.
Proof.
  intros lost r.
  destruct (three_timeouts_give_up UdpPing.create PingFixture.started 5 true
              lost lost lost [UdpPing.mkTick true true 1500])
    as (H1 & _ & _ & _ & H5 & _); try reflexivity.
  split; [exact H1 | exact H5].
Defined.

(** X21.  [start] on a pinger that is not running succeeds exactly when
    the socket can be created and [inet_pton] accepts the host.  On success
    the run begins with [isUdpAvailable] [false] and the counters at zero;
    on failure no socket is kept, the flag is not touched and nothing runs.
    Either way the callback passed in has replaced the old one.  [stop]
    leaves [isUdpAvailable] as it was, and the same [start] is decided the
    same way afterwards. *)
Theorem start_outcomes
  (st : UdpPing.t) (socket_fd : Z) (inet_pton_ok hasCallback : bool) :
  UdpPing.running_ st = false ->
  let r := UdpPing.start st socket_fd inet_pton_ok hasCallback in
  fst r = (0 <=? socket_fd) && inet_pton_ok /\
  UdpPing.hasCallback_ (snd r) = hasCallback /\
  UdpPing.running_ (snd r) = fst r /\
  (if fst r
   then UdpPing.socket_ (snd r) = socket_fd /\
        UdpPing.isUdpAvailable (snd r) = false /\
        UdpPing.pingsSent_ (snd r) = 0 /\ UdpPing.pongsReceived_ (snd r) = 0 /\
        UdpPing.trace_ (snd r) = UdpPing.trace_ st ++ [UdpPing.SetAvailable false]
   else UdpPing.socket_ (snd r) < 0 /\
        UdpPing.isUdpAvailable (snd r) = UdpPing.isUdpAvailable st /\
        UdpPing.trace_ (snd r) = UdpPing.trace_ st) /\
  UdpPing.isUdpAvailable (UdpPing.stop (snd r)) = UdpPing.isUdpAvailable (snd r) /\
  fst (UdpPing.start (UdpPing.stop (snd r)) socket_fd inet_pton_ok hasCallback)
    = (0 <=? socket_fd) && inet_pton_ok.
Proof.
  intros Hrun. cbv zeta. unfold UdpPing.start, UdpPing.stop, UdpPing.isUdpAvailable.
  rewrite Hrun. cbn.
  destruct (Z.ltb_spec socket_fd 0) as [Hneg|Hpos];
    destruct (Z.leb_spec 0 socket_fd) as [?|?]; try lia; cbn.
  - repeat split; try reflexivity; try assumption.
  - destruct inet_pton_ok; cbn.
    + destruct (Z.ltb_spec socket_fd 0) as [?|_]; [lia|].
      repeat split; reflexivity.
    + destruct (Z.ltb_spec socket_fd 0) as [?|_]; [lia|].
      repeat split; try reflexivity; try assumption; lia.
Qed.

Lemma start_outcomes_witness :
  let r := UdpPing.start UdpPing.create 5 false true in
  fst r = false /\ UdpPing.hasCallback_ (snd r) = true.
Proof.
  intros r.
  destruct (start_outcomes UdpPing.create 5 false true) as (H1 & H2 & _).
  - reflexivity.
  - split; [exact H1 | exact H2].
Defined.

(** ** What [decrypt] writes *)

(** X22.  [decrypt] never stores into the destination buffer.  On an
    initialised state and a packet of at least four bytes it overwrites the
    packet instead: the four header bytes stay, and the bytes behind them
    become the OCB encryption of what the destination held; the state gets
    the advanced receive counter when the call returns [true] and the
    resync request when it returns [false]. *)
Theorem decrypt_writes_source_not_destination
  (AES_encrypt : list Z -> CryptState.AES_KEY -> list Z)
  (st : CryptState.t) (src dst : list Z) :
  CryptState.initialized_ st = true ->
  (4 <= length src)%nat -> (length src - 4 <= length dst)%nat ->
  let r := CryptState.decrypt AES_encrypt st src dst in
  let sealed :=
    CryptState.ocbEncrypt AES_encrypt st (take (length src - 4) dst)
      (CryptState.storeCounter (CryptState.serverNonce_ st)
                               (CryptState.predicted st src)) in
  CryptState.dst_after r = dst /\
  CryptState.src_after r = take 4 src ++ fst sealed /\
  length (CryptState.src_after r) = length src /\
  CryptState.state r =
    (if CryptState.ret r
     then CryptState.set_decryptNonce st (Int.u32 (CryptState.predicted st src + 1))
     else CryptState.set_needResync st true).
Proof.
  intros Hinit Hlen Hdst. cbv zeta.
  unfold CryptState.decrypt, CryptState.predicted.
  rewrite Hinit. cbn [negb orb].
  destruct (Nat.ltb_spec (length src) 4) as [?|_]; [lia|].
  pose proof (ocbEncrypt_length AES_encrypt st (take (length src - 4) dst)
                (CryptState.storeCounter (CryptState.serverNonce_ st)
                   (Int.u32 (CryptState.decryptNonce_ st
                             + Int.i8 (Buf.rd src 0
                                       - Int.u8 (CryptState.decryptNonce_ st))))))
    as Hl.
  destruct (CryptState.ocbEncrypt _ _ _ _) as [encrypted tag].
  cbn [fst] in Hl |- *. rewrite length_take, Nat.min_l in Hl by exact Hdst.
  assert (Hsrc : Buf.memcpy_at 4 encrypted src = take 4 src ++ encrypted).
  { unfold Buf.memcpy_at. rewrite drop_ge by lia. by rewrite app_nil_r. }
  rewrite Hsrc.
  assert (Hlen' : length (take 4 src ++ encrypted) = length src).
  { rewrite length_app, length_take. lia. }
  destruct (_ || _); cbn; auto.
Qed.

Lemma decrypt_writes_source_not_destination_witness :
  let r := CryptFixture.open_zeroed [1] in
  CryptState.dst_after r = [0] /\
  length (CryptState.src_after r) = 5%nat.
Proof.
  intros r.
  destruct (decrypt_writes_source_not_destination AES128.AES_encrypt
              CryptFixture.receiver (CryptFixture.seal [1]) [0])
    as (H1 & _ & H3 & _).
  - reflexivity.
  - vm_compute. lia.
  - vm_compute. lia.
  - split; [exact H1 | exact H3].
Defined.

(** ** The fade tables *)

(** X23.  The fade-out table is the fade-in table read backwards, whatever
    [std::sin] computes: entry [i] of one is entry [fadeLength - 1 - i] of
    the other, and both have [fadeLength] entries. *)
Theorem fade_tables_mirror (sinf : F32.float -> F32.float) (frameSize : Z) :
  let c := Crossfade.create sinf frameSize in
  Crossfade.fadeOut_ c = reverse (Crossfade.fadeIn_ c) /\
  length (Crossfade.fadeIn_ c) = Z.to_nat frameSize /\
  length (Crossfade.fadeOut_ c) = Z.to_nat frameSize /\
  Crossfade.getFadeLength c = frameSize.
Proof.
  cbv zeta. unfold Crossfade.create, Crossfade.getFadeLength.
  cbn [Crossfade.fadeOut_ Crossfade.fadeIn_ Crossfade.fadeLength_].
  rewrite !length_map, !length_seq.
  split; [|auto].
  set (n := Z.to_nat frameSize).
  set (mul := F32.div F32.M_PI (F32.mul (F32.of_int 2) (F32.of_int frameSize))).
  apply list_eq. intros i.
  destruct (decide (i < n)%nat) as [Hlt|Hge].
  - rewrite reverse_lookup by (rewrite !length_map, length_seq; exact Hlt).
    rewrite !length_map, length_seq.
    rewrite !list_lookup_fmap, !lookup_seq_lt by lia. cbn.
    do 3 f_equal. unfold n in *. f_equal. lia.
  - rewrite !lookup_ge_None_2; [reflexivity| |];
      rewrite ?length_reverse, !length_map, length_seq; lia.
Qed.

(** ** Underrun and rebuffering *)

Section UnderrunProps.

Import UserAudioBuffer.

Lemma evict_length_le maxBufferSize buffer overruns :
  (length (fst (evict maxBufferSize buffer overruns)) <= length buffer)%nat.
Proof.
  revert overruns. induction buffer as [|x rest IH]; intros overruns; [simpl; lia|].
  cbn [evict]. destruct (_ >? _); [|cbn [fst]; lia].
  specialize (IH (Int.u32 (overruns + 1))). cbn [length]. lia.
Qed.

End UnderrunProps.

(** X24.  A read from a playing buffer whose ring is empty is an underrun:
    it returns 0, counts one underrun and stops playback with a fade-in
    pending.  Playback then waits for the start threshold again: after a
    packet of fewer than [minBufferSize_] samples the next read still
    returns 0, takes nothing from the ring and counts no further
    underrun. *)
Theorem underrun_rebuffers
  (st : UserAudioBuffer.t) (output output2 : list (cell F32.float))
  (frames frames2 : nat) (samples : list Z) (sequence : Z) (isPLC : bool)
  (now : Z) :
  UserAudioBuffer.playbackStarted_ st = true ->
  UserAudioBuffer.buffer_ st = [] ->
  Z.of_nat (length samples) < UserAudioBuffer.minBufferSize_ st ->
  let r := UserAudioBuffer.readFloat st output frames in
  let st1 := snd (fst r) in
  let st2 := UserAudioBuffer.addSamples st1 samples sequence isPLC now in
  let r2 := UserAudioBuffer.readFloat st2 output2 frames2 in
  fst (fst r) = 0%nat /\
  UserAudioBuffer.bufferUnderruns (UserAudioBuffer.stats_ st1) =
    Int.u32 (UserAudioBuffer.bufferUnderruns (UserAudioBuffer.stats_ st) + 1) /\
  UserAudioBuffer.playbackStarted_ st1 = false /\
  UserAudioBuffer.needsFadeIn_ st1 = true /\
  UserAudioBuffer.isActive st1 = false /\
  fst (fst r2) = 0%nat /\
  snd (fst r2) = st2 /\
  UserAudioBuffer.isActive st2 = negb (UserAudioBuffer.bufferEmpty st2).
Proof.
  intros Hs Hb Hlt. cbv zeta.
  assert (H1 : UserAudioBuffer.readFloat st output frames =
               (0%nat,
                UserAudioBuffer.set_stats_
                  (UserAudioBuffer.set_needsFadeIn_
                     (UserAudioBuffer.set_playbackStarted_ st false) true)
                  (UserAudioBuffer.set_bufferUnderruns (UserAudioBuffer.stats_ st)
                     (Int.u32 (UserAudioBuffer.bufferUnderruns
                                 (UserAudioBuffer.stats_ st) + 1))),
                UserAudioBuffer.fillZero 0 frames output)).
  { unfold UserAudioBuffer.readFloat. rewrite Hs. cbn [negb].
    unfold UserAudioBuffer.readFloatStarted, UserAudioBuffer.bufferEmpty.
    rewrite Hb. reflexivity. }
  rewrite H1. cbn [fst snd].
  set (st1 := UserAudioBuffer.set_stats_ _ _).
  set (st2 := UserAudioBuffer.addSamples st1 samples sequence isPLC now).
  assert (Hst1 : UserAudioBuffer.playbackStarted_ st1 = false
                 /\ UserAudioBuffer.buffer_ st1 = []
                 /\ UserAudioBuffer.minBufferSize_ st1 = UserAudioBuffer.minBufferSize_ st
                 /\ UserAudioBuffer.maxBufferSize_ st1 = UserAudioBuffer.maxBufferSize_ st).
  { unfold st1. cbn. rewrite Hb. auto. }
  destruct Hst1 as (Hp1 & Hb1 & Hm1 & Hx1).
  destruct (addSamples_frame st1 samples sequence isPLC now)
    as (_ & Hmin & _ & Hps & _).
  destruct (addSamples_evict st1 samples sequence isPLC now) as [Hbuf _].
  fold st2 in Hmin, Hps, Hbuf.
  assert (Hsize : UserAudioBuffer.bufferSize st2 < UserAudioBuffer.minBufferSize_ st2).
  { unfold UserAudioBuffer.bufferSize. rewrite Hbuf, Hmin, Hm1, Hb1.
    pose proof (evict_length_le (UserAudioBuffer.maxBufferSize_ st1)
                  ([] ++ map UserAudioBuffer.toFloat samples)
                  (UserAudioBuffer.bufferOverruns (UserAudioBuffer.stats_ st1))) as Hle.
    cbn [app] in Hle |- *. rewrite length_map in Hle. lia. }
  rewrite (readFloat_not_ready st2 output2 frames2) by (rewrite ?Hps; assumption).
  cbn [fst snd].
  split; [reflexivity|]. split; [reflexivity|]. split; [reflexivity|].
  split; [reflexivity|].
  split; [unfold UserAudioBuffer.isActive, UserAudioBuffer.bufferEmpty;
          rewrite Hb1, Hp1; reflexivity|].
  split; [reflexivity|]. split; [reflexivity|].
  unfold UserAudioBuffer.isActive. rewrite Hps, Hp1. apply orb_false_r.
Qed.

Lemma underrun_rebuffers_witness :
  let st :=
    snd (fst (UserAudioBuffer.readFloat
                (AudioRun.feed AudioFixture.fresh (AudioFixture.frames 6))
                (AudioFixture.blank 2880) 2880)) in
  let st1 := snd (fst (UserAudioBuffer.readFloat st (AudioFixture.blank 480) 480)) in
  let st2 := UserAudioBuffer.addSamples st1 (replicate 480 1000) 6 false 0 in
  UserAudioBuffer.playbackStarted_ st1 = false /\
  fst (fst (UserAudioBuffer.readFloat st2 (AudioFixture.blank 480) 480)) = 0%nat.
Proof.
  intros st st1 st2.
  destruct (underrun_rebuffers st (AudioFixture.blank 480) (AudioFixture.blank 480)
              480 480 (replicate 480 1000) 6 false 0)
    as (_ & _ & H3 & _ & _ & H6 & _).
  - vm_compute. reflexivity.
  - vm_compute. reflexivity.
  - vm_compute. reflexivity.
  - split; [exact H3 | exact H6].
Defined.

(** ** The ping datagram *)

(** X25.  The datagram [sendPing] sends has nine bytes: the type byte 0x20
    and the timestamp modulo 2^64, low byte first.  Read back as a
    little-endian number the eight bytes give that timestamp, and a server
    that echoes the datagram passes the test of [receiveResponse]. *)
Theorem ping_packet_round_trip (timestamp : Z) :
  let packet := UdpPingWire.pingPacket timestamp in
  length packet = 9%nat /\
  Buf.rd packet 0 = 32 /\
  Forall (fun b => 0 <= b < 256) packet /\
  UdpPingWire.littleEndian (drop 1 packet) = Int.u64 timestamp /\
  UdpPingWire.isPong packet = true.
Proof.
  cbv zeta. unfold UdpPingWire.pingPacket.
  cbn [map seq Z.of_nat Z.mul length Buf.rd nth drop Pos.of_succ_nat Pos.succ Pos.mul].
  split; [reflexivity|]. split; [reflexivity|].
  assert (Hb : forall x, 0 <= Int.u8 x < 256)
    by (intros x; apply Z.mod_pos_bound; lia).
  split; [repeat constructor; try apply Hb; lia|].
  split; [|reflexivity].
  cbn [UdpPingWire.littleEndian]. unfold Int.u8.
  change (Z.of_nat 0 * 8) with 0. change (Z.of_nat 1 * 8) with 8.
  change (Z.of_nat 2 * 8) with 16. change (Z.of_nat 3 * 8) with 24.
  change (Z.of_nat 4 * 8) with 32. change (Z.of_nat 5 * 8) with 40.
  change (Z.of_nat 6 * 8) with 48. change (Z.of_nat 7 * 8) with 56.
  rewrite Z.shiftr_0_r. rewrite !Z.shiftr_div_pow2 by lia.
  change (2 ^ 8) with 256. change (2 ^ 16) with (256 * 256).
  change (2 ^ 24) with (256 * 256 * 256).
  change (2 ^ 32) with (256 * 256 * 256 * 256).
  change (2 ^ 40) with (256 * 256 * 256 * 256 * 256).
  change (2 ^ 48) with (256 * 256 * 256 * 256 * 256 * 256).
  change (2 ^ 56) with (256 * 256 * 256 * 256 * 256 * 256 * 256).
  rewrite <- !Z.div_div by lia.
  set (q0 := timestamp / 256). set (q1 := q0 / 256). set (q2 := q1 / 256).
  set (q3 := q2 / 256). set (q4 := q3 / 256). set (q5 := q4 / 256).
  set (q6 := q5 / 256).
  pose proof (Z.div_mod timestamp 256 ltac:(lia)) as H0. fold q0 in H0.
  pose proof (Z.div_mod q0 256 ltac:(lia)) as H1. fold q1 in H1.
  pose proof (Z.div_mod q1 256 ltac:(lia)) as H2. fold q2 in H2.
  pose proof (Z.div_mod q2 256 ltac:(lia)) as H3. fold q3 in H3.
  pose proof (Z.div_mod q3 256 ltac:(lia)) as H4. fold q4 in H4.
  pose proof (Z.div_mod q4 256 ltac:(lia)) as H5. fold q5 in H5.
  pose proof (Z.div_mod q5 256 ltac:(lia)) as H6. fold q6 in H6.
  pose proof (Z.div_mod q6 256 ltac:(lia)) as H7.
  pose proof (Z.mod_pos_bound timestamp 256 ltac:(lia)) as B0.
  pose proof (Z.mod_pos_bound q0 256 ltac:(lia)) as B1.
  pose proof (Z.mod_pos_bound q1 256 ltac:(lia)) as B2.
  pose proof (Z.mod_pos_bound q2 256 ltac:(lia)) as B3.
  pose proof (Z.mod_pos_bound q3 256 ltac:(lia)) as B4.
  pose proof (Z.mod_pos_bound q4 256 ltac:(lia)) as B5.
  pose proof (Z.mod_pos_bound q5 256 ltac:(lia)) as B6.
  pose proof (Z.mod_pos_bound q6 256 ltac:(lia)) as B7.
  set (r0 := timestamp mod 256) in *. set (r1 := q0 mod 256) in *.
  set (r2 := q1 mod 256) in *. set (r3 := q2 mod 256) in *.
  set (r4 := q3 mod 256) in *. set (r5 := q4 mod 256) in *.
  set (r6 := q5 mod 256) in *. set (r7 := q6 mod 256) in *.
  set (q7 := q6 / 256) in *.
  clearbody r0 r1 r2 r3 r4 r5 r6 r7 q7 q6 q5 q4 q3 q2 q1 q0.
  unfold Int.u64. apply (Z.mod_unique_pos _ _ q7); lia.
Qed.

(** ** The partial block of [ocbEncrypt] *)

Section PartialBlockProps.

Variable AES_encrypt : list Z -> CryptState.AES_KEY -> list Z.

(** The offset after the full blocks does not depend on the text. *)
Lemma ocbFullBlocks_offset st n :
  forall i i' plain plain' encrypted encrypted' offset checksum checksum',
    snd (fst (CryptState.ocbFullBlocks AES_encrypt st n i plain encrypted
                offset checksum)) =
    snd (fst (CryptState.ocbFullBlocks AES_encrypt st n i' plain' encrypted'
                offset checksum')).
Proof.
  induction n as [|n IH]; intros; cbn [CryptState.ocbFullBlocks]; [reflexivity|].
  apply IH.
Qed.

(** The byte loop appends the text xor-ed with the pad. *)
Lemma ocbPartial_fst n : forall i base plain pad encrypted checksum,
  fst (CryptState.ocbPartial n i base plain pad encrypted checksum) =
  encrypted ++ map (fun j => Z.lxor (Buf.rd plain (base + j)) (Buf.rd pad j))
                   (seq i n).
Proof.
  induction n as [|n IH]; intros; cbn [CryptState.ocbPartial seq map].
  - by rewrite app_nil_r.
  - rewrite IH, <- app_assoc. reflexivity.
Qed.

(** What [ocbEncrypt] writes: the full blocks, then the keystream xor. *)
Lemma ocbEncrypt_fst st plain nonce :
  let fullBlocks := (length plain / 16)%nat in
  let run := CryptState.ocbFullBlocks AES_encrypt st fullBlocks 0 plain []
               (CryptState.aesEncrypt AES_encrypt st nonce) (replicate 16 0) in
  let pad := CryptState.aesEncrypt AES_encrypt st (CryptState.shift (snd (fst run))) in
  fst (CryptState.ocbEncrypt AES_encrypt st plain nonce) =
  fst (fst run)
  ++ map (fun j => Z.lxor (Buf.rd plain (fullBlocks * 16 + j)) (Buf.rd pad j))
         (seq 0 (length plain mod 16)).
Proof.
  cbv zeta. unfold CryptState.ocbEncrypt.
  destruct (CryptState.ocbFullBlocks _ _ _ _ _ _ _ _) as [[encrypted offset] checksum].
  cbn [fst snd].
  destruct (Nat.ltb_spec 0 (length plain mod 16)) as [Hpos|Hzero].
  - pose proof (ocbPartial_fst (length plain mod 16) 0 (length plain / 16 * 16) plain
                  (CryptState.aesEncrypt AES_encrypt st (CryptState.shift offset))
                  encrypted checksum) as Hp.
    destruct (CryptState.ocbPartial _ _ _ _ _ _ _) as [encrypted' checksum'].
    cbn [fst] in *. exact Hp.
  - replace (length plain mod 16)%nat with 0%nat by lia.
    cbn [fst seq map]. by rewrite app_nil_r.
Qed.

Lemma rd_app_r (a b : list Z) (j : nat) :
  Buf.rd (a ++ b) (length a + j) = Buf.rd b j.
Proof.
  unfold Buf.rd. rewrite !nth_lookup, lookup_app_r by lia.
  replace (length a + j - length a)%nat with j by lia. reflexivity.
Qed.

Lemma rd_map_seq (f : nat -> Z) (n j : nat) :
  (j < n)%nat -> Buf.rd (map f (seq 0 n)) j = f j.
Proof.
  intros Hj. unfold Buf.rd. rewrite nth_lookup.
  change (map f (seq 0 n)) with (f <$> seq 0 n).
  rewrite list_lookup_fmap, lookup_seq_lt by exact Hj. reflexivity.
Qed.

Lemma map_rd_drop (l : list Z) (base n : nat) :
  length l = (base + n)%nat ->
  map (fun j => Buf.rd l (base + j)) (seq 0 n) = drop base l.
Proof.
  intros Hl. apply list_eq. intros j.
  change (map (fun j => Buf.rd l (base + j)) (seq 0 n))
    with ((fun j => Buf.rd l (base + j)) <$> seq 0 n).
  rewrite list_lookup_fmap, lookup_drop.
  destruct (decide (j < n)%nat) as [Hlt|Hge].
  - rewrite lookup_seq_lt by exact Hlt. cbn. unfold Buf.rd. rewrite nth_lookup.
    destruct (l !! (base + j)%nat) eqn:E; [reflexivity|].
    apply lookup_ge_None in E. lia.
  - rewrite lookup_seq_ge by lia. cbn. symmetry. apply lookup_ge_None. lia.
Qed.

End PartialBlockProps.

(** X26.  The last, partial block of [ocbEncrypt] is a keystream xor whose
    pad depends on the key, the nonce and the number of full blocks only:
    running [ocbEncrypt] a second time over its own output, with the same
    nonce, gives back the bytes of the partial block.  A text shorter than
    one block comes back whole. *)
Theorem partial_block_involution
  (AES_encrypt : list Z -> CryptState.AES_KEY -> list Z)
  (st : CryptState.t) (plain nonce : list Z) :
  let once := fst (CryptState.ocbEncrypt AES_encrypt st plain nonce) in
  let twice := fst (CryptState.ocbEncrypt AES_encrypt st once nonce) in
  let fullBytes := (length plain / 16 * 16)%nat in
  length twice = length plain /\
  drop fullBytes twice = drop fullBytes plain /\
  ((length plain < 16)%nat -> twice = plain).
Proof.
  cbv zeta.
  assert (Hl1 : length (fst (CryptState.ocbEncrypt AES_encrypt st plain nonce))
                = length plain) by apply ocbEncrypt_length.
  assert (Htail :
    drop (length plain / 16 * 16)
         (fst (CryptState.ocbEncrypt AES_encrypt st
                 (fst (CryptState.ocbEncrypt AES_encrypt st plain nonce)) nonce))
    = drop (length plain / 16 * 16) plain).
  { pose proof (ocbEncrypt_fst AES_encrypt st plain nonce) as Honce.
    cbv zeta in Honce.
    set (once := fst (CryptState.ocbEncrypt AES_encrypt st plain nonce)) in *.
    rewrite (ocbEncrypt_fst AES_encrypt st once). cbv zeta. rewrite Hl1.
    rewrite (ocbFullBlocks_offset AES_encrypt st (length plain / 16) 0 0
               once plain [] [] _ (replicate 16 0) (replicate 16 0)).
    set (run := CryptState.ocbFullBlocks AES_encrypt st (length plain / 16) 0 plain []
                  (CryptState.aesEncrypt AES_encrypt st nonce) (replicate 16 0)) in *.
    set (pad := CryptState.aesEncrypt AES_encrypt st
                  (CryptState.shift (snd (fst run)))) in *.
    set (run2 := CryptState.ocbFullBlocks AES_encrypt st (length plain / 16) 0 once []
                   (CryptState.aesEncrypt AES_encrypt st nonce) (replicate 16 0)).
    assert (Hf1 : length (fst (fst run)) = (length plain / 16 * 16)%nat).
    { unfold run. rewrite ocbFullBlocks_length. simpl. lia. }
    assert (Hf2 : length (fst (fst run2)) = (length plain / 16 * 16)%nat).
    { unfold run2. rewrite ocbFullBlocks_length. simpl. lia. }
    rewrite drop_app_length' by (symmetry; exact Hf2).
    pose proof (Nat.div_mod_eq (length plain) 16) as Hdm.
    rewrite <- (map_rd_drop plain (length plain / 16 * 16) (length plain mod 16)) by lia.
    apply map_ext_in. intros j Hj. apply in_seq in Hj.
    rewrite Honce. rewrite <- Hf1 at 1. rewrite rd_app_r.
    rewrite (rd_map_seq _ (length plain mod 16) j) by lia.
    rewrite Z.lxor_assoc, Z.lxor_nilpotent, Z.lxor_0_r. reflexivity. }
  split; [rewrite ocbEncrypt_length; exact Hl1|].
  split; [exact Htail|].
  intros Hshort. rewrite Nat.div_small in Htail by exact Hshort.
  cbn [Nat.mul] in Htail. rewrite !drop_0 in Htail. exact Htail.
Qed.
